(** * A user-space demand pager and its replacement policies

    Shallow embedding of [virtualmem.c], [vmpolicy_fifo.c] and
    [vmpolicy_clru.c].  The C globals become fields of explicit state
    records, the linked queues of the policies live in a heap of nodes
    addressed by locations, and every path on which the C code calls
    [abort()], [exit()], fails an [assert] or dereferences an invalid
    pointer ends the computation with a [fatal] outcome. *)

From Stdlib Require Import ZArith Lia Bool.
From Stdlib.Strings Require Byte.
From stdpp Require Import base option list gmap.

Local Open Scope Z_scope.

(** ** Outcomes *)

(** How a call that does not return ends. *)
Inductive fatal : Type :=
| Aborted                (* abort(), or a failed assert *)
| Exited (status : Z)    (* exit(status) *)
| Crashed.               (* NULL or dangling pointer dereferenced *)

Inductive outcome (A : Type) : Type :=
| Ret (a : A)
| Stop (f : fatal).
Arguments Ret {A} a.
Arguments Stop {A} f.

Global Instance outcome_ret : MRet outcome := fun _ a => Ret a.

Global Instance outcome_bind : MBind outcome := fun _ _ k m =>
  match m with
  | Ret a => k a
  | Stop f => Stop f
  end.

(** [assert(b)] *)
Definition assert (b : bool) : outcome unit :=
  if b then Ret tt else Stop Aborted.

(** ** Build-time constants *)

(** Page numbers and node addresses are natural numbers; a pointer to a
    queue node is an optional address, [None] being NULL.  These are
    abbreviations, so that lemmas about lists and maps indexed by [nat]
    apply as they are. *)
Abbreviation page_t := nat (only parsing).
Abbreviation loc := nat (only parsing).
Abbreviation ptr := (option nat) (only parsing).

(** The constants of [virtualmem.h], which the three source files use but
    do not define. *)
Class config : Type := {
  PAGE_SIZE : nat;
  NUM_PAGES : nat;
  PAGEPERM_NONE : Z;
  PAGEPERM_READ : Z;
  PAGEPERM_RDWR : Z;
  PAGEPERM_MASK : Z;
  PAGE_RESIDENT : Z;
  PAGE_ACCESSED : Z;
  PAGE_DIRTY : Z
}.

(** What the code relies on: the three flags are non-empty bit sets,
    disjoint from each other and from the permission mask; the three
    permission values are distinct and lie inside the mask; the size of
    the pool fits an [int]. *)
Class config_ok (cfg : config) : Prop := {
  page_size_pos : (0 < PAGE_SIZE)%nat;
  pool_fits : Z.of_nat NUM_PAGES * Z.of_nat PAGE_SIZE < 2 ^ 31;
  mask_nonneg : 0 <= PAGEPERM_MASK;
  resident_pos : 0 < PAGE_RESIDENT;
  accessed_pos : 0 < PAGE_ACCESSED;
  dirty_pos : 0 < PAGE_DIRTY;
  resident_accessed : Z.land PAGE_RESIDENT PAGE_ACCESSED = 0;
  resident_dirty : Z.land PAGE_RESIDENT PAGE_DIRTY = 0;
  accessed_dirty : Z.land PAGE_ACCESSED PAGE_DIRTY = 0;
  resident_mask : Z.land PAGE_RESIDENT PAGEPERM_MASK = 0;
  accessed_mask : Z.land PAGE_ACCESSED PAGEPERM_MASK = 0;
  dirty_mask : Z.land PAGE_DIRTY PAGEPERM_MASK = 0;
  none_in_mask : Z.land PAGEPERM_NONE PAGEPERM_MASK = PAGEPERM_NONE;
  read_in_mask : Z.land PAGEPERM_READ PAGEPERM_MASK = PAGEPERM_READ;
  rdwr_in_mask : Z.land PAGEPERM_RDWR PAGEPERM_MASK = PAGEPERM_RDWR;
  none_read : PAGEPERM_NONE <> PAGEPERM_READ;
  none_rdwr : PAGEPERM_NONE <> PAGEPERM_RDWR;
  read_rdwr : PAGEPERM_READ <> PAGEPERM_RDWR
}.

Definition VIRTUALMEM_ADDR_START : Z := 0x20000000.

(** [<sys/mman.h>] and [<signal.h>] on Linux. *)
Definition PROT_NONE : Z := 0.
Definition PROT_READ : Z := 1.
Definition PROT_WRITE : Z := 2.
Definition SEGV_MAPERR : Z := 1.
Definition SEGV_ACCERR : Z := 2.

(** [unsigned int] arithmetic. *)
Definition wrap32 (z : Z) : Z := z mod 2 ^ 32.

(** The [int] that an [unsigned] is converted to: the value with the same
    32 bits. *)
Definition int32 (z : Z) : Z := (z + 2 ^ 31) mod 2 ^ 32 - 2 ^ 31.

(** ** The operating system, as far as the pager sees it *)

Inductive syscall : Type :=
| SysMmap (addr : Z) (len : nat) (prot : Z)
| SysMprotect (addr : Z) (prot : Z) (rc : Z)
| SysMunmap (addr : Z)
| SysLseek (off : nat)
| SysRead (off : nat) (addr : Z) (len : nat) (rc : Z)
| SysWrite (off : nat) (addr : Z) (len : nat) (rc : Z).

(** One page-sized mapping: its protection and its bytes. *)
Record mapping : Type := Mapping {
  m_prot : Z;
  m_data : list Byte.byte
}.

Record os_state : Type := OS {
  os_maps : gmap Z mapping;      (* mappings, by start address *)
  os_file : list Byte.byte;      (* contents of the swap file *)
  os_pos : nat;                  (* file offset of fd_swapfile *)
  os_trace : list syscall        (* system calls made, latest first *)
}.

Definition os_empty : os_state := OS ∅ [] 0%nat [].

Definition readable (m : mapping) : bool := Z.testbit (m_prot m) 0.
Definition writable (m : mapping) : bool := Z.testbit (m_prot m) 1.

Definition zeros (n : nat) : list Byte.byte := replicate n Byte.x00.

(** Bytes [off, off + length data) of the file become [data]; a hole
    between the old end of the file and [off] reads as zeros. *)
Definition file_write (off : nat) (data f : list Byte.byte) : list Byte.byte :=
  take off f ++ zeros (off - length f) ++ data ++ drop (off + length data) f.

(** The swap slot of a page: [PAGE_SIZE] bytes at [page * PAGE_SIZE]. *)
Definition swap_slot `{config} (page : page_t) (f : list Byte.byte) : list Byte.byte :=
  take PAGE_SIZE (drop (page * PAGE_SIZE) f).

(** mmap(addr, len, prot, MAP_FIXED | MAP_SHARED | MAP_ANONYMOUS, -1, 0):
    a fresh zero-filled mapping replaces whatever was at [addr]. *)
Definition os_mmap (addr : Z) (len : nat) (prot : Z) (o : os_state) : Z * os_state :=
  (addr, OS (<[addr := Mapping prot (zeros len)]> (os_maps o)) (os_file o) (os_pos o)
            (SysMmap addr len prot :: os_trace o)).

(** mprotect(addr, PAGE_SIZE, prot): fails (ENOMEM) on an unmapped page. *)
Definition os_mprotect (addr : Z) (prot : Z) (o : os_state) : Z * os_state :=
  match os_maps o !! addr with
  | Some m => (0, OS (<[addr := Mapping prot (m_data m)]> (os_maps o)) (os_file o) (os_pos o)
                     (SysMprotect addr prot 0 :: os_trace o))
  | None => (-1, OS (os_maps o) (os_file o) (os_pos o) (SysMprotect addr prot (-1) :: os_trace o))
  end.

(** munmap(addr, PAGE_SIZE) *)
Definition os_munmap (addr : Z) (o : os_state) : Z * os_state :=
  (0, OS (delete addr (os_maps o)) (os_file o) (os_pos o) (SysMunmap addr :: os_trace o)).

(** lseek(fd_swapfile, off, SEEK_SET) *)
Definition os_lseek (off : nat) (o : os_state) : Z * os_state :=
  (Z.of_nat off, OS (os_maps o) (os_file o) off (SysLseek off :: os_trace o)).

(** read(fd_swapfile, addr, len): copies what the file has from the current
    offset on, at most [len] bytes, into the mapping at [addr]; fails
    (EFAULT) when the mapping is missing or not writable. *)
Definition os_read (addr : Z) (len : nat) (o : os_state) : Z * os_state :=
  match os_maps o !! addr with
  | Some m =>
      if writable m then
        let bytes := take len (drop (os_pos o) (os_file o)) in
        let rc := Z.of_nat (length bytes) in
        (rc, OS (<[addr := Mapping (m_prot m) (bytes ++ drop (length bytes) (m_data m))]> (os_maps o))
                (os_file o) (os_pos o + length bytes)
                (SysRead (os_pos o) addr len rc :: os_trace o))
      else (-1, OS (os_maps o) (os_file o) (os_pos o) (SysRead (os_pos o) addr len (-1) :: os_trace o))
  | None => (-1, OS (os_maps o) (os_file o) (os_pos o) (SysRead (os_pos o) addr len (-1) :: os_trace o))
  end.

(** write(fd_swapfile, addr, len): copies [len] bytes of the mapping at
    [addr] to the file at the current offset; fails (EFAULT) when the
    mapping is missing or not readable. *)
Definition os_write (addr : Z) (len : nat) (o : os_state) : Z * os_state :=
  match os_maps o !! addr with
  | Some m =>
      if readable m then
        let bytes := take len (m_data m) in
        let rc := Z.of_nat (length bytes) in
        (rc, OS (os_maps o) (file_write (os_pos o) bytes (os_file o)) (os_pos o + length bytes)
                (SysWrite (os_pos o) addr len rc :: os_trace o))
      else (-1, OS (os_maps o) (os_file o) (os_pos o) (SysWrite (os_pos o) addr len (-1) :: os_trace o))
  | None => (-1, OS (os_maps o) (os_file o) (os_pos o) (SysWrite (os_pos o) addr len (-1) :: os_trace o))
  end.

(** What the host grants to [vmem_init]: memory to the policy's [malloc],
    and success to [open], [unlink] and [write] on the swap file, to
    [sigaction] for SIGSEGV and for SIGALRM, and to [setitimer]. *)
Record host : Type := Host {
  malloc_ok : bool;
  open_ok : bool;
  unlink_ok : bool;
  write_ok : bool;
  sigsegv_ok : bool;
  sigalrm_ok : bool;
  setitimer_ok : bool
}.

(** The host that grants everything. *)
Definition all_ok : host := Host true true true true true true true.

(** ** Global state of the pager *)

Record vm_state : Type := VM {
  vmem_start : Z;
  vmem_end : Z;
  num_resident : Z;
  max_resident : Z;
  num_faults : Z;
  num_loads : Z;
  page_table : list Z;
  os : os_state
}.

Definition set_page_table (pt : list Z) (s : vm_state) : vm_state :=
  VM (vmem_start s) (vmem_end s) (num_resident s) (max_resident s)
     (num_faults s) (num_loads s) pt (os s).

Definition set_os (o : os_state) (s : vm_state) : vm_state :=
  VM (vmem_start s) (vmem_end s) (num_resident s) (max_resident s)
     (num_faults s) (num_loads s) (page_table s) o.

Definition set_num_resident (n : Z) (s : vm_state) : vm_state :=
  VM (vmem_start s) (vmem_end s) n (max_resident s)
     (num_faults s) (num_loads s) (page_table s) (os s).

Definition set_num_faults (n : Z) (s : vm_state) : vm_state :=
  VM (vmem_start s) (vmem_end s) (num_resident s) (max_resident s)
     n (num_loads s) (page_table s) (os s).

Definition set_num_loads (n : Z) (s : vm_state) : vm_state :=
  VM (vmem_start s) (vmem_end s) (num_resident s) (max_resident s)
     (num_faults s) n (page_table s) (os s).

Section PageTable.
Context `{cfg : config}.

(** [page_table[page]] after [assert(page < NUM_PAGES)]. *)
Definition pte (page : page_t) (s : vm_state) : outcome Z :=
  _ ← assert (page <? NUM_PAGES)%nat;
  match page_table s !! page with
  | Some e => Ret e
  | None => Stop Crashed
  end.

(** [page_table[page] = e] after [assert(page < NUM_PAGES)]. *)
Definition set_pte (page : page_t) (e : Z) (s : vm_state) : outcome vm_state :=
  _ ← assert (page <? NUM_PAGES)%nat;
  match page_table s !! page with
  | Some _ => Ret (set_page_table (<[page := e]> (page_table s)) s)
  | None => Stop Crashed
  end.

Definition page_to_addr (page : page_t) (s : vm_state) : outcome Z :=
  _ ← assert (page <? NUM_PAGES)%nat;
  Ret (vmem_start s + Z.of_nat (page * PAGE_SIZE)).

Definition addr_to_page (addr : Z) (s : vm_state) : outcome page_t :=
  _ ← assert (addr >=? vmem_start s);
  _ ← assert (addr <? vmem_end s);
  Ret (Z.to_nat ((addr - vmem_start s) / Z.of_nat PAGE_SIZE)).

Definition get_num_faults (s : vm_state) : Z := num_faults s.
Definition get_num_loads (s : vm_state) : Z := num_loads s.

Definition clear_page_entry (page : page_t) (s : vm_state) : outcome vm_state :=
  set_pte page 0 s.

Definition set_page_resident (page : page_t) (s : vm_state) : outcome vm_state :=
  e ← pte page s; set_pte page (Z.lor e PAGE_RESIDENT) s.

Definition is_page_resident (page : page_t) (s : vm_state) : outcome Z :=
  e ← pte page s; Ret (Z.land e PAGE_RESIDENT).

Definition set_page_accessed (page : page_t) (s : vm_state) : outcome vm_state :=
  e ← pte page s; set_pte page (Z.lor e PAGE_ACCESSED) s.

Definition clear_page_accessed (page : page_t) (s : vm_state) : outcome vm_state :=
  e ← pte page s; set_pte page (Z.land e (Z.lnot PAGE_ACCESSED)) s.

Definition is_page_accessed (page : page_t) (s : vm_state) : outcome Z :=
  e ← pte page s; Ret (Z.land e PAGE_ACCESSED).

Definition set_page_dirty (page : page_t) (s : vm_state) : outcome vm_state :=
  e ← pte page s; set_pte page (Z.lor e PAGE_DIRTY) s.

Definition clear_page_dirty (page : page_t) (s : vm_state) : outcome vm_state :=
  e ← pte page s; set_pte page (Z.land e (Z.lnot PAGE_DIRTY)) s.

Definition is_page_dirty (page : page_t) (s : vm_state) : outcome Z :=
  e ← pte page s; Ret (Z.land e PAGE_DIRTY).

Definition get_page_permission (page : page_t) (s : vm_state) : outcome Z :=
  e ← pte page s; Ret (Z.land e PAGEPERM_MASK).

Definition valid_perm (perm : Z) : bool :=
  (perm =? PAGEPERM_NONE) || (perm =? PAGEPERM_READ) || (perm =? PAGEPERM_RDWR).

Definition pageperm_to_mmap (perm : Z) : outcome Z :=
  _ ← assert (valid_perm perm);
  if perm =? PAGEPERM_NONE then Ret PROT_NONE
  else if perm =? PAGEPERM_READ then Ret PROT_READ
  else if perm =? PAGEPERM_RDWR then Ret (Z.lor PROT_READ PROT_WRITE)
  else Stop Aborted.

Definition set_page_permission (page : page_t) (perm : Z) (s : vm_state) : outcome vm_state :=
  _ ← assert (page <? NUM_PAGES)%nat;
  _ ← assert (valid_perm perm);
  addr ← page_to_addr page s;
  prot ← pageperm_to_mmap perm;
  let '(rc, o) := os_mprotect addr prot (os s) in
  if rc =? -1 then Stop Aborted
  else
    let s := set_os o s in
    e ← pte page s;
    set_pte page (Z.lor (Z.land e (Z.lnot PAGEPERM_MASK)) perm) s.

End PageTable.

(** ** The FIFO policy ([vmpolicy_fifo.c]) *)

Module FIFO.

Record page_node : Type := Node {
  page : page_t;
  next : ptr
}.

Record loaded_pages_t : Type := Loaded {
  max_resident : Z;
  head : ptr;
  tail : ptr
}.

(** The global [loaded] ([None] while it is NULL) and the nodes that
    [malloc] has handed out and [free] has not taken back. *)
Record pol : Type := Pol {
  loaded : option loaded_pages_t;
  heap : gmap loc page_node
}.

Definition start : pol := Pol None ∅.

(** [*p] *)
Definition deref (p : ptr) (h : gmap loc page_node) : outcome page_node :=
  match p with
  | Some a => match h !! a with Some n => Ret n | None => Stop Crashed end
  | None => Stop Crashed
  end.

(** [p->next = v] *)
Definition set_next (p : ptr) (v : ptr) (h : gmap loc page_node) : outcome (gmap loc page_node) :=
  n ← deref p h;
  match p with
  | Some a => Ret (<[a := Node (page n) v]> h)
  | None => Stop Crashed
  end.

(** [*loaded] *)
Definition the_loaded (st : pol) : outcome loaded_pages_t :=
  match loaded st with
  | Some L => Ret L
  | None => Stop Crashed
  end.

(** [ok] tells whether [malloc] gave memory for [loaded]; [max] is the
    [int] that the parameter [max_resident] holds. *)
Definition policy_init (ok : bool) (max : Z) (st : pol) : Z * pol :=
  if ok then (1, Pol (Some (Loaded max None None)) (heap st))
  else (0, Pol None (heap st)).

(** [alloc] is what [malloc] returns for the new node. *)
Definition policy_page_mapped (alloc : ptr) (pg : page_t) (st : pol) : outcome pol :=
  match alloc with
  | None => Stop (Exited 0)
  | Some a =>
      let h := <[a := Node pg None]> (heap st) in
      L ← the_loaded st;
      match head L with
      | None => Ret (Pol (Some (Loaded (max_resident L) (Some a) (Some a))) h)
      | Some _ =>
          h ← set_next (tail L) (Some a) h;
          Ret (Pol (Some (Loaded (max_resident L) (head L) (Some a))) h)
      end
  end.

Definition policy_timer_tick (st : pol) (s : vm_state) : outcome (pol * vm_state) :=
  Ret (st, s).

Definition choose_and_evict_victim_page (st : pol) : outcome (page_t * pol) :=
  L ← the_loaded st;
  n ← deref (head L) (heap st);
  let victim := page n in
  let temp := head L in
  let L := Loaded (max_resident L) (next n) (tail L) in
  match temp with
  | Some a => Ret (victim, Pol (Some L) (delete a (heap st)))
  | None => Stop Crashed
  end.

End FIFO.

(** ** The CLOCK/LRU policy ([vmpolicy_clru.c]) *)

Module CLRU.

Record page_node : Type := Node {
  page : page_t;
  prev : ptr;
  next : ptr
}.

Record loaded_pages_t : Type := Loaded {
  max_resident : Z;
  num_loaded : Z;
  head : ptr;
  tail : ptr
}.

Record pol : Type := Pol {
  loaded : option loaded_pages_t;
  heap : gmap loc page_node
}.

Definition start : pol := Pol None ∅.

Definition set_head (p : ptr) (L : loaded_pages_t) : loaded_pages_t :=
  Loaded (max_resident L) (num_loaded L) p (tail L).

Definition set_tail (p : ptr) (L : loaded_pages_t) : loaded_pages_t :=
  Loaded (max_resident L) (num_loaded L) (head L) p.

Definition set_num_loaded (n : Z) (L : loaded_pages_t) : loaded_pages_t :=
  Loaded (max_resident L) n (head L) (tail L).

(** [*p] *)
Definition deref (p : ptr) (h : gmap loc page_node) : outcome page_node :=
  match p with
  | Some a => match h !! a with Some n => Ret n | None => Stop Crashed end
  | None => Stop Crashed
  end.

(** [p->next] and [p->prev] *)
Definition get_next (p : ptr) (h : gmap loc page_node) : outcome ptr :=
  n ← deref p h; Ret (next n).

Definition get_prev (p : ptr) (h : gmap loc page_node) : outcome ptr :=
  n ← deref p h; Ret (prev n).

(** [p->next = v] and [p->prev = v] *)
Definition set_next (p : ptr) (v : ptr) (h : gmap loc page_node) : outcome (gmap loc page_node) :=
  n ← deref p h;
  match p with
  | Some a => Ret (<[a := Node (page n) (prev n) v]> h)
  | None => Stop Crashed
  end.

Definition set_prev (p : ptr) (v : ptr) (h : gmap loc page_node) : outcome (gmap loc page_node) :=
  n ← deref p h;
  match p with
  | Some a => Ret (<[a := Node (page n) v (next n)]> h)
  | None => Stop Crashed
  end.

Definition the_loaded (st : pol) : outcome loaded_pages_t :=
  match loaded st with
  | Some L => Ret L
  | None => Stop Crashed
  end.

(** [max] is the [int] that the parameter [max_resident] holds, as under
    FIFO. *)
Definition policy_init (ok : bool) (max : Z) (st : pol) : Z * pol :=
  if ok then (1, Pol (Some (Loaded max 0 None None)) (heap st))
  else (0, Pol None (heap st)).

Definition policy_page_mapped (alloc : ptr) (pg : page_t) (st : pol) : outcome pol :=
  match alloc with
  | None => Stop (Exited 0)
  | Some a =>
      let node := Some a in
      let h := <[a := Node pg None None]> (heap st) in
      L ← the_loaded st;
      '(L, h) ← match head L with
                | None => Ret (set_tail node (set_head node L), h)
                | Some _ =>
                    h ← set_prev node (tail L) h;
                    h ← set_next (tail L) node h;
                    Ret (set_tail node L, h)
                end;
      Ret (Pol (Some (set_num_loaded (num_loaded L + 1) L)) h)
  end.

Section Tick.
Context `{cfg : config}.

(** The relinking done for a node whose page was accessed: take it out of
    the queue when it is the head or in the middle, then hang it after the
    tail. *)
Definition move_to_back (node : ptr) (L : loaded_pages_t) (h : gmap loc page_node)
  : outcome (loaded_pages_t * gmap loc page_node) :=
  '(L, h) ← (if bool_decide (node = head L) then
               nx ← get_next node h;
               h ← set_prev nx None h;
               nx ← get_next node h;
               Ret (set_head nx L, h)
             else if bool_decide (node ≠ tail L) then
               pv ← get_prev node h;
               nx ← get_next node h;
               h ← set_next pv nx h;
               nx ← get_next node h;
               pv ← get_prev node h;
               h ← set_prev nx pv h;
               Ret (L, h)
             else Ret (L, h));
  h ← set_prev node (tail L) h;
  h ← set_next node None h;
  h ← set_next (tail L) node h;
  Ret (set_tail node L, h).

(** The body of the [for] loop, run [n] more times from [node]. *)
Fixpoint tick_loop (n : nat) (node : ptr) (L : loaded_pages_t)
    (h : gmap loc page_node) (s : vm_state)
  : outcome (loaded_pages_t * gmap loc page_node * vm_state) :=
  match n with
  | O => Ret (L, h, s)
  | S n =>
      nd ← deref node h;
      let pg := page nd in
      let next_node := next nd in
      acc ← is_page_accessed pg s;
      if negb (acc =? 0) then
        s ← clear_page_accessed pg s;
        s ← set_page_permission pg PAGEPERM_NONE s;
        '(L, h) ← move_to_back node L h;
        tick_loop n next_node L h s
      else tick_loop n next_node L h s
  end.

Definition policy_timer_tick (st : pol) (s : vm_state) : outcome (pol * vm_state) :=
  L ← the_loaded st;
  if (num_loaded L =? 0) || (num_loaded L =? 1) then Ret (st, s)
  else
    '(L, h, s) ← tick_loop (Z.to_nat (num_loaded L)) (head L) L (heap st) s;
    Ret (Pol (Some L) h, s).

End Tick.

Definition choose_and_evict_victim_page (st : pol) : outcome (page_t * pol) :=
  L ← the_loaded st;
  n ← deref (head L) (heap st);
  let victim := page n in
  let temp := head L in
  let L := set_head (next n) L in
  match temp with
  | Some a =>
      Ret (victim, Pol (Some (set_num_loaded (num_loaded L - 1) L)) (delete a (heap st)))
  | None => Stop Crashed
  end.

End CLRU.

(** ** The policy interface ([vmpolicy.h]) *)

Class Policy : Type := {
  pol : Type;
  policy_start : pol;
  policy_init : bool -> Z -> pol -> Z * pol;
  policy_page_mapped : ptr -> page_t -> pol -> outcome pol;
  policy_timer_tick : pol -> vm_state -> outcome (pol * vm_state);
  choose_and_evict_victim_page : pol -> outcome (page_t * pol)
}.

Definition fifo_policy : Policy := {|
  pol := FIFO.pol;
  policy_start := FIFO.start;
  policy_init := FIFO.policy_init;
  policy_page_mapped := FIFO.policy_page_mapped;
  policy_timer_tick := FIFO.policy_timer_tick;
  choose_and_evict_victim_page := FIFO.choose_and_evict_victim_page
|}.

Definition clru_policy `{cfg : config} : Policy := {|
  pol := CLRU.pol;
  policy_start := CLRU.start;
  policy_init := CLRU.policy_init;
  policy_page_mapped := CLRU.policy_page_mapped;
  policy_timer_tick := CLRU.policy_timer_tick;
  choose_and_evict_victim_page := CLRU.choose_and_evict_victim_page
|}.

(** ** The pager ([virtualmem.c]) *)

Section Pager.
Context `{cfg : config} {P : Policy}.

(** Everything the program holds: the pager's globals and the policy's. *)
Record sys : Type := Sys {
  vm : vm_state;
  ps : pol
}.

(** All statics are zero when the program starts. *)
Definition boot : sys :=
  Sys (VM 0 0 0 0 0 0 (replicate NUM_PAGES 0) os_empty) policy_start.

(** [h] tells what the host grants.  The [unsigned] limit is converted to
    the [int] that [policy_init] takes.  The swap file is created empty; a
    byte written past its end leaves a hole of zeros.  A failure of
    [policy_init], [open], [unlink], [lseek] or [write] ends in [abort()],
    a failure of [sigaction] or [setitimer] in [exit(1)]. *)
Definition vmem_init (h : host) (_max_resident : Z) (s : sys) : outcome sys :=
  let v := vm s in
  let start := VIRTUALMEM_ADDR_START in
  let v := VM start (start + Z.of_nat (NUM_PAGES * PAGE_SIZE))
              0 _max_resident 0 (num_loads v) (page_table v) (os v) in
  let v := set_page_table (replicate NUM_PAGES 0) v in
  let '(r, p) := policy_init (malloc_ok h) (int32 (max_resident v)) (ps s) in
  if r =? 0 then Stop Aborted
  else if negb (open_ok h) then Stop Aborted
  else
    let o := OS (os_maps (os v)) [] 0%nat (os_trace (os v)) in
    if negb (unlink_ok h) then Stop Aborted
    else
      let '(rc, o) := os_lseek (NUM_PAGES * PAGE_SIZE) o in
      if rc <? 0 then Stop Aborted
      else if negb (write_ok h) then Stop Aborted
      else
        let o := OS (os_maps o) (file_write (os_pos o) [Byte.x78] (os_file o))
                    (os_pos o + 1) (os_trace o) in
        if negb (sigsegv_ok h) then Stop (Exited 1)
        else if negb (sigalrm_ok h) then Stop (Exited 1)
        else if negb (setitimer_ok h) then Stop (Exited 1)
        else Ret (Sys (set_os o v) p).

Definition map_page (alloc : ptr) (page : page_t) (initial_perm : Z) (s : sys) : outcome sys :=
  let v := vm s in
  _ ← assert (page <? NUM_PAGES)%nat;
  _ ← assert (valid_perm initial_perm);
  r ← is_page_resident page v;
  _ ← assert (r =? 0);
  let v := set_num_resident (wrap32 (num_resident v + 1)) v in
  if num_resident v >? max_resident v then Stop Aborted
  else
    input_addr ← page_to_addr page v;
    let prot := Z.lor PROT_READ PROT_WRITE in
    let '(virt_addr, o) := os_mmap input_addr PAGE_SIZE prot (os v) in
    let v := set_os o v in
    if virt_addr =? -1 then Stop Aborted
    else if negb (virt_addr =? input_addr) then Stop Aborted
    else
      let '(rc, o) := os_lseek (page * PAGE_SIZE) (os v) in
      let v := set_os o v in
      if rc =? -1 then Stop Aborted
      else
        let '(rc, o) := os_read virt_addr PAGE_SIZE (os v) in
        let v := set_os o v in
        if rc =? -1 then Stop Aborted
        else if negb (rc =? Z.of_nat PAGE_SIZE) then Stop Aborted
        else
          v ← set_pte page 0 v;
          v ← set_page_resident page v;
          v ← set_page_permission page initial_perm v;
          r ← is_page_resident page v;
          _ ← assert (negb (r =? 0));
          let v := set_num_loads (wrap32 (num_loads v + 1)) v in
          p ← policy_page_mapped alloc page (ps s);
          Ret (Sys v p).

Definition unmap_page (page : page_t) (v : vm_state) : outcome vm_state :=
  _ ← assert (page <? NUM_PAGES)%nat;
  _ ← assert (num_resident v >? 0);
  r ← is_page_resident page v;
  _ ← assert (negb (r =? 0));
  addr ← page_to_addr page v;
  d ← is_page_dirty page v;
  v ← (if negb (d =? 0) then
         v ← set_page_permission page PAGEPERM_READ v;
         let '(rc, o) := os_lseek (page * PAGE_SIZE) (os v) in
         let v := set_os o v in
         if rc =? -1 then Stop Aborted
         else
           let '(wc, o) := os_write addr PAGE_SIZE (os v) in
           let v := set_os o v in
           if wc =? -1 then Stop Aborted
           else if negb (wc =? Z.of_nat PAGE_SIZE) then Stop Aborted
           else Ret v
       else Ret v);
  let '(rc, o) := os_munmap addr (os v) in
  let v := set_os o v in
  if rc =? -1 then Stop Aborted
  else
    v ← clear_page_entry page v;
    r ← is_page_resident page v;
    _ ← assert (r =? 0);
    Ret (set_num_resident (wrap32 (num_resident v - 1)) v).

Definition sigsegv_handler (alloc : ptr) (addr : Z) (si_code : Z) (s : sys) : outcome sys :=
  if (addr <? vmem_start (vm s)) || (addr >=? vmem_end (vm s)) then Stop Aborted
  else
    let s := Sys (set_num_faults (wrap32 (num_faults (vm s) + 1)) (vm s)) (ps s) in
    page ← addr_to_page addr (vm s);
    _ ← assert (page <? NUM_PAGES)%nat;
    _ ← assert ((si_code =? SEGV_MAPERR) || (si_code =? SEGV_ACCERR));
    s ← (if si_code =? SEGV_MAPERR then
           _ ← assert (num_resident (vm s) <=? max_resident (vm s));
           s ← (if num_resident (vm s) =? max_resident (vm s) then
                  '(victim, p) ← choose_and_evict_victim_page (ps s);
                  r ← is_page_resident victim (vm s);
                  _ ← assert (negb (r =? 0));
                  v ← unmap_page victim (vm s);
                  r ← is_page_resident victim v;
                  _ ← assert (r =? 0);
                  Ret (Sys v p)
                else Ret s);
           s ← map_page alloc page PAGEPERM_NONE s;
           r ← is_page_resident page (vm s);
           _ ← assert (negb (r =? 0));
           Ret s
         else Ret s);
    if si_code =? SEGV_ACCERR then
      r ← is_page_resident page (vm s);
      _ ← assert (negb (r =? 0));
      perm ← get_page_permission page (vm s);
      if perm =? PAGEPERM_NONE then
        v ← set_page_permission page PAGEPERM_READ (vm s);
        v ← set_page_accessed page v;
        a ← is_page_accessed page v;
        _ ← assert (negb (a =? 0));
        perm ← get_page_permission page v;
        _ ← assert (perm =? PAGEPERM_READ);
        Ret (Sys v (ps s))
      else if perm =? PAGEPERM_READ then
        v ← set_page_permission page PAGEPERM_RDWR (vm s);
        v ← set_page_dirty page v;
        d ← is_page_dirty page v;
        _ ← assert (negb (d =? 0));
        perm ← get_page_permission page v;
        _ ← assert (perm =? PAGEPERM_RDWR);
        Ret (Sys v (ps s))
      else Ret s
    else Ret s.

Definition sigalrm_handler (s : sys) : outcome sys :=
  '(p, v) ← policy_timer_tick (ps s) (vm s);
  Ret (Sys v p).

(** What can interrupt the host: a fault at an address with a code (and
    the answer [malloc] would give during its handling), or the timer. *)
Inductive event : Type :=
| Fault (alloc : ptr) (addr : Z) (si_code : Z)
| Tick.

Definition handle (e : event) (s : sys) : outcome sys :=
  match e with
  | Fault alloc addr si_code => sigsegv_handler alloc addr si_code s
  | Tick => sigalrm_handler s
  end.

(** The handlers run one after another; each must return for the next
    to run. *)
Fixpoint run (es : list event) (s : sys) : outcome sys :=
  match es with
  | [] => Ret s
  | e :: es => s ← handle e s; run es s
  end.

End Pager.

Arguments sys {P}.
Arguments Sys {P} vm ps.

(** ** A concrete build *)

(** One choice of the constants: 4 KiB pages, a pool of eight pages, the
    permission in the two low bits and one bit for each flag. *)
Definition example_config : config := {|
  PAGE_SIZE := 4096;
  NUM_PAGES := 8;
  PAGEPERM_NONE := 0;
  PAGEPERM_READ := 1;
  PAGEPERM_RDWR := 3;
  PAGEPERM_MASK := 3;
  PAGE_RESIDENT := 4;
  PAGE_ACCESSED := 8;
  PAGE_DIRTY := 16
|}.

(** Start address of page [n] of the pool. *)
Definition page_addr `{config} (n : nat) : Z :=
  VIRTUALMEM_ADDR_START + Z.of_nat (n * PAGE_SIZE).

(** * Vocabulary of the properties

    Post-states of the pager's operations, what a test observes of a run,
    the invariants, and the queues of the two policies read as lists. *)

(** The nodes of a queue from head to tail: address and page of each. *)
Abbreviation nodes := (list (nat * nat)) (only parsing).

Section Vocabulary.
Context `{cfg : config}.

(** The entry that [set_page_permission] stores. *)
Definition with_perm (e perm : Z) : Z :=
  Z.lor (Z.land e (Z.lnot PAGEPERM_MASK)) perm.

(** The state after a successful [set_page_permission]: the protection of
    the mapping and the permission field change together. *)
Definition protected (page : page_t) (perm prot : Z) (e : Z) (m : mapping)
    (v : vm_state) : vm_state :=
  let addr := vmem_start v + Z.of_nat (page * PAGE_SIZE) in
  VM (vmem_start v) (vmem_end v) (num_resident v) (max_resident v)
     (num_faults v) (num_loads v)
     (<[page := with_perm e perm]> (page_table v))
     (OS (<[addr := Mapping prot (m_data m)]> (os_maps (os v)))
         (os_file (os v)) (os_pos (os v))
         (SysMprotect addr prot 0 :: os_trace (os v))).

(** What a test can see of a run: the three counters and the page table. *)
Definition observe {P : Policy} (r : outcome sys) : option (Z * Z * Z * list Z) :=
  match r with
  | Ret s => Some (num_resident (vm s), num_faults (vm s), num_loads (vm s),
                   page_table (vm s))
  | Stop _ => None
  end.

(** The example build under FIFO, initialised for [max] resident pages. *)
Definition fifo_init (max : Z) : outcome sys :=
  @vmem_init example_config fifo_policy all_ok max (@boot example_config fifo_policy).

Definition fifo_run (es : list event) (s : sys) : outcome sys :=
  @run example_config fifo_policy es s.

(** First touch of page 0, a read of it, a write to it. *)
Definition load_read_write_page0 : list event :=
  [Fault (Some 1%nat) (@page_addr example_config 0) SEGV_MAPERR;
   Fault None (@page_addr example_config 0) SEGV_ACCERR;
   Fault None (@page_addr example_config 0) SEGV_ACCERR].

(** Then a first touch of page 1: with room for one page only, page 0 is
    evicted. *)
Definition write_page0_then_load_page1 : list event :=
  load_read_write_page0 ++
  [Fault (Some 2%nat) (@page_addr example_config 1) SEGV_MAPERR].

(** The system calls of a write-back, latest first. *)
Definition write_back_calls (addr : Z) (page : page_t) : list syscall :=
  [SysWrite (page * PAGE_SIZE) addr PAGE_SIZE (Z.of_nat PAGE_SIZE);
   SysLseek (page * PAGE_SIZE);
   SysMprotect addr PROT_READ 0].

(** The state [unmap_page] returns for a resident page whose mapping [m]
    holds a full page. *)
Definition unmapped (page : page_t) (dirty : bool) (m : mapping) (v : vm_state) : vm_state :=
  let addr := vmem_start v + Z.of_nat (page * PAGE_SIZE) in
  VM (vmem_start v) (vmem_end v) (wrap32 (num_resident v - 1)) (max_resident v)
     (num_faults v) (num_loads v)
     (<[page := 0]> (page_table v))
     (if dirty then
        OS (delete addr (os_maps (os v)))
           (file_write (page * PAGE_SIZE) (m_data m) (os_file (os v)))
           (page * PAGE_SIZE + PAGE_SIZE)
           (SysMunmap addr :: write_back_calls addr page ++ os_trace (os v))
      else
        OS (delete addr (os_maps (os v))) (os_file (os v)) (os_pos (os v))
           (SysMunmap addr :: os_trace (os v))).

(** The system calls of a load, latest first. *)
Definition load_calls (addr : Z) (page : page_t) (prot : Z) : list syscall :=
  [SysMprotect addr prot 0;
   SysRead (page * PAGE_SIZE) addr PAGE_SIZE (Z.of_nat PAGE_SIZE);
   SysLseek (page * PAGE_SIZE);
   SysMmap addr PAGE_SIZE (Z.lor PROT_READ PROT_WRITE)].

(** The pager's state when [map_page] returns. *)
Definition mapped (page : page_t) (perm prot : Z) (v : vm_state) : vm_state :=
  let addr := vmem_start v + Z.of_nat (page * PAGE_SIZE) in
  VM (vmem_start v) (vmem_end v) (wrap32 (num_resident v + 1)) (max_resident v)
     (num_faults v) (wrap32 (num_loads v + 1))
     (<[page := with_perm (Z.lor 0 PAGE_RESIDENT) perm]> (page_table v))
     (OS (<[addr := Mapping prot (swap_slot page (os_file (os v)))]> (os_maps (os v)))
         (os_file (os v))
         (page * PAGE_SIZE + PAGE_SIZE)
         (load_calls addr page prot ++ os_trace (os v))).

(** Page 0 of the example build, resident, written to and holding 0xAB in
    every byte; nothing else is resident. *)
Definition one_dirty_page : vm_state :=
  VM VIRTUALMEM_ADDR_START
     (VIRTUALMEM_ADDR_START + Z.of_nat (@NUM_PAGES example_config * @PAGE_SIZE example_config))
     1 1 3 1
     (31 :: replicate 7 0)
     (OS {[ @page_addr example_config 0 := Mapping 3 (replicate (@PAGE_SIZE example_config) Byte.xab) ]}
         (zeros (@NUM_PAGES example_config * @PAGE_SIZE example_config + 1)) 0 []).

(** Whether a call returned. *)
Definition returns {A} (o : outcome A) : bool :=
  match o with Ret _ => true | Stop _ => false end.

(** A FIFO policy that has been initialised and holds no page. *)
Definition fifo_idle : FIFO.pol :=
  FIFO.Pol (Some (FIFO.Loaded 1 None None)) ∅.

(** The number of reads of the swap file in a trace of system calls: one
    per completed [map_page], the only function that reads the file. *)
Fixpoint loads_done (t : list syscall) : nat :=
  match t with
  | [] => 0
  | SysRead _ _ _ _ :: t => S (loads_done t)
  | _ :: t => loads_done t
  end.

(** What a returning fault handler has done to the pager's state, for a
    fault with code [code] on page [page]. *)
Inductive fault_effect (code : Z) (page : page_t) (v v' : vm_state) : Prop :=
| eff_load (pt1 : list Z) (n1 : Z) (e0 : Z) (o' : os_state) :
    code = SEGV_MAPERR ->
    (pt1 = page_table v /\ n1 = num_resident v /\ num_resident v <> max_resident v \/
     exists victim e,
       (victim < NUM_PAGES)%nat /\ page_table v !! victim = Some e /\
       Z.land e PAGE_RESIDENT <> 0 /\ 0 < num_resident v /\
       num_resident v = max_resident v /\
       pt1 = <[victim := 0]> (page_table v) /\ n1 = wrap32 (num_resident v - 1)) ->
    pt1 !! page = Some e0 -> Z.land e0 PAGE_RESIDENT = 0 ->
    wrap32 (n1 + 1) <= max_resident v ->
    loads_done (os_trace o') = S (loads_done (os_trace (os v))) ->
    v' = VM (vmem_start v) (vmem_end v) (wrap32 (n1 + 1)) (max_resident v)
            (wrap32 (num_faults v + 1)) (wrap32 (num_loads v + 1))
            (<[page := with_perm (Z.lor 0 PAGE_RESIDENT) PAGEPERM_NONE]> pt1) o' ->
    fault_effect code page v v'
| eff_read (e : Z) (o' : os_state) :
    code = SEGV_ACCERR ->
    page_table v !! page = Some e -> Z.land e PAGE_RESIDENT <> 0 ->
    Z.land e PAGEPERM_MASK = PAGEPERM_NONE ->
    loads_done (os_trace o') = loads_done (os_trace (os v)) ->
    v' = VM (vmem_start v) (vmem_end v) (num_resident v) (max_resident v)
            (wrap32 (num_faults v + 1)) (num_loads v)
            (<[page := Z.lor (with_perm e PAGEPERM_READ) PAGE_ACCESSED]> (page_table v)) o' ->
    fault_effect code page v v'
| eff_write (e : Z) (o' : os_state) :
    code = SEGV_ACCERR ->
    page_table v !! page = Some e -> Z.land e PAGE_RESIDENT <> 0 ->
    Z.land e PAGEPERM_MASK = PAGEPERM_READ ->
    loads_done (os_trace o') = loads_done (os_trace (os v)) ->
    v' = VM (vmem_start v) (vmem_end v) (num_resident v) (max_resident v)
            (wrap32 (num_faults v + 1)) (num_loads v)
            (<[page := Z.lor (with_perm e PAGEPERM_RDWR) PAGE_DIRTY]> (page_table v)) o' ->
    fault_effect code page v v'
| eff_none (e : Z) :
    code = SEGV_ACCERR ->
    page_table v !! page = Some e -> Z.land e PAGE_RESIDENT <> 0 ->
    Z.land e PAGEPERM_MASK <> PAGEPERM_NONE ->
    Z.land e PAGEPERM_MASK <> PAGEPERM_READ ->
    v' = set_num_faults (wrap32 (num_faults v + 1)) v ->
    fault_effect code page v v'.

Definition is_resident (e : Z) : bool := negb (Z.land e PAGE_RESIDENT =? 0).

(** The number of entries with the resident bit set. *)
Fixpoint count_resident (pt : list Z) : nat :=
  match pt with
  | [] => 0
  | e :: pt => (if is_resident e then 1 else 0) + count_resident pt
  end.

(** What a timer tick may do to an entry: nothing, or clear the accessed
    bit and set the permission to NONE; the resident and dirty bits stay. *)
Definition aged (e e' : Z) : Prop :=
  Z.land e' PAGE_RESIDENT = Z.land e PAGE_RESIDENT /\
  Z.land e' PAGE_DIRTY = Z.land e PAGE_DIRTY /\
  (e' = e \/ Z.land e' PAGE_ACCESSED = 0 /\ Z.land e' PAGEPERM_MASK = PAGEPERM_NONE).

Record pager_inv (J : Z -> Prop) (v : vm_state) : Prop := {
  inv_length : length (page_table v) = NUM_PAGES;
  inv_count : num_resident v = Z.of_nat (count_resident (page_table v));
  inv_cap : num_resident v <= max_resident v;
  inv_entries : Forall J (page_table v)
}.

(** What a tick of either policy does to the pager's state: the counters
    and the swap reads stay, entries may age. *)
Record ages (v v' : vm_state) : Prop := {
  ages_start : vmem_start v' = vmem_start v;
  ages_end : vmem_end v' = vmem_end v;
  ages_resident : num_resident v' = num_resident v;
  ages_max : max_resident v' = max_resident v;
  ages_faults : num_faults v' = num_faults v;
  ages_loads : num_loads v' = num_loads v;
  ages_table : Forall2 aged (page_table v) (page_table v');
  ages_trace : loads_done (os_trace (os v')) = loads_done (os_trace (os v))
}.

(** The entry invariants of the two policies. *)
Definition J_fifo (e : Z) : Prop :=
  (Z.land e PAGE_DIRTY <> 0 -> Z.land e PAGE_ACCESSED <> 0) /\
  (Z.land e PAGE_RESIDENT <> 0 -> Z.land e PAGEPERM_MASK = PAGEPERM_READ ->
   Z.land e PAGE_ACCESSED <> 0).

Definition J_clru (e : Z) : Prop :=
  (Z.land e PAGE_DIRTY <> 0 ->
   Z.land e PAGE_ACCESSED <> 0 \/ Z.land e PAGEPERM_MASK = PAGEPERM_NONE) /\
  (Z.land e PAGE_RESIDENT <> 0 -> Z.land e PAGEPERM_MASK = PAGEPERM_READ ->
   Z.land e PAGE_ACCESSED <> 0).

(** The example build under CLOCK/LRU. *)
Definition clru_init (max : Z) : outcome sys :=
  @vmem_init example_config (@clru_policy example_config) all_ok max
    (@boot example_config (@clru_policy example_config)).

Definition clru_run (es : list event) (s : sys) : outcome sys :=
  @run example_config (@clru_policy example_config) es s.

(** Page 0 is loaded, read and written; page 1 is loaded; the timer ticks. *)
Definition write_page0_then_tick : list event :=
  [Fault (Some 1%nat) (@page_addr example_config 0) SEGV_MAPERR;
   Fault None (@page_addr example_config 0) SEGV_ACCERR;
   Fault None (@page_addr example_config 0) SEGV_ACCERR;
   Fault (Some 2%nat) (@page_addr example_config 1) SEGV_MAPERR;
   Tick].

(** The faults among the events of a run, and those of them that load a
    page. *)
Fixpoint faults_in (es : list event) : nat :=
  match es with
  | [] => 0
  | Fault _ _ _ :: es => S (faults_in es)
  | Tick :: es => faults_in es
  end.

Fixpoint loads_in (es : list event) : nat :=
  match es with
  | [] => 0
  | Fault _ _ code :: es => (if code =? SEGV_MAPERR then 1 else 0) + loads_in es
  | Tick :: es => loads_in es
  end.

(** A policy whose tick leaves the pager's counters alone. *)
Definition tick_only_ages (P : Policy) : Prop :=
  forall p v p' v', policy_timer_tick p v = Ret (p', v') -> ages v v'.

(** The counters after [nf] faults of which [nl] loaded a page. *)
Definition counters_ok (v : vm_state) (nf nl : nat) : Prop :=
  num_faults v = wrap32 (Z.of_nat nf) /\
  num_loads v = wrap32 (Z.of_nat nl) /\
  loads_done (os_trace (os v)) = nl.

(** What the wrap-around needs to know of a state. *)
Definition probe (s : @sys fifo_policy) : Z * Z * Z * Z * list Z :=
  (vmem_start (vm s), vmem_end (vm s), num_faults (vm s), num_loads (vm s),
   page_table (vm s)).

(** Pointer to the first node of [q], or [dflt] when there is none. *)
Definition first_ptr (q : nodes) (dflt : option nat) : option nat :=
  match q with
  | [] => dflt
  | (a, _) :: _ => Some a
  end.

(** Pointer to the last node of [q], or [dflt] when there is none. *)
Definition last_ptr (q : nodes) (dflt : option nat) : option nat :=
  match last q with
  | Some (a, _) => Some a
  | None => dflt
  end.

(** The heap holds the nodes of [q], each pointing to the next, the last
    to NULL. *)
Fixpoint fifo_chain (h : gmap nat FIFO.page_node) (q : nodes) : Prop :=
  match q with
  | [] => True
  | (a, pg) :: q' => h !! a = Some (FIFO.Node pg (first_ptr q' None)) /\ fifo_chain h q'
  end.

(** The policy state holds exactly the queue [q]: [head] points to its
    first node (NULL when it is empty), [tail] to its last node when there
    is one, and nothing else is allocated. *)
Record fifo_repr (st : FIFO.pol) (q : nodes) : Prop := {
  fifo_loaded : exists L, FIFO.loaded st = Some L /\
                          FIFO.head L = first_ptr q None /\
                          (q <> [] -> FIFO.tail L = last_ptr q None);
  fifo_nodup : NoDup q.*1;
  fifo_nodes : fifo_chain (FIFO.heap st) q;
  fifo_rest : forall a, a ∉ q.*1 -> FIFO.heap st !! a = None
}.

(** The calls the pager makes to the policy. *)
Inductive policy_call : Type :=
| Mapped (alloc : nat) (page : page_t)    (* policy_page_mapped(page), malloc giving alloc *)
| Evict.                                  (* choose_and_evict_victim_page() *)

(** A sequence of calls on the FIFO policy, and the victims it returns. *)
Fixpoint fifo_calls (cs : list policy_call) (st : FIFO.pol) : outcome (list page_t * FIFO.pol) :=
  match cs with
  | [] => Ret ([], st)
  | Mapped a pg :: cs =>
      st ← FIFO.policy_page_mapped (Some a) pg st;
      fifo_calls cs st
  | Evict :: cs =>
      '(victim, st) ← FIFO.choose_and_evict_victim_page st;
      '(victims, st) ← fifo_calls cs st;
      Ret (victim :: victims, st)
  end.

(** The queue the spec describes: append on map, evict from the head.  A
    call is out of bounds ([None]) when [malloc] would return a node that is
    still in the queue, or when a victim is asked of an empty queue. *)
Fixpoint spec_queue (cs : list policy_call) (q : nodes) : option (list page_t * nodes) :=
  match cs with
  | [] => Some ([], q)
  | Mapped a pg :: cs =>
      if bool_decide (a ∈ q.*1) then None else spec_queue cs (q ++ [(a, pg)])
  | Evict :: cs =>
      match q with
      | [] => None
      | (_, pg) :: q' =>
          match spec_queue cs q' with
          | Some (victims, q'') => Some (pg :: victims, q'')
          | None => None
          end
      end
  end.

(** The pages mapped by a sequence of calls, in order. *)
Fixpoint mapped_pages (cs : list policy_call) : list page_t :=
  match cs with
  | [] => []
  | Mapped _ pg :: cs => pg :: mapped_pages cs
  | Evict :: cs => mapped_pages cs
  end.

(** The victims a sequence of calls returned. *)
Definition victims_of {A} (o : outcome (list page_t * A)) : option (list page_t) :=
  match o with
  | Ret (victims, _) => Some victims
  | Stop _ => None
  end.

(** The heap holds the nodes of [q] as a doubly-linked segment: each node
    points back to the one before it, the first to [p], and forward to the
    one after it, the last to [n]. *)
Fixpoint dseg (h : gmap nat CLRU.page_node) (p : option nat) (q : nodes)
    (n : option nat) : Prop :=
  match q with
  | [] => True
  | (a, pg) :: q' =>
      h !! a = Some (CLRU.Node pg p (first_ptr q' n)) /\ dseg h (Some a) q' n
  end.

(** [head] and [tail] delimit the queue [q], whose first node has [hp] as
    its [prev]. *)
Record clru_queue (hp : option nat) (L : CLRU.loaded_pages_t)
    (h : gmap nat CLRU.page_node) (q : nodes) : Prop := {
  cq_head : CLRU.head L = first_ptr q None;
  cq_tail : q <> [] -> CLRU.tail L = last_ptr q None;
  cq_nodup : NoDup q.*1;
  cq_nodes : dseg h hp q None
}.

(** The policy state holds the queue [q].  A well-formed list has
    [hp = None]; after an eviction the new head keeps a stale [prev]. *)
Record clru_repr (hp : option nat) (st : CLRU.pol) (q : nodes) : Prop := {
  clru_loaded : exists L, CLRU.loaded st = Some L /\
                          CLRU.num_loaded L = Z.of_nat (length q) /\
                          clru_queue hp L (CLRU.heap st) q
}.

(** The walk of the tick on the queue as a list: [rest] is still to be
    visited, [kept] are the visited nodes left in place and [moved] those
    hung after the tail, so the queue is [kept ++ rest ++ moved].  A node
    can be relinked when another node follows it in the queue; the walk of
    the list stops where none does. *)
Fixpoint walk (kept moved rest : nodes) (v : vm_state)
  : outcome (nodes * nodes * vm_state) :=
  match rest with
  | [] => Ret (kept, moved, v)
  | (a, pg) :: rest' =>
      acc ← is_page_accessed pg v;
      if negb (acc =? 0) then
        v ← clear_page_accessed pg v;
        v ← set_page_permission pg PAGEPERM_NONE v;
        match rest' ++ moved with
        | [] => Stop Crashed
        | _ :: _ => walk kept (moved ++ [(a, pg)]) rest' v
        end
      else walk (kept ++ [(a, pg)]) moved rest' v
  end.

(** Whether the accessed bit of a page is set. *)
Definition accessedb (v : vm_state) (pg : page_t) : bool :=
  match page_table v !! pg with
  | Some e => negb (Z.land e PAGE_ACCESSED =? 0)
  | None => false
  end.

(** A page the tick can handle: it has an entry and is mapped. *)
Definition page_ready (v : vm_state) (pg : page_t) : Prop :=
  (pg < NUM_PAGES)%nat /\ is_Some (page_table v !! pg) /\
  is_Some (os_maps (os v) !! (vmem_start v + Z.of_nat (pg * PAGE_SIZE))).

(** The entry of an accessed page after the tick has dealt with it. *)
Definition rearmed (e : Z) : Z :=
  with_perm (Z.land e (Z.lnot PAGE_ACCESSED)) PAGEPERM_NONE.

(** The state after the tick has dealt with one accessed page. *)
Definition age_page (v : vm_state) (pg : page_t) : vm_state :=
  match page_table v !! pg,
        os_maps (os v) !! (vmem_start v + Z.of_nat (pg * PAGE_SIZE)) with
  | Some e, Some m =>
      protected pg PAGEPERM_NONE PROT_NONE (Z.land e (Z.lnot PAGE_ACCESSED)) m
        (set_page_table (<[pg := Z.land e (Z.lnot PAGE_ACCESSED)]> (page_table v)) v)
  | _, _ => v
  end.

(** In the queue, if the page of the last node is accessed then so is the
    page of a node before it. *)
Definition tail_rule (q : nodes) (v : vm_state) : Prop :=
  forall q0 x, q = q0 ++ [x] -> accessedb v x.2 = true ->
  exists y, y ∈ q0 /\ accessedb v y.2 = true.

(** The system call by which the tick takes all access to a page away. *)
Definition rearm_call (v : vm_state) (pg : page_t) : syscall :=
  SysMprotect (vmem_start v + Z.of_nat (pg * PAGE_SIZE)) PROT_NONE 0.

(** A queue of two nodes, for pages 0 and 1. *)
Definition two_node_queue : CLRU.pol :=
  CLRU.Pol (Some (CLRU.Loaded 2 2 (Some 1%nat) (Some 2%nat)))
           (<[1%nat := CLRU.Node 0 None (Some 2%nat)]>
              (<[2%nat := CLRU.Node 1 (Some 1%nat) None]> ∅)).

(** Pages 0 and 1 of the example build are resident; page 0 has been read
    (entry 13: accessed, resident, READ), page 1 has not (entry 4). *)
Definition first_page_read : vm_state :=
  VM VIRTUALMEM_ADDR_START
     (VIRTUALMEM_ADDR_START + Z.of_nat (@NUM_PAGES example_config * @PAGE_SIZE example_config))
     2 2 3 2
     (13 :: 4 :: replicate 6 0)
     (OS (<[@page_addr example_config 0 := Mapping PROT_READ (zeros (@PAGE_SIZE example_config))]>
            (<[@page_addr example_config 1 := Mapping PROT_NONE (zeros (@PAGE_SIZE example_config))]> ∅))
         (zeros (@NUM_PAGES example_config * @PAGE_SIZE example_config + 1)) 0 []).

(** Pages 0 and 1 are loaded, page 1 is read, the timer ticks. *)
Definition read_last_then_tick : list event :=
  [Fault (Some 1%nat) (@page_addr example_config 0) SEGV_MAPERR;
   Fault (Some 2%nat) (@page_addr example_config 1) SEGV_MAPERR;
   Fault None (@page_addr example_config 1) SEGV_ACCERR;
   Tick].

(** Then page 2 is loaded, page 1 is read again, and the timer ticks. *)
Definition read_last_then_tick_twice : list event :=
  read_last_then_tick ++
  [Fault (Some 3%nat) (@page_addr example_config 2) SEGV_MAPERR;
   Fault None (@page_addr example_config 1) SEGV_ACCERR;
   Tick].

(** The policy's part of a state of the example build under CLOCK/LRU. *)
Definition clru_state (s : @sys (@clru_policy example_config)) : CLRU.pol := ps s.

End Vocabulary.

(** * The pager as a whole

    The two accessors of the pool that the model above does not have yet,
    and the vocabulary of the properties of whole operations: what a
    consistent state is, what a served fault leaves behind, and which runs
    of events a host can cause. *)

(** [get_vmem_start()] and [get_vmem_end()] *)
Definition get_vmem_start (s : vm_state) : Z := vmem_start s.
Definition get_vmem_end (s : vm_state) : Z := vmem_end s.

Section PagerVocabulary.
Context `{cfg : config}.

(** The four fields of the entry of a page, as the query functions give
    them: resident, accessed, dirty, permission. *)
Definition entry_fields (page : page_t) (v : vm_state) : outcome (Z * Z * Z * Z) :=
  r ← is_page_resident page v;
  a ← is_page_accessed page v;
  d ← is_page_dirty page v;
  p ← get_page_permission page v;
  Ret (r, a, d, p).

(** The fields of the entry once an update of it has returned. *)
Definition fields_after (f : page_t -> vm_state -> outcome vm_state)
    (page : page_t) (v : vm_state) : outcome (Z * Z * Z * Z) :=
  v ← f page v; entry_fields page v.

(** [v'] is [v] but for the entry of [page]. *)
Definition entry_updated (page : page_t) (v v' : vm_state) : Prop :=
  exists e, v' = set_page_table (<[page := e]> (page_table v)) v.

(** Start address of a page of the pool. *)
Definition page_start (v : vm_state) (page : page_t) : Z :=
  vmem_start v + Z.of_nat (page * PAGE_SIZE).

(** The pool is [NUM_PAGES] pages long, as [vmem_init] lays it out. *)
Definition pool_laid_out (v : vm_state) : Prop :=
  vmem_end v = vmem_start v + Z.of_nat (NUM_PAGES * PAGE_SIZE).

(** The page of an address of the pool. *)
Definition page_of (v : vm_state) (addr : Z) : page_t :=
  Z.to_nat ((addr - vmem_start v) / Z.of_nat PAGE_SIZE).

(** The state in which the handler works: the fault has been counted. *)
Definition counted (v : vm_state) : vm_state :=
  set_num_faults (wrap32 (num_faults v + 1)) v.

(** The state after an access fault has raised the permission of a page to
    [perm] and set [flag] in its entry. *)
Definition granted (page : page_t) (perm prot flag : Z) (e : Z) (m : mapping)
    (v : vm_state) : vm_state :=
  let v := protected page perm prot e m v in
  set_page_table (<[page := Z.lor (with_perm e perm) flag]> (page_table v)) v.

(** The entry of [pg] has the resident bit set. *)
Definition resident_in (v : vm_state) (pg : page_t) : Prop :=
  exists e, page_table v !! pg = Some e /\ Z.land e PAGE_RESIDENT <> 0.

(** The pager's state is consistent with the address space and the swap
    file: the pool is laid out, the table has an entry for each page,
    [num_resident] counts the resident entries and respects a positive
    limit, every resident page is mapped with a full page of bytes, the
    swap file covers the pool, and a resident page that is not dirty has
    the bytes of its swap slot. *)
Record pool_ok (v : vm_state) : Prop := {
  pool_start : 0 <= vmem_start v;
  pool_end : pool_laid_out v;
  pool_table : length (page_table v) = NUM_PAGES;
  pool_count : num_resident v = Z.of_nat (count_resident (page_table v));
  pool_cap : num_resident v <= max_resident v;
  pool_max : 0 < max_resident v < 2 ^ 32;
  pool_mapped : forall pg, resident_in v pg ->
    exists m, os_maps (os v) !! page_start v pg = Some m /\
              length (m_data m) = PAGE_SIZE;
  pool_swap : (NUM_PAGES * PAGE_SIZE <= length (os_file (os v)))%nat;
  pool_clean : forall pg e m,
    page_table v !! pg = Some e -> Z.land e PAGE_RESIDENT <> 0 ->
    Z.land e PAGE_DIRTY = 0 ->
    os_maps (os v) !! page_start v pg = Some m ->
    m_data m = swap_slot pg (os_file (os v))
}.

(** The bytes of a page as the host has them: those of its mapping while
    the page is resident, those of its swap slot while it is not. *)
Definition contents (v : vm_state) (pg : page_t) : list Byte.byte :=
  match page_table v !! pg with
  | Some e =>
      if Z.land e PAGE_RESIDENT =? 0 then swap_slot pg (os_file (os v))
      else match os_maps (os v) !! page_start v pg with
           | Some m => m_data m
           | None => []
           end
  | None => []
  end.

(** The queue [q] of a policy holds the resident pages, each once. *)
Definition queue_ok (v : vm_state) (q : nodes) : Prop :=
  NoDup q.*2 /\ forall pg, pg ∈ q.*2 <-> resident_in v pg.

(** The queue once the handler has made room for a page: as it is while
    fewer than [max_resident] pages are resident, without its first node
    otherwise. *)
Definition room_made (v : vm_state) (q : nodes) : nodes :=
  if num_resident v <? max_resident v then q else tail q.

(** The CLOCK/LRU state holds the queue [q] and no other node. *)
Definition clru_holds (st : CLRU.pol) (q : nodes) : Prop :=
  (exists hp, clru_repr hp st q) /\
  forall a, a ∉ q.*1 -> CLRU.heap st !! a = None.

(** What serving a fault on [page] has done to the pager's state, [kept]
    being the pages that stay resident: the page is resident with
    permission NONE and clean flags, its mapping holds the bytes of its
    swap slot, the pages that stay keep their entries and their mappings,
    and one fault and one load have been counted. *)
Record page_loaded (page : page_t) (kept : list page_t) (v v' : vm_state) : Prop := {
  loaded_fields : entry_fields page v' = Ret (PAGE_RESIDENT, 0, 0, PAGEPERM_NONE);
  loaded_bytes : os_maps (os v') !! page_start v page
                 = Some (Mapping PROT_NONE (swap_slot page (os_file (os v'))));
  loaded_kept : forall pg, pg ∈ kept ->
    page_table v' !! pg = page_table v !! pg /\
    os_maps (os v') !! page_start v pg = os_maps (os v) !! page_start v pg;
  loaded_faults : get_num_faults v' = wrap32 (get_num_faults v + 1);
  loaded_loads : get_num_loads v' = wrap32 (get_num_loads v + 1)
}.

(** The fields of an entry after an access fault on its page: permission
    NONE becomes READ and the page is marked accessed, READ becomes RDWR
    and the page is marked dirty, anything else stays. *)
Definition raised (f : Z * Z * Z * Z) : Z * Z * Z * Z :=
  let '(r, a, d, p) := f in
  if p =? PAGEPERM_NONE then (r, PAGE_ACCESSED, d, PAGEPERM_READ)
  else if p =? PAGEPERM_READ then (r, a, PAGE_DIRTY, PAGEPERM_RDWR)
  else (r, a, d, p).

(** What serving an access fault on [page] leaves alone: the other
    entries, the bytes of every mapping, the swap file and the counts of
    resident pages and of loads; one fault has been counted. *)
Record access_served (page : page_t) (v v' : vm_state) : Prop := {
  access_entries : forall pg, pg <> page -> page_table v' !! pg = page_table v !! pg;
  access_bytes : forall x, m_data <$> os_maps (os v') !! x = m_data <$> os_maps (os v) !! x;
  access_file : os_file (os v') = os_file (os v);
  access_resident : num_resident v' = num_resident v;
  access_loads : get_num_loads v' = get_num_loads v;
  access_faults : get_num_faults v' = wrap32 (get_num_faults v + 1)
}.

(** Whether the resident bit of a page is set. *)
Definition residentb (v : vm_state) (pg : page_t) : bool :=
  match page_table v !! pg with
  | Some e => negb (Z.land e PAGE_RESIDENT =? 0)
  | None => false
  end.

(** Whether an address lies in the pool. *)
Definition in_pool (v : vm_state) (addr : Z) : bool :=
  (vmem_start v <=? addr) && (addr <? vmem_end v).

(** The events the host can cause in a state whose queue is [q], and the
    queue after each: a fault at an address of the pool, with code MAPERR
    for a page that is not resident ([malloc] then giving a node that is
    not in use once room has been made), with code ACCERR for a page that
    is; and a tick, after which the queue is [ticked v q]. *)
Definition faithful (ticked : vm_state -> nodes -> option nodes)
    (e : event) (v : vm_state) (q : nodes) : option nodes :=
  match e with
  | Tick => ticked v q
  | Fault alloc addr code =>
      let page := page_of v addr in
      if negb (in_pool v addr) then None
      else if code =? SEGV_MAPERR then
        match alloc with
        | Some a =>
            if negb (residentb v page) && bool_decide (a ∉ (room_made v q).*1)
            then Some (room_made v q ++ [(a, page)])
            else None
        | None => None
        end
      else if code =? SEGV_ACCERR then
        if residentb v page then Some q else None
      else None
  end.

(** A run of such events from [s], which leaves the queue [q']: each event
    can happen in the state the handlers have reached so far. *)
Fixpoint faithful_run {P : Policy} (ticked : vm_state -> nodes -> option nodes)
    (es : list event) (s : sys) (q q' : nodes) : Prop :=
  match es with
  | [] => q' = q
  | e :: es =>
      exists q1, faithful ticked e (vm s) q = Some q1 /\
                 forall s1, handle e s = Ret s1 -> faithful_run ticked es s1 q1 q'
  end.

(** The FIFO tick leaves the queue alone. *)
Definition fifo_ticked (v : vm_state) (q : nodes) : option nodes := Some q.

(** [tail_rule], decided. *)
Definition tail_ruleb (q : nodes) (v : vm_state) : bool :=
  match reverse q with
  | [] => true
  | x :: front => negb (accessedb v x.2) || existsb (fun y => accessedb v y.2) front
  end.

(** The queue after a CLOCK/LRU tick: untouched below two nodes, otherwise
    the nodes whose pages were not accessed followed by those whose pages
    were.  A tick that finds the page of the last node accessed and no
    other is left out: it ties that node to itself. *)
Definition clru_ticked (v : vm_state) (q : nodes) : option nodes :=
  if (length q <? 2)%nat then Some q
  else if tail_ruleb q v then
    Some (List.filter (fun x => negb (accessedb v x.2)) q ++
          List.filter (fun x => accessedb v x.2) q)
  else None.

(** What a timer tick leaves alone besides what [ages] says: the swap file
    and its offset, and which addresses are mapped with which bytes. *)
Record quiet (v v' : vm_state) : Prop := {
  quiet_file : os_file (os v') = os_file (os v);
  quiet_pos : os_pos (os v') = os_pos (os v);
  quiet_bytes : forall x, m_data <$> os_maps (os v') !! x = m_data <$> os_maps (os v) !! x
}.

(** [faithful_run], checked by running the handlers. *)
Fixpoint faithful_runb {P : Policy} (ticked : vm_state -> nodes -> option nodes)
    (es : list event) (s : sys) (q q' : nodes) : bool :=
  match es with
  | [] => bool_decide (q' = q)
  | e :: es =>
      match faithful ticked e (vm s) q with
      | None => false
      | Some q1 =>
          match handle e s with
          | Ret s1 => faithful_runb ticked es s1 q1 q'
          | Stop _ => true
          end
      end
  end.

End PagerVocabulary.

(** ** A small build *)

(** Two-byte pages and a pool of three, for running examples whose states
    stay small. *)
Definition tiny_config : config := {|
  PAGE_SIZE := 2;
  NUM_PAGES := 3;
  PAGEPERM_NONE := 0;
  PAGEPERM_READ := 1;
  PAGEPERM_RDWR := 3;
  PAGEPERM_MASK := 3;
  PAGE_RESIDENT := 4;
  PAGE_ACCESSED := 8;
  PAGE_DIRTY := 16
|}.

(** The small build initialised for [max] resident pages and then run on
    [es], under each policy. *)
Definition tiny_fifo (max : Z) (es : list event) : outcome (@sys fifo_policy) :=
  s ← @vmem_init tiny_config fifo_policy all_ok max (@boot tiny_config fifo_policy);
  @run tiny_config fifo_policy es s.

Definition tiny_clru (max : Z) (es : list event) : outcome (@sys (@clru_policy tiny_config)) :=
  s ← @vmem_init tiny_config (@clru_policy tiny_config) all_ok max
        (@boot tiny_config (@clru_policy tiny_config));
  @run tiny_config (@clru_policy tiny_config) es s.

(** The first byte of page [n] of the small build. *)
Definition tiny_addr (n : nat) : Z := @page_addr tiny_config n.

(** Page 0 is loaded. *)
Definition load_page0 : list event :=
  [Fault (Some 1%nat) (tiny_addr 0) SEGV_MAPERR].

(** Page 0 is loaded, then read and written at its second byte; the timer
    ticks; a fault on the last byte of page 1 follows. *)
Definition evict_written_page : list event :=
  [Fault (Some 1%nat) (tiny_addr 0) SEGV_MAPERR;
   Fault None (tiny_addr 0 + 1) SEGV_ACCERR;
   Fault None (tiny_addr 0 + 1) SEGV_ACCERR;
   Tick;
   Fault (Some 1%nat) (tiny_addr 1 + 1) SEGV_MAPERR].

(** Pages 0 and 1 are loaded and page 0 is read. *)
Definition read_first_of_two : list event :=
  [Fault (Some 1%nat) (tiny_addr 0) SEGV_MAPERR;
   Fault (Some 2%nat) (tiny_addr 1) SEGV_MAPERR;
   Fault None (tiny_addr 0) SEGV_ACCERR].



(** The example build under CLOCK/LRU with room for one page: page 0 is
    resident, written to and holding 0xAB in every byte, and the queue has
    its one node at address 1. *)
Definition clru_one_dirty_page : @sys (@clru_policy example_config) :=
  @Sys (@clru_policy example_config) one_dirty_page
    (CLRU.Pol (Some (CLRU.Loaded 1 1 (Some 1%nat) (Some 1%nat)))
              {[ 1%nat := CLRU.Node 0%nat None None ]}).


(** * Properties *)

Lemma example_config_ok : config_ok example_config.
Proof. split; cbn; try reflexivity; try lia; discriminate. Qed.

(** ** Reasoning about outcomes *)

Lemma bind_Ret {A B} (m : outcome A) (k : A -> outcome B) (b : B) :
  m ≫= k = Ret b -> exists a, m = Ret a /\ k a = Ret b.
Proof. destruct m as [a|f]; cbn; [eauto | discriminate]. Qed.

Lemma assert_Ret (b : bool) (u : unit) : assert b = Ret u -> b = true.
Proof. destruct b; [reflexivity | discriminate]. Qed.

Lemma assert_true (b : bool) : b = true -> assert b = Ret tt.
Proof. intros ->. reflexivity. Qed.

(** Take a hypothesis [H : c = Ret r] apart along the structure of [c]. *)
Ltac inv_ret H :=
  lazymatch type of H with
  | Ret _ = Ret _ => injection H as H; try subst
  | Stop _ = Ret _ => discriminate H
  | assert _ = Ret _ => apply assert_Ret in H
  | (_ ≫= _) = Ret _ =>
      let a := fresh "a" in
      let H1 := fresh H "a" in
      let H2 := fresh H "k" in
      apply bind_Ret in H; destruct H as (a & H1 & H2);
      inv_ret H1; inv_ret H2
  | (if ?b then _ else _) = Ret _ =>
      let E := fresh "E" in
      destruct b eqn:E; inv_ret H
  | (let '(_, _) := ?p in _) = Ret _ =>
      let E := fresh "E" in
      destruct p eqn:E; inv_ret H
  | (match ?o with Some _ => _ | None => _ end) = Ret _ =>
      let E := fresh "E" in
      destruct o eqn:E; inv_ret H
  | _ => idtac
  end.

(** Write the two powers of two of the integer types as numbers. *)
Ltac pow2 :=
  change (2 ^ 32) with 4294967296 in *;
  change (2 ^ 31) with 2147483648 in *.

(** Run the monad's plumbing, and nothing else. *)
Ltac osimpl := cbn [mbind outcome_bind mret outcome_ret assert fst snd].

(** ** Bit operations on page-table entries *)

Lemma land_lor_same (e m : Z) : m <> 0 -> Z.land (Z.lor e m) m <> 0.
Proof.
  intros Hm. rewrite Z.land_lor_distr_l, Z.land_diag.
  intros H. apply Z.lor_eq_0_iff in H. tauto.
Qed.

Lemma land_lor_other (e m m' : Z) : Z.land m' m = 0 -> Z.land (Z.lor e m') m = Z.land e m.
Proof. intros H. rewrite Z.land_lor_distr_l, H. apply Z.lor_0_r. Qed.

Lemma land_lnot_disjoint (m m' : Z) : Z.land m m' = 0 -> Z.land (Z.lnot m) m' = m'.
Proof.
  intros H. apply Z.bits_inj'. intros n Hn.
  rewrite Z.land_spec, Z.lnot_spec by assumption.
  assert (Hb : Z.testbit (Z.land m m') n = false) by (rewrite H; apply Z.bits_0).
  rewrite Z.land_spec in Hb.
  destruct (Z.testbit m n), (Z.testbit m' n); cbn in *; congruence.
Qed.

Lemma land_clear_same (e m : Z) : Z.land (Z.land e (Z.lnot m)) m = 0.
Proof.
  rewrite <- Z.land_assoc, (Z.land_comm (Z.lnot m)), Z.land_lnot_diag.
  apply Z.land_0_r.
Qed.

Lemma land_clear_other (e m m' : Z) :
  Z.land m m' = 0 -> Z.land (Z.land e (Z.lnot m)) m' = Z.land e m'.
Proof. intros H. rewrite <- Z.land_assoc, land_lnot_disjoint by assumption. reflexivity. Qed.

Lemma land_subset_disjoint (p m f : Z) :
  Z.land p m = p -> Z.land f m = 0 -> Z.land p f = 0.
Proof.
  intros Hp Hf. rewrite <- Hp, <- Z.land_assoc, (Z.land_comm m), Hf.
  apply Z.land_0_r.
Qed.

Lemma with_perm_perm `{config} (e perm : Z) :
  Z.land perm PAGEPERM_MASK = perm -> Z.land (with_perm e perm) PAGEPERM_MASK = perm.
Proof.
  intros Hp. unfold with_perm.
  rewrite Z.land_lor_distr_l, land_clear_same, Hp. reflexivity.
Qed.

Lemma with_perm_flag `{config} (e perm f : Z) :
  Z.land perm PAGEPERM_MASK = perm -> Z.land f PAGEPERM_MASK = 0 ->
  Z.land (with_perm e perm) f = Z.land e f.
Proof.
  intros Hp Hf. unfold with_perm.
  rewrite Z.land_lor_distr_l, (land_subset_disjoint perm PAGEPERM_MASK f Hp Hf), Z.lor_0_r.
  apply land_clear_other. rewrite Z.land_comm. assumption.
Qed.

Section Entries.
Context `{cfg : config} {Hok : config_ok cfg}.

Lemma valid_perm_cases (perm : Z) :
  valid_perm perm = true ->
  perm = PAGEPERM_NONE \/ perm = PAGEPERM_READ \/ perm = PAGEPERM_RDWR.
Proof. unfold valid_perm. lia. Qed.

Lemma valid_perm_in_mask (perm : Z) :
  valid_perm perm = true -> Z.land perm PAGEPERM_MASK = perm.
Proof.
  intros H. destruct (valid_perm_cases perm H) as [-> | [-> | ->]].
  - apply none_in_mask.
  - apply read_in_mask.
  - apply rdwr_in_mask.
Qed.

Lemma valid_perm_none : valid_perm PAGEPERM_NONE = true.
Proof. unfold valid_perm. rewrite Z.eqb_refl. reflexivity. Qed.

Lemma valid_perm_read : valid_perm PAGEPERM_READ = true.
Proof. unfold valid_perm. rewrite (Z.eqb_refl PAGEPERM_READ), orb_true_r. reflexivity. Qed.

Lemma valid_perm_rdwr : valid_perm PAGEPERM_RDWR = true.
Proof. unfold valid_perm. rewrite (Z.eqb_refl PAGEPERM_RDWR), orb_true_r. reflexivity. Qed.

Lemma pageperm_to_mmap_valid (perm : Z) :
  valid_perm perm = true -> exists prot, pageperm_to_mmap perm = Ret prot.
Proof.
  intros H. unfold pageperm_to_mmap. rewrite H. cbn.
  apply valid_perm_cases in H.
  destruct (Z.eqb_spec perm PAGEPERM_NONE); [eauto |].
  destruct (Z.eqb_spec perm PAGEPERM_READ); [eauto |].
  destruct (Z.eqb_spec perm PAGEPERM_RDWR); [eauto |].
  tauto.
Qed.

(** Reading and writing one entry. *)
Lemma pte_Ret (page : page_t) (v : vm_state) (e : Z) :
  pte page v = Ret e <-> (page < NUM_PAGES)%nat /\ page_table v !! page = Some e.
Proof.
  unfold pte. destruct (Nat.ltb_spec page NUM_PAGES) as [Hlt | Hge]; cbn.
  - destruct (page_table v !! page); split; intros; try discriminate;
      intuition congruence.
  - split; [discriminate | lia].
Qed.

Lemma set_pte_Ret (page : page_t) (e : Z) (v v' : vm_state) :
  set_pte page e v = Ret v' <->
  (page < NUM_PAGES)%nat /\ is_Some (page_table v !! page) /\
  v' = set_page_table (<[page := e]> (page_table v)) v.
Proof.
  unfold set_pte. destruct (Nat.ltb_spec page NUM_PAGES) as [Hlt | Hge]; cbn.
  - destruct (page_table v !! page) eqn:E; split.
    + intros [= <-]. eauto.
    + intros (_ & _ & ->). reflexivity.
    + discriminate.
    + intros (_ & [x Hx] & _). discriminate.
  - split; [discriminate | lia].
Qed.

End Entries.

(** ** What the page-table helpers do when they return *)

Section Helpers.
Context `{cfg : config} {Hok : config_ok cfg}.

Lemma query_Ret (f : Z -> Z) (page : page_t) (v : vm_state) (r : Z) :
  (e ← pte page v; Ret (f e)) = Ret r <->
  (page < NUM_PAGES)%nat /\ exists e, page_table v !! page = Some e /\ r = f e.
Proof.
  split.
  - intros H. inv_ret H. apply pte_Ret in Ha as [? ?]. eauto.
  - intros (Hlt & e & He & ->).
    assert (Hp : pte page v = Ret e) by (apply pte_Ret; auto).
    rewrite Hp. reflexivity.
Qed.

Lemma update_Ret (f : Z -> Z) (page : page_t) (v v' : vm_state) :
  (e ← pte page v; set_pte page (f e) v) = Ret v' <->
  (page < NUM_PAGES)%nat /\
  exists e, page_table v !! page = Some e /\
            v' = set_page_table (<[page := f e]> (page_table v)) v.
Proof.
  split.
  - intros H. inv_ret H. apply pte_Ret in Ha as [? ?].
    apply set_pte_Ret in Hk as (_ & _ & ->). eauto.
  - intros (Hlt & e & He & ->).
    assert (Hp : pte page v = Ret e) by (apply pte_Ret; auto).
    rewrite Hp. cbn. apply set_pte_Ret. eauto.
Qed.

Lemma is_page_resident_Ret page v r :
  is_page_resident page v = Ret r <->
  (page < NUM_PAGES)%nat /\
  exists e, page_table v !! page = Some e /\ r = Z.land e PAGE_RESIDENT.
Proof. apply (query_Ret (fun e => Z.land e PAGE_RESIDENT)). Qed.

Lemma is_page_accessed_Ret page v r :
  is_page_accessed page v = Ret r <->
  (page < NUM_PAGES)%nat /\
  exists e, page_table v !! page = Some e /\ r = Z.land e PAGE_ACCESSED.
Proof. apply (query_Ret (fun e => Z.land e PAGE_ACCESSED)). Qed.

Lemma is_page_dirty_Ret page v r :
  is_page_dirty page v = Ret r <->
  (page < NUM_PAGES)%nat /\
  exists e, page_table v !! page = Some e /\ r = Z.land e PAGE_DIRTY.
Proof. apply (query_Ret (fun e => Z.land e PAGE_DIRTY)). Qed.

Lemma get_page_permission_Ret page v r :
  get_page_permission page v = Ret r <->
  (page < NUM_PAGES)%nat /\
  exists e, page_table v !! page = Some e /\ r = Z.land e PAGEPERM_MASK.
Proof. apply (query_Ret (fun e => Z.land e PAGEPERM_MASK)). Qed.

Lemma set_page_resident_Ret page v v' :
  set_page_resident page v = Ret v' <->
  (page < NUM_PAGES)%nat /\
  exists e, page_table v !! page = Some e /\
            v' = set_page_table (<[page := Z.lor e PAGE_RESIDENT]> (page_table v)) v.
Proof. apply (update_Ret (fun e => Z.lor e PAGE_RESIDENT)). Qed.

Lemma set_page_accessed_Ret page v v' :
  set_page_accessed page v = Ret v' <->
  (page < NUM_PAGES)%nat /\
  exists e, page_table v !! page = Some e /\
            v' = set_page_table (<[page := Z.lor e PAGE_ACCESSED]> (page_table v)) v.
Proof. apply (update_Ret (fun e => Z.lor e PAGE_ACCESSED)). Qed.

Lemma clear_page_accessed_Ret page v v' :
  clear_page_accessed page v = Ret v' <->
  (page < NUM_PAGES)%nat /\
  exists e, page_table v !! page = Some e /\
            v' = set_page_table
                   (<[page := Z.land e (Z.lnot PAGE_ACCESSED)]> (page_table v)) v.
Proof. apply (update_Ret (fun e => Z.land e (Z.lnot PAGE_ACCESSED))). Qed.

Lemma set_page_dirty_Ret page v v' :
  set_page_dirty page v = Ret v' <->
  (page < NUM_PAGES)%nat /\
  exists e, page_table v !! page = Some e /\
            v' = set_page_table (<[page := Z.lor e PAGE_DIRTY]> (page_table v)) v.
Proof. apply (update_Ret (fun e => Z.lor e PAGE_DIRTY)). Qed.

Lemma set_page_permission_Ret page perm v v' :
  set_page_permission page perm v = Ret v' <->
  (page < NUM_PAGES)%nat /\ valid_perm perm = true /\
  exists e m prot,
    page_table v !! page = Some e /\
    os_maps (os v) !! (vmem_start v + Z.of_nat (page * PAGE_SIZE)) = Some m /\
    pageperm_to_mmap perm = Ret prot /\
    v' = protected page perm prot e m v.
Proof.
  unfold set_page_permission, page_to_addr, os_mprotect. split.
  - intros H. inv_ret H.
    match goal with H : (_ <? _)%nat = true |- _ => apply Nat.ltb_lt in H end.
    split; [assumption |]. split; [assumption |].
    destruct (os_maps (os v) !! _) as [m|] eqn:Em; injection E as <- <-;
      [| discriminate].
    match goal with H : pte _ _ = Ret _ |- _ => apply pte_Ret in H as [_ He] end.
    match goal with H : set_pte _ _ _ = Ret _ |- _ =>
      apply set_pte_Ret in H as (_ & _ & ->) end.
    cbn in He. eauto 10.
  - intros (Hlt & Hv & e & m & prot & He & Hm & Hp & ->).
    assert (Hpte : pte page v = Ret e) by (apply pte_Ret; auto).
    apply Nat.ltb_lt in Hlt. rewrite Hlt, Hv. osimpl.
    rewrite Hp. osimpl. rewrite Hm. osimpl.
    change (pte page (set_os ?o v)) with (pte page v). rewrite Hpte. osimpl.
    apply set_pte_Ret. apply Nat.ltb_lt in Hlt. cbn. eauto.
Qed.

Lemma pte_eq page v e :
  (page < NUM_PAGES)%nat -> page_table v !! page = Some e -> pte page v = Ret e.
Proof. intros. apply pte_Ret. auto. Qed.

Lemma set_pte_eq page e v :
  (page < NUM_PAGES)%nat -> (page < length (page_table v))%nat ->
  set_pte page e v = Ret (set_page_table (<[page := e]> (page_table v)) v).
Proof. intros ? Hl. apply set_pte_Ret. apply lookup_lt_is_Some in Hl. auto. Qed.

Lemma is_page_resident_eq page v e :
  (page < NUM_PAGES)%nat -> page_table v !! page = Some e ->
  is_page_resident page v = Ret (Z.land e PAGE_RESIDENT).
Proof. intros. apply is_page_resident_Ret. eauto. Qed.

Lemma is_page_accessed_eq page v e :
  (page < NUM_PAGES)%nat -> page_table v !! page = Some e ->
  is_page_accessed page v = Ret (Z.land e PAGE_ACCESSED).
Proof. intros. apply is_page_accessed_Ret. eauto. Qed.

Lemma is_page_dirty_eq page v e :
  (page < NUM_PAGES)%nat -> page_table v !! page = Some e ->
  is_page_dirty page v = Ret (Z.land e PAGE_DIRTY).
Proof. intros. apply is_page_dirty_Ret. eauto. Qed.

Lemma get_page_permission_eq page v e :
  (page < NUM_PAGES)%nat -> page_table v !! page = Some e ->
  get_page_permission page v = Ret (Z.land e PAGEPERM_MASK).
Proof. intros. apply get_page_permission_Ret. eauto. Qed.

Lemma set_page_permission_eq page perm prot v e m :
  (page < NUM_PAGES)%nat -> valid_perm perm = true ->
  page_table v !! page = Some e ->
  os_maps (os v) !! (vmem_start v + Z.of_nat (page * PAGE_SIZE)) = Some m ->
  pageperm_to_mmap perm = Ret prot ->
  set_page_permission page perm v = Ret (protected page perm prot e m v).
Proof. intros. apply set_page_permission_Ret. eauto 10. Qed.

End Helpers.

(** ** Access faults on a page that is already read-write *)

Section AccessFaults.
Context `{cfg : config} {Hok : config_ok cfg} {P : Policy}.

(** The two tests on the permission both fail, there is no third branch,
    and the handler returns having counted the fault. *)
Lemma sigsegv_accerr_rdwr (alloc : ptr) (addr : Z) (s : sys) (e : Z) :
  let page := Z.to_nat ((addr - vmem_start (vm s)) / Z.of_nat PAGE_SIZE) in
  vmem_start (vm s) <= addr < vmem_end (vm s) ->
  (page < NUM_PAGES)%nat ->
  page_table (vm s) !! page = Some e ->
  Z.land e PAGE_RESIDENT <> 0 ->
  Z.land e PAGEPERM_MASK = PAGEPERM_RDWR ->
  sigsegv_handler alloc addr SEGV_ACCERR s =
    Ret (Sys (set_num_faults (wrap32 (num_faults (vm s) + 1)) (vm s)) (ps s)).
Proof.
  intros page Hrange Hlt He Hres Hperm. unfold sigsegv_handler.
  destruct (Z.ltb_spec addr (vmem_start (vm s))); [lia |].
  destruct (Z.geb_spec addr (vmem_end (vm s))); [lia |].
  cbn [orb vm ps]. unfold addr_to_page.
  change (vmem_start (set_num_faults ?n ?v)) with (vmem_start v).
  change (vmem_end (set_num_faults ?n ?v)) with (vmem_end v).
  destruct (Z.geb_spec addr (vmem_start (vm s))); [| lia].
  destruct (Z.ltb_spec addr (vmem_end (vm s))); [| lia].
  osimpl. fold page.
  apply Nat.ltb_lt in Hlt as Hb. rewrite Hb. osimpl.
  change (SEGV_ACCERR =? SEGV_MAPERR) with false.
  change (SEGV_ACCERR =? SEGV_ACCERR) with true.
  cbn [orb]. osimpl. cbn [vm ps].
  set (v := set_num_faults _ (vm s)).
  assert (Hr : is_page_resident page v = Ret (Z.land e PAGE_RESIDENT))
    by (apply is_page_resident_Ret; eauto).
  assert (Hp : get_page_permission page v = Ret PAGEPERM_RDWR)
    by (apply get_page_permission_Ret; eauto).
  rewrite Hr. osimpl.
  destruct (Z.eqb_spec (Z.land e PAGE_RESIDENT) 0); [tauto |]. osimpl.
  rewrite Hp. osimpl.
  destruct (Z.eqb_spec PAGEPERM_RDWR PAGEPERM_NONE) as [E | _];
    [symmetry in E; destruct (none_rdwr E) |].
  destruct (Z.eqb_spec PAGEPERM_RDWR PAGEPERM_READ) as [E | _];
    [symmetry in E; destruct (read_rdwr E) |].
  reflexivity.
Qed.

End AccessFaults.

(** ** Runs of the example build *)

(** C6: an access-forbidden fault on a page whose permission is RDWR should
    be fatal.  Here page 0 has been loaded, read and written, so its entry
    is dirty, accessed, resident and RDWR (31); a further access-forbidden
    fault on it makes the handler return normally, with the page table as
    it was and only [num_faults] advanced from 3 to 4. *)
Theorem accerr_on_rdwr_page_returns :
  observe (s ← fifo_init 1; fifo_run load_read_write_page0 s)
    = Some (1, 3, 1, [31; 0; 0; 0; 0; 0; 0; 0]) /\
  observe (s ← fifo_init 1;
           fifo_run (load_read_write_page0 ++
                     [Fault None (@page_addr example_config 0) SEGV_ACCERR]) s)
    = Some (1, 4, 1, [31; 0; 0; 0; 0; 0; 0; 0]).
Proof. split; vm_compute; reflexivity. Qed.

(** C7: [vmem_init] should leave all three counters at 0.  After one page
    has been loaded ([num_loads = 1]), initialising again resets
    [num_resident], [num_faults] and the page table, but [num_loads] is
    still 1. *)
Theorem vmem_init_keeps_num_loads :
  observe (s ← fifo_init 1;
           fifo_run [Fault (Some 1%nat) (@page_addr example_config 0) SEGV_MAPERR] s)
    = Some (1, 1, 1, [4; 0; 0; 0; 0; 0; 0; 0]) /\
  observe (s ← fifo_init 1;
           s ← fifo_run [Fault (Some 1%nat) (@page_addr example_config 0) SEGV_MAPERR] s;
           @vmem_init example_config fifo_policy all_ok 1 s)
    = Some (0, 0, 1, [0; 0; 0; 0; 0; 0; 0; 0]).
Proof. split; vm_compute; reflexivity. Qed.

(** ** The swap file *)

Section Swap.
Context `{cfg : config}.

Lemma swap_slot_file_write (page : page_t) (data f : list Byte.byte) :
  length data = PAGE_SIZE ->
  swap_slot page (file_write (page * PAGE_SIZE) data f) = data.
Proof.
  intros Hlen. unfold swap_slot, file_write.
  rewrite app_assoc, drop_app_length'.
  - rewrite take_app_length' by (symmetry; assumption). reflexivity.
  - rewrite length_app, length_take. unfold zeros. rewrite length_replicate. lia.
Qed.

Lemma swap_slot_length (page : page_t) (f : list Byte.byte) :
  ((page + 1) * PAGE_SIZE <= length f)%nat ->
  length (swap_slot page f) = PAGE_SIZE.
Proof. intros H. unfold swap_slot. rewrite length_take, length_drop. lia. Qed.

End Swap.

(** ** Evicting a page: [unmap_page] *)

Section Unmap.
Context `{cfg : config} {Hok : config_ok cfg} {P : Policy}.

Lemma pageperm_to_mmap_read : pageperm_to_mmap PAGEPERM_READ = Ret PROT_READ.
Proof.
  unfold pageperm_to_mmap. rewrite valid_perm_read. osimpl.
  destruct (Z.eqb_spec PAGEPERM_READ PAGEPERM_NONE) as [E | _];
    [symmetry in E; destruct (none_read E) |].
  rewrite Z.eqb_refl. reflexivity.
Qed.

Lemma pageperm_to_mmap_none : pageperm_to_mmap PAGEPERM_NONE = Ret PROT_NONE.
Proof.
  unfold pageperm_to_mmap. rewrite valid_perm_none. osimpl.
  rewrite Z.eqb_refl. reflexivity.
Qed.

Lemma unmap_page_returns (page : page_t) (v : vm_state) (e : Z) (m : mapping) :
  (page < NUM_PAGES)%nat ->
  0 < num_resident v ->
  page_table v !! page = Some e ->
  Z.land e PAGE_RESIDENT <> 0 ->
  os_maps (os v) !! (vmem_start v + Z.of_nat (page * PAGE_SIZE)) = Some m ->
  length (m_data m) = PAGE_SIZE ->
  unmap_page page v = Ret (unmapped page (negb (Z.land e PAGE_DIRTY =? 0)) m v).
Proof.
  intros Hlt Hnum He Hres Hm Hlen. unfold unmap_page.
  pose proof (lookup_lt_Some _ _ _ He) as Hlen_pt.
  apply Nat.ltb_lt in Hlt as Hb. rewrite Hb. osimpl.
  destruct (Z.gtb_spec (num_resident v) 0); [| lia]. osimpl.
  rewrite (is_page_resident_eq page v e) by assumption. osimpl.
  destruct (Z.eqb_spec (Z.land e PAGE_RESIDENT) 0); [tauto |].
  cbn [negb]. osimpl. unfold page_to_addr. rewrite Hb. osimpl.
  rewrite (is_page_dirty_eq page v e) by assumption. osimpl.
  set (addr := vmem_start v + Z.of_nat (page * PAGE_SIZE)) in *.
  destruct (Z.eqb_spec (Z.land e PAGE_DIRTY) 0) as [Hd | Hd]; cbn [negb]; osimpl.
  - unfold os_munmap, clear_page_entry. cbn [set_os os].
    change (0 =? -1) with false. cbn iota.
    rewrite set_pte_eq by assumption. osimpl.
    rewrite (is_page_resident_eq page _ 0);
      [| assumption | apply list_lookup_insert_eq; assumption].
    reflexivity.
  - rewrite (set_page_permission_eq page PAGEPERM_READ PROT_READ v e m);
      auto using valid_perm_read, pageperm_to_mmap_read.
    osimpl. unfold os_lseek, os_write, os_munmap, clear_page_entry.
    cbn [protected set_os os os_maps os_file os_pos os_trace].
    fold addr. rewrite lookup_insert_eq.
    change (readable _) with true. cbn iota.
    cbn [m_data]. rewrite take_ge by lia. rewrite Hlen.
    destruct (Z.eqb_spec (Z.of_nat (page * PAGE_SIZE)) (-1)); [lia |].
    destruct (Z.eqb_spec (Z.of_nat PAGE_SIZE) (-1)); [lia |].
    rewrite Z.eqb_refl. cbn [negb]. osimpl.
    change (0 =? -1) with false. cbn iota.
    rewrite set_pte_eq; [| assumption | cbn; rewrite length_insert; assumption].
    osimpl.
    rewrite (is_page_resident_eq page _ 0);
      [| assumption
       | cbn; apply list_lookup_insert_eq; rewrite length_insert; assumption].
    osimpl. unfold unmapped, set_num_resident, set_page_table. cbn.
    rewrite list_insert_insert_eq, delete_insert_eq. reflexivity.
Qed.

End Unmap.

(** ** Loading a page: [map_page] *)

Section Map.
Context `{cfg : config} {Hok : config_ok cfg} {P : Policy}.

Lemma map_page_Ret (alloc : ptr) (page : page_t) (perm : Z) (s s' : sys) :
  map_page alloc page perm s = Ret s' ->
  exists e prot,
    (page < NUM_PAGES)%nat /\ valid_perm perm = true /\
    page_table (vm s) !! page = Some e /\ Z.land e PAGE_RESIDENT = 0 /\
    wrap32 (num_resident (vm s) + 1) <= max_resident (vm s) /\
    length (swap_slot page (os_file (os (vm s)))) = PAGE_SIZE /\
    pageperm_to_mmap perm = Ret prot /\
    policy_page_mapped alloc page (ps s) = Ret (ps s') /\
    vm s' = mapped page perm prot (vm s).
Proof.
  unfold map_page. intros H. inv_ret H.
  match goal with H : is_page_resident page (vm s) = Ret _ |- _ =>
    apply is_page_resident_Ret in H as (Hlt & e & He & ->) end.
  pose proof (lookup_lt_Some _ _ _ He) as Hlen_pt.
  match goal with H : page_to_addr _ _ = Ret _ |- _ =>
    unfold page_to_addr in H; inv_ret H end.
  match goal with H : os_mmap _ _ _ _ = _ |- _ =>
    unfold os_mmap in H; injection H as <- <- end.
  match goal with H : os_lseek _ _ = _ |- _ =>
    unfold os_lseek in H; injection H as <- <- end.
  cbn [os set_os set_num_resident vmem_start os_maps os_file os_pos os_trace] in *.
  set (addr := vmem_start (vm s) + Z.of_nat (page * PAGE_SIZE)) in *.
  match goal with H : os_read _ _ _ = _ |- _ =>
    unfold os_read in H; cbn [os_maps os_file os_pos os_trace] in H;
    rewrite lookup_insert_eq in H;
    change (writable _) with true in H; cbn iota in H;
    fold (swap_slot page (os_file (os (vm s)))) in H;
    injection H as <- <- end.
  match goal with H : negb (Z.of_nat _ =? _) = false |- _ =>
    apply negb_false_iff, Z.eqb_eq, Nat2Z.inj in H; rename H into Hslot end.
  match goal with H : set_pte _ _ _ = Ret _ |- _ =>
    apply set_pte_Ret in H as (_ & _ & ->) end.
  match goal with H : set_page_resident _ _ = Ret _ |- _ =>
    apply set_page_resident_Ret in H as (_ & e1 & He1 & ->) end.
  match goal with H : set_page_permission _ _ _ = Ret _ |- _ =>
    apply set_page_permission_Ret in H
      as (_ & _ & e2 & m & prot & He2 & Hm & Hprot & ->) end.
  cbn [os set_os set_page_table page_table vmem_start
       os_maps os_file os_pos os_trace] in *.
  fold addr in Hm.
  rewrite list_lookup_insert_eq in He1 by assumption. injection He1 as <-.
  rewrite list_lookup_insert_eq in He2 by (rewrite length_insert; assumption).
  injection He2 as <-.
  rewrite lookup_insert_eq in Hm. injection Hm as <-.
  exists e, prot.
  split; [assumption |]. split; [assumption |]. split; [assumption |].
  split; [lia |]. split; [cbn in E; lia |]. split; [assumption |].
  split; [assumption |]. split; [assumption |].
  unfold mapped, protected, set_num_loads, load_calls. cbn. fold addr.
  rewrite !list_insert_insert_eq, !insert_insert_eq, Hslot.
  unfold zeros. rewrite drop_ge by (rewrite length_replicate; lia).
  rewrite app_nil_r. reflexivity.
Qed.

End Map.

Section UnmapClaims.
Context `{cfg : config} {Hok : config_ok cfg} {P : Policy}.

(** C3: for a resident page whose mapping holds a full page, [unmap_page]
    returns, and it writes the page back exactly when the page is dirty:
    the system calls it makes are, for a dirty page, mprotect to READ,
    lseek to the page's slot, a write of [PAGE_SIZE] bytes and munmap, and
    for a clean page munmap alone; a dirty page's slot then holds the
    page's bytes, while for a clean page the swap file is untouched.  In
    both cases the mapping is gone, the page-table entry is zero and
    [num_resident] is one less. *)
Theorem unmap_page_writes_back_iff_dirty
    (page : page_t) (v : vm_state) (e : Z) (m : mapping) :
  let addr := vmem_start v + Z.of_nat (page * PAGE_SIZE) in
  let dirty := negb (Z.land e PAGE_DIRTY =? 0) in
  (page < NUM_PAGES)%nat ->
  0 < num_resident v < 2 ^ 32 ->
  page_table v !! page = Some e ->
  Z.land e PAGE_RESIDENT <> 0 ->
  os_maps (os v) !! addr = Some m ->
  length (m_data m) = PAGE_SIZE ->
  exists v',
    unmap_page page v = Ret v' /\
    os_trace (os v') =
      SysMunmap addr :: (if dirty then write_back_calls addr page else [])
        ++ os_trace (os v) /\
    swap_slot page (os_file (os v')) =
      (if dirty then m_data m else swap_slot page (os_file (os v))) /\
    (dirty = false -> os_file (os v') = os_file (os v)) /\
    os_maps (os v') !! addr = None /\
    page_table v' !! page = Some 0 /\
    num_resident v' = num_resident v - 1.
Proof.
  intros addr dirty Hlt Hnum He Hres Hm Hlen.
  exists (unmapped page dirty m v).
  split; [apply unmap_page_returns; auto; lia |].
  pose proof (lookup_lt_Some _ _ _ He) as Hlen_pt.
  unfold unmapped. fold addr. cbn [os os_trace os_file os_maps page_table num_resident].
  destruct dirty; cbn [os_trace os_file os_maps].
  - repeat split.
    + apply swap_slot_file_write. assumption.
    + discriminate.
    + apply lookup_delete_eq.
    + apply list_lookup_insert_eq. assumption.
    + unfold wrap32. apply Z.mod_small. lia.
  - repeat split.
    + apply lookup_delete_eq.
    + apply list_lookup_insert_eq. assumption.
    + unfold wrap32. apply Z.mod_small. lia.
Qed.

End UnmapClaims.

Lemma unmap_page_writes_back_iff_dirty_witness :
  exists v',
    @unmap_page example_config 0%nat one_dirty_page = Ret v' /\
    @swap_slot example_config 0%nat (os_file (os v')) =
      replicate (@PAGE_SIZE example_config) Byte.xab /\
    page_table v' !! 0%nat = Some 0 /\
    num_resident v' = 0.
Proof.
  destruct (@unmap_page_writes_back_iff_dirty example_config example_config_ok
              0%nat one_dirty_page 31
              (Mapping 3 (replicate (@PAGE_SIZE example_config) Byte.xab)))
    as (v' & Hret & _ & Hslot & _ & _ & Hpte & Hnum).
  - cbn. lia.
  - cbn. lia.
  - reflexivity.
  - discriminate.
  - apply lookup_singleton_eq.
  - apply length_replicate.
  - exists v'. auto.
Defined.

Lemma returns_Ret {A} (o : outcome A) : returns o = true -> exists a, o = Ret a.
Proof. destruct o; [eauto | discriminate]. Qed.

Section Roundtrip.
Context `{cfg : config} {Hok : config_ok cfg} {P : Policy}.

(** C4: evicting a dirty page and loading it again gives back its bytes.
    [unmap_page] of a resident dirty page holding [m_data m] returns; and
    in any later state whose swap slot for the page still holds what the
    eviction left there, a [map_page] of the page that returns has mapped
    the page with exactly the bytes [m_data m]. *)
Theorem write_back_then_reload_is_identity
    (page : page_t) (v : vm_state) (e : Z) (m : mapping) :
  (page < NUM_PAGES)%nat ->
  0 < num_resident v ->
  page_table v !! page = Some e ->
  Z.land e PAGE_RESIDENT <> 0 ->
  Z.land e PAGE_DIRTY <> 0 ->
  os_maps (os v) !! (vmem_start v + Z.of_nat (page * PAGE_SIZE)) = Some m ->
  length (m_data m) = PAGE_SIZE ->
  exists v1,
    unmap_page page v = Ret v1 /\
    forall (alloc : ptr) (perm : Z) (s1 s2 : sys),
      swap_slot page (os_file (os (vm s1))) = swap_slot page (os_file (os v1)) ->
      map_page alloc page perm s1 = Ret s2 ->
      exists prot,
        os_maps (os (vm s2)) !! (vmem_start (vm s1) + Z.of_nat (page * PAGE_SIZE))
          = Some (Mapping prot (m_data m)).
Proof.
  intros Hlt Hnum He Hres Hdirty Hm Hlen.
  exists (unmapped page true m v). split.
  - rewrite (unmap_page_returns page v e m) by assumption.
    destruct (Z.eqb_spec (Z.land e PAGE_DIRTY) 0); [tauto | reflexivity].
  - intros alloc perm s1 s2 Hslot Hmap.
    apply map_page_Ret in Hmap
      as (e1 & prot & _ & _ & _ & _ & _ & _ & _ & _ & Hvm).
    exists prot. rewrite Hvm. unfold mapped. cbn [os os_maps vmem_start].
    rewrite lookup_insert_eq, Hslot. unfold unmapped. cbn [os os_file].
    rewrite swap_slot_file_write by assumption. reflexivity.
Qed.

End Roundtrip.

Section RoundtripExample.
#[local] Existing Instance example_config.
#[local] Existing Instance example_config_ok.

Lemma write_back_then_reload_is_identity_witness :
  exists (v1 : vm_state) (s2 : @sys fifo_policy),
    unmap_page 0%nat one_dirty_page = Ret v1 /\
    map_page (Some 1%nat) 0%nat PAGEPERM_NONE (@Sys fifo_policy v1 fifo_idle) = Ret s2 /\
    exists prot,
      os_maps (os (vm s2)) !! page_addr 0
        = Some (Mapping prot (replicate PAGE_SIZE Byte.xab)).
Proof.
  destruct (write_back_then_reload_is_identity (P := fifo_policy)
              0%nat one_dirty_page 31 (Mapping 3 (replicate PAGE_SIZE Byte.xab)))
    as (v1 & Hunmap & Hreload).
  - cbn. lia.
  - cbn. lia.
  - reflexivity.
  - discriminate.
  - discriminate.
  - apply lookup_singleton_eq.
  - apply length_replicate.
  - assert (Hv1 : v1 = unmapped 0%nat true
                         (Mapping 3 (replicate PAGE_SIZE Byte.xab)) one_dirty_page).
    { rewrite (unmap_page_returns 0%nat one_dirty_page 31
                 (Mapping 3 (replicate PAGE_SIZE Byte.xab))) in Hunmap.
      - injection Hunmap as <-. reflexivity.
      - cbn. lia.
      - cbn. lia.
      - reflexivity.
      - discriminate.
      - apply lookup_singleton_eq.
      - apply length_replicate. }
    destruct (returns_Ret
                (map_page (Some 1%nat) 0%nat PAGEPERM_NONE
                   (@Sys fifo_policy v1 fifo_idle)))
      as (s2 & Hs2).
    { rewrite Hv1. vm_compute. reflexivity. }
    exists v1, s2. split; [assumption |]. split; [assumption |].
    destruct (Hreload (Some 1%nat) PAGEPERM_NONE (@Sys fifo_policy v1 fifo_idle) s2)
      as (prot & Hprot); [reflexivity | assumption |].
    exists prot. rewrite Hv1 in Hprot. exact Hprot.
Defined.

End RoundtripExample.

(** ** What the handlers do to the pager's state *)

Section Inversion.
Context `{cfg : config} {Hok : config_ok cfg} {P : Policy}.

Lemma unmap_page_Ret (page : page_t) (v v' : vm_state) :
  unmap_page page v = Ret v' ->
  exists e o',
    (page < NUM_PAGES)%nat /\ page_table v !! page = Some e /\
    Z.land e PAGE_RESIDENT <> 0 /\ 0 < num_resident v /\
    loads_done (os_trace o') = loads_done (os_trace (os v)) /\
    v' = VM (vmem_start v) (vmem_end v) (wrap32 (num_resident v - 1))
            (max_resident v) (num_faults v) (num_loads v)
            (<[page := 0]> (page_table v)) o'.
Proof.
  unfold unmap_page. intros H.
  apply bind_Ret in H as (? & Hlt & H). apply assert_Ret, Nat.ltb_lt in Hlt.
  apply bind_Ret in H as (? & Hnum & H). apply assert_Ret in Hnum.
  apply bind_Ret in H as (r & Hr & H).
  apply is_page_resident_Ret in Hr as (_ & e & He & ->).
  apply bind_Ret in H as (? & Hres & H).
  apply assert_Ret, negb_true_iff, Z.eqb_neq in Hres.
  apply bind_Ret in H as (addr & Haddr & H).
  apply bind_Ret in H as (d & Hd & H).
  apply bind_Ret in H as (v1 & Hv1 & H).
  assert (Hmid : exists o1, loads_done (os_trace o1) = loads_done (os_trace (os v)) /\
                   (v1 = set_os o1 v \/
                    v1 = set_os o1 (set_page_table
                                      (<[page := with_perm e PAGEPERM_READ]> (page_table v)) v))).
  { destruct (negb (d =? 0)).
    - apply bind_Ret in Hv1 as (v2 & Hv2 & Hv1).
      apply set_page_permission_Ret in Hv2
        as (_ & _ & e2 & m & prot & He2 & Hm & Hprot & ->).
      assert (e2 = e) as -> by congruence.
      unfold os_lseek, os_write in Hv1. cbn [os protected os_maps os_file os_pos os_trace set_os] in Hv1.
      cbv beta iota in Hv1.
      destruct (_ =? -1); [discriminate |].
      destruct (<[_ := _]> (os_maps (os v)) !! addr) as [m'|];
        [destruct (readable m') |]; cbv beta iota in Hv1;
        (destruct (_ =? -1); [discriminate |]);
        (destruct (negb _); [discriminate |]);
        injection Hv1 as <-; eexists; (split; [| right; reflexivity]); reflexivity.
    - injection Hv1 as <-. exists (os v). split; [reflexivity |]. left.
      destruct v; reflexivity. }
  destruct Hmid as (o1 & Hloads & Hv1').
  unfold os_munmap in H. cbn [fst snd] in H.
  destruct (0 =? -1) eqn:E0; [discriminate |].
  apply bind_Ret in H as (v3 & Hv3 & H).
  apply set_pte_Ret in Hv3 as (_ & _ & ->).
  apply bind_Ret in H as (r & _ & H).
  apply bind_Ret in H as (? & _ & H). injection H as <-.
  exists e. eexists. split; [assumption |]. split; [assumption |].
  split; [assumption |]. split; [lia |].
  destruct Hv1' as [-> | ->]; cbn; rewrite ?list_insert_insert_eq;
    (split; [| reflexivity]); exact Hloads.
Qed.

End Inversion.

Section FaultEffect.
Context `{cfg : config} {Hok : config_ok cfg} {P : Policy}.

Lemma sigsegv_handler_Ret (alloc : ptr) (addr code : Z) (s s' : sys) :
  sigsegv_handler alloc addr code s = Ret s' ->
  exists page, (page < NUM_PAGES)%nat /\ fault_effect code page (vm s) (vm s').
Proof.
  unfold sigsegv_handler. intros H.
  destruct (_ || _); [discriminate |].
  apply bind_Ret in H as (page & _ & H). exists page.
  apply bind_Ret in H as (? & Hlt & H). apply assert_Ret, Nat.ltb_lt in Hlt.
  split; [assumption |].
  apply bind_Ret in H as (? & Hcode & H). apply assert_Ret in Hcode.
  apply bind_Ret in H as (s1 & Hs1 & H).
  cbn [vm ps] in *.
  set (v0 := set_num_faults (wrap32 (num_faults (vm s) + 1)) (vm s)) in *.
  destruct (Z.eqb_spec code SEGV_MAPERR) as [-> | Hne].
  - (* not mapped: perhaps evict, then load *)
    change (SEGV_MAPERR =? SEGV_ACCERR) with false in H. cbv iota in H.
    injection H as <-.
    apply bind_Ret in Hs1 as (? & _ & Hs1).
    apply bind_Ret in Hs1 as (s2 & Hs2 & Hs1).
    apply bind_Ret in Hs1 as (s3 & Hs3 & Hs1).
    apply bind_Ret in Hs1 as (? & _ & Hs1).
    apply bind_Ret in Hs1 as (? & _ & Hs1). injection Hs1 as <-.
    apply map_page_Ret in Hs3
      as (e0 & prot & _ & _ & He0 & Hres0 & Hcap & _ & _ & _ & Hvm).
    rewrite Hvm. unfold mapped.
    destruct (Z.eqb_spec (num_resident v0) (max_resident v0)) as [Hfull | Hroom].
    + apply bind_Ret in Hs2 as ([victim p1] & _ & Hs2).
      apply bind_Ret in Hs2 as (? & _ & Hs2).
      apply bind_Ret in Hs2 as (? & _ & Hs2).
      apply bind_Ret in Hs2 as (v1 & Hv1 & Hs2).
      apply bind_Ret in Hs2 as (? & _ & Hs2).
      apply bind_Ret in Hs2 as (? & _ & Hs2). injection Hs2 as <-.
      apply unmap_page_Ret in Hv1
        as (e & o1 & Hv & He & Hres & Hpos & Hloads & ->).
      cbn [vm page_table num_resident max_resident] in *.
      eapply (eff_load _ _ _ _ (<[victim := 0]> (page_table (vm s)))
                       (wrap32 (num_resident (vm s) - 1)) e0);
        [reflexivity | right; exists victim, e; auto 10
         | eassumption | assumption | assumption | | reflexivity].
      cbn [os os_trace load_calls app loads_done]. rewrite Hloads. reflexivity.
    + injection Hs2 as <-. cbn [vm] in *.
      eapply (eff_load _ _ _ _ (page_table (vm s)) (num_resident (vm s)) e0);
        [reflexivity | left; auto | eassumption | assumption | assumption
         | | reflexivity].
      reflexivity.
  - (* mapped, access forbidden *)
    injection Hs1 as <-. cbn [orb] in Hcode.
    rewrite Hcode in H. apply Z.eqb_eq in Hcode as ->.
    apply bind_Ret in H as (r & Hr & H).
    apply is_page_resident_Ret in Hr as (_ & e & He & ->).
    apply bind_Ret in H as (? & Hres & H).
    apply assert_Ret, negb_true_iff, Z.eqb_neq in Hres.
    apply bind_Ret in H as (perm & Hperm & H).
    apply get_page_permission_Ret in Hperm as (_ & e' & He' & ->).
    cbn [vm ps] in *. assert (e' = e) as -> by congruence. clear He'.
    change (page_table v0) with (page_table (vm s)) in He.
    destruct (Z.eqb_spec (Z.land e PAGEPERM_MASK) PAGEPERM_NONE) as [Hnone | Hnn].
    + apply bind_Ret in H as (v1 & Hv1 & H).
      apply bind_Ret in H as (v2 & Hv2 & H).
      apply bind_Ret in H as (? & _ & H).
      apply bind_Ret in H as (? & _ & H).
      apply bind_Ret in H as (? & _ & H).
      apply bind_Ret in H as (? & _ & H). injection H as <-.
      apply set_page_permission_Ret in Hv1
        as (_ & _ & e1 & m & prot & He1 & _ & _ & ->).
      change (page_table v0) with (page_table (vm s)) in He1.
      assert (e1 = e) as -> by congruence.
      apply set_page_accessed_Ret in Hv2 as (_ & e2 & He2 & ->).
      cbn [protected page_table] in He2.
      rewrite list_lookup_insert_eq in He2 by (eapply lookup_lt_Some; eassumption).
      injection He2 as <-.
      eapply (eff_read _ _ _ _ e); [reflexivity | assumption | assumption | assumption | |].
      2:{ cbn. rewrite list_insert_insert_eq. reflexivity. }
      reflexivity.
    + destruct (Z.eqb_spec (Z.land e PAGEPERM_MASK) PAGEPERM_READ) as [Hread | Hnr].
      * apply bind_Ret in H as (v1 & Hv1 & H).
        apply bind_Ret in H as (v2 & Hv2 & H).
        apply bind_Ret in H as (? & _ & H).
        apply bind_Ret in H as (? & _ & H).
        apply bind_Ret in H as (? & _ & H).
        apply bind_Ret in H as (? & _ & H). injection H as <-.
        apply set_page_permission_Ret in Hv1
          as (_ & _ & e1 & m & prot & He1 & _ & _ & ->).
        change (page_table v0) with (page_table (vm s)) in He1.
        assert (e1 = e) as -> by congruence.
        apply set_page_dirty_Ret in Hv2 as (_ & e2 & He2 & ->).
        cbn [protected page_table] in He2.
        rewrite list_lookup_insert_eq in He2 by (eapply lookup_lt_Some; eassumption).
        injection He2 as <-.
        eapply (eff_write _ _ _ _ e);
          [reflexivity | assumption | assumption | assumption | |].
        2:{ cbn. rewrite list_insert_insert_eq. reflexivity. }
        reflexivity.
      * injection H as <-.
        eapply (eff_none _ _ _ _ e); auto.
Qed.

End FaultEffect.

(** ** Invariants of the pager *)

Section Counting.
Context `{cfg : config} {Hok : config_ok cfg}.

Lemma count_resident_le (pt : list Z) : (count_resident pt <= length pt)%nat.
Proof. induction pt as [| e pt IH]; cbn; [lia |]. destruct (is_resident e); lia. Qed.

Lemma count_resident_insert (pt : list Z) (i : nat) (e e' : Z) :
  pt !! i = Some e ->
  (count_resident (<[i := e']> pt) + (if is_resident e then 1 else 0)
   = count_resident pt + (if is_resident e' then 1 else 0))%nat.
Proof.
  revert i. induction pt as [| x pt IH]; intros [| i] Hl; try discriminate.
  - injection Hl as ->. cbn.
    destruct (is_resident e), (is_resident e'); lia.
  - simpl in Hl. simpl. specialize (IH i Hl). revert IH.
    destruct (is_resident x), (is_resident e), (is_resident e'); lia.
Qed.

Lemma count_resident_replicate (n : nat) : count_resident (replicate n 0) = 0%nat.
Proof. induction n; [reflexivity | assumption]. Qed.

Lemma is_resident_true (e : Z) : is_resident e = true <-> Z.land e PAGE_RESIDENT <> 0.
Proof. unfold is_resident. rewrite negb_true_iff, Z.eqb_neq. reflexivity. Qed.

Lemma is_resident_false (e : Z) : is_resident e = false <-> Z.land e PAGE_RESIDENT = 0.
Proof. unfold is_resident. rewrite negb_false_iff, Z.eqb_eq. reflexivity. Qed.

Lemma is_resident_mapped (perm : Z) :
  valid_perm perm = true ->
  is_resident (with_perm (Z.lor 0 PAGE_RESIDENT) perm) = true.
Proof.
  intros Hv. apply is_resident_true.
  rewrite with_perm_flag by auto using valid_perm_in_mask, resident_mask.
  apply land_lor_same. pose proof resident_pos. lia.
Qed.

Lemma aged_refl (e : Z) : aged e e.
Proof. unfold aged. auto. Qed.

Lemma aged_trans (e1 e2 e3 : Z) : aged e1 e2 -> aged e2 e3 -> aged e1 e3.
Proof.
  intros (Hr1 & Hd1 & H1) (Hr2 & Hd2 & H2). unfold aged.
  split; [congruence |]. split; [congruence |].
  destruct H2 as [-> | H2]; [assumption | right; assumption].
Qed.

Lemma aged_cleared (e : Z) :
  aged e (with_perm (Z.land e (Z.lnot PAGE_ACCESSED)) PAGEPERM_NONE).
Proof.
  unfold aged.
  rewrite !with_perm_flag
    by auto using none_in_mask, resident_mask, dirty_mask, accessed_mask.
  rewrite with_perm_perm by apply none_in_mask.
  rewrite land_clear_same.
  rewrite !land_clear_other; auto using accessed_dirty.
  rewrite Z.land_comm. apply resident_accessed.
Qed.

Lemma count_resident_aged (pt pt' : list Z) :
  Forall2 aged pt pt' -> count_resident pt' = count_resident pt.
Proof.
  induction 1 as [| e e' pt pt' (Hr & _ & _) _ IH]; [reflexivity |].
  cbn. unfold is_resident. rewrite Hr, IH. reflexivity.
Qed.

Lemma Forall2_aged_refl (pt : list Z) : Forall2 aged pt pt.
Proof. induction pt; constructor; auto using aged_refl. Qed.

Lemma Forall2_aged_trans (l1 l2 l3 : list Z) :
  Forall2 aged l1 l2 -> Forall2 aged l2 l3 -> Forall2 aged l1 l3.
Proof.
  intros H12. revert l3. induction H12; intros l3 H23; inversion H23; subst;
    constructor; eauto using aged_trans.
Qed.

Lemma Forall2_aged_insert (pt : list Z) (i : nat) (e e' : Z) :
  pt !! i = Some e -> aged e e' -> Forall2 aged pt (<[i := e']> pt).
Proof.
  revert i. induction pt as [| x pt IH]; intros [| i] Hl Ha; try discriminate.
  - injection Hl as ->. constructor; [assumption | apply Forall2_aged_refl].
  - cbn in Hl. constructor; [apply aged_refl | eauto].
Qed.

End Counting.

Section Invariant.
Context `{cfg : config} {Hok : config_ok cfg} {P : Policy}.

(** An invariant [J] of single entries that the pager's own updates keep. *)
Variable J : Z -> Prop.
Hypothesis J_cleared : J 0.
Hypothesis J_mapped : J (with_perm (Z.lor 0 PAGE_RESIDENT) PAGEPERM_NONE).
Hypothesis J_read : forall e,
  J e -> Z.land e PAGE_RESIDENT <> 0 -> Z.land e PAGEPERM_MASK = PAGEPERM_NONE ->
  J (Z.lor (with_perm e PAGEPERM_READ) PAGE_ACCESSED).
Hypothesis J_write : forall e,
  J e -> Z.land e PAGE_RESIDENT <> 0 -> Z.land e PAGEPERM_MASK = PAGEPERM_READ ->
  J (Z.lor (with_perm e PAGEPERM_RDWR) PAGE_DIRTY).

Lemma num_pages_small : Z.of_nat NUM_PAGES < 2 ^ 31.
Proof. pose proof pool_fits. pose proof page_size_pos. nia. Qed.

Lemma resident_after_read (e : Z) :
  Z.land (Z.lor (with_perm e PAGEPERM_READ) PAGE_ACCESSED) PAGE_RESIDENT
  = Z.land e PAGE_RESIDENT.
Proof.
  rewrite land_lor_other by (rewrite Z.land_comm; apply resident_accessed).
  apply with_perm_flag; auto using read_in_mask, resident_mask.
Qed.

Lemma resident_after_write (e : Z) :
  Z.land (Z.lor (with_perm e PAGEPERM_RDWR) PAGE_DIRTY) PAGE_RESIDENT
  = Z.land e PAGE_RESIDENT.
Proof.
  rewrite land_lor_other by (rewrite Z.land_comm; apply resident_dirty).
  apply with_perm_flag; auto using rdwr_in_mask, resident_mask.
Qed.

Lemma count_resident_same (pt : list Z) (i : nat) (e e' : Z) :
  pt !! i = Some e -> Z.land e' PAGE_RESIDENT = Z.land e PAGE_RESIDENT ->
  count_resident (<[i := e']> pt) = count_resident pt.
Proof.
  intros Hl Hr. pose proof (count_resident_insert pt i e e' Hl) as Hc.
  unfold is_resident in Hc. rewrite Hr in Hc. lia.
Qed.

Lemma fault_effect_inv (code : Z) (page : page_t) (v v' : vm_state) :
  pager_inv J v -> fault_effect code page v v' -> pager_inv J v'.
Proof.
  intros [Hlen Hcount Hcap HJ] Heff. pose proof num_pages_small as Hsmall.
  pose proof (count_resident_le (page_table v)) as Hle.
  destruct Heff as [pt1 n1 e0 o' _ Hevict He0 Hres0 Hcap' _ ->
                   | e o' _ He Hres Hperm _ ->
                   | e o' _ He Hres Hperm _ ->
                   | e _ He Hres _ _ ->].
  - assert (Hmid : length pt1 = NUM_PAGES /\ n1 = Z.of_nat (count_resident pt1) /\
                   Forall J pt1).
    { destruct Hevict as [(-> & -> & _)
                         | (victim & e & _ & He & Hres & Hpos & _ & -> & ->)].
      - auto.
      - rewrite length_insert. split; [assumption |].
        pose proof (count_resident_insert (page_table v) victim e 0 He) as Hc.
        apply is_resident_true in Hres. rewrite Hres in Hc.
        change (is_resident 0) with false in Hc.
        split; [| apply Forall_insert; assumption].
        cbv iota in Hc. unfold wrap32. pow2. rewrite Z.mod_small by lia. lia. }
    destruct Hmid as (Hlen1 & -> & HJ1).
    pose proof (count_resident_insert pt1 page e0
                  (with_perm (Z.lor 0 PAGE_RESIDENT) PAGEPERM_NONE) He0) as Hc.
    apply is_resident_false in Hres0. rewrite Hres0 in Hc.
    rewrite (is_resident_mapped _ valid_perm_none) in Hc. cbv iota in Hc.
    pose proof (count_resident_le
                  (<[page := with_perm (Z.lor 0 PAGE_RESIDENT) PAGEPERM_NONE]> pt1)) as Hle1.
    rewrite length_insert in Hle1.
    assert (Hnowrap : wrap32 (Z.of_nat (count_resident pt1) + 1)
                      = Z.of_nat (count_resident pt1) + 1)
      by (unfold wrap32; pow2; apply Z.mod_small; lia).
    split; cbn [page_table num_resident max_resident].
    + rewrite length_insert. assumption.
    + rewrite Hnowrap. lia.
    + assumption.
    + apply Forall_insert; assumption.
  - split; cbn [page_table num_resident max_resident].
    + rewrite length_insert. assumption.
    + rewrite (count_resident_same _ _ e) by auto using resident_after_read.
      assumption.
    + assumption.
    + apply Forall_insert; [assumption |]. apply J_read; try assumption.
      eapply Forall_lookup_1; eassumption.
  - split; cbn [page_table num_resident max_resident].
    + rewrite length_insert. assumption.
    + rewrite (count_resident_same _ _ e) by auto using resident_after_write.
      assumption.
    + assumption.
    + apply Forall_insert; [assumption |]. apply J_write; try assumption.
      eapply Forall_lookup_1; eassumption.
  - split; assumption.
Qed.

Lemma vmem_init_inv (h : host) (max : Z) (s s' : sys) :
  0 <= max -> vmem_init h max s = Ret s' -> pager_inv J (vm s').
Proof.
  intros Hmax H. unfold vmem_init in H.
  destruct (policy_init _ _ _) as [r p]. destruct (r =? 0); [discriminate |].
  destruct (open_ok h); [| discriminate]. destruct (unlink_ok h); [| discriminate].
  cbv beta iota zeta in H. unfold os_lseek in H. cbv beta iota in H.
  destruct (_ <? 0); [discriminate |].
  destruct (write_ok h); [| discriminate]. destruct (sigsegv_ok h); [| discriminate].
  destruct (sigalrm_ok h); [| discriminate]. destruct (setitimer_ok h); [| discriminate].
  injection H as <-.
  split; cbn.
  - apply length_replicate.
  - rewrite count_resident_replicate. reflexivity.
  - assumption.
  - apply Forall_replicate. assumption.
Qed.

(** When the policy's tick keeps the invariant, every run does. *)
Hypothesis tick_inv : forall p v p' v',
  policy_timer_tick p v = Ret (p', v') -> pager_inv J v -> pager_inv J v'.

Lemma handle_inv (ev : event) (s s' : sys) :
  handle ev s = Ret s' -> pager_inv J (vm s) -> pager_inv J (vm s').
Proof.
  destruct ev as [alloc addr code |]; cbn [handle]; intros H Hinv.
  - apply sigsegv_handler_Ret in H as (page & _ & Heff).
    eapply fault_effect_inv; eassumption.
  - unfold sigalrm_handler in H.
    apply bind_Ret in H as ([p v] & Htick & H). injection H as <-.
    eapply tick_inv; eassumption.
Qed.

Lemma run_inv (es : list event) (s s' : sys) :
  run es s = Ret s' -> pager_inv J (vm s) -> pager_inv J (vm s').
Proof.
  revert s. induction es as [| ev es IH]; intros s H Hinv.
  - injection H as <-. assumption.
  - cbn [run] in H. apply bind_Ret in H as (s1 & H1 & H).
    eapply IH; [eassumption |]. eapply handle_inv; eassumption.
Qed.

End Invariant.

(** ** The timer tick and the page table *)

Section Aging.
Context `{cfg : config} {Hok : config_ok cfg}.

Lemma ages_refl (v : vm_state) : ages v v.
Proof. split; auto using Forall2_aged_refl. Qed.

Lemma ages_trans (v1 v2 v3 : vm_state) : ages v1 v2 -> ages v2 v3 -> ages v1 v3.
Proof.
  intros [] []. split; try congruence. eapply Forall2_aged_trans; eassumption.
Qed.

(** One accessed page found by the walk. *)
Lemma clear_and_protect_ages (pg : page_t) (v v1 v2 : vm_state) :
  clear_page_accessed pg v = Ret v1 ->
  set_page_permission pg PAGEPERM_NONE v1 = Ret v2 ->
  ages v v2.
Proof.
  intros H1 H2.
  apply clear_page_accessed_Ret in H1 as (_ & e & He & ->).
  apply set_page_permission_Ret in H2 as (_ & _ & e1 & m & prot & He1 & _ & _ & ->).
  cbn [set_page_table page_table] in He1.
  rewrite list_lookup_insert_eq in He1 by (eapply lookup_lt_Some; eassumption).
  injection He1 as <-.
  split; cbn; try reflexivity.
  rewrite list_insert_insert_eq.
  eapply Forall2_aged_insert; [eassumption | apply aged_cleared].
Qed.

Lemma clru_tick_loop_ages (n : nat) (node : ptr) (L L' : CLRU.loaded_pages_t)
    (h h' : gmap nat CLRU.page_node) (v v' : vm_state) :
  CLRU.tick_loop n node L h v = Ret (L', h', v') -> ages v v'.
Proof.
  revert node L h v. induction n as [| n IH]; intros node L h v H.
  - injection H as <- <- <-. apply ages_refl.
  - cbn [CLRU.tick_loop] in H.
    apply bind_Ret in H as (nd & _ & H).
    apply bind_Ret in H as (acc & _ & H).
    destruct (negb (acc =? 0)).
    + apply bind_Ret in H as (v1 & Hv1 & H).
      apply bind_Ret in H as (v2 & Hv2 & H).
      apply bind_Ret in H as ([L1 h1] & _ & H).
      eapply ages_trans; [eapply clear_and_protect_ages; eassumption |].
      eapply IH; eassumption.
    + eapply IH; eassumption.
Qed.

Lemma clru_tick_ages (p p' : CLRU.pol) (v v' : vm_state) :
  CLRU.policy_timer_tick p v = Ret (p', v') -> ages v v'.
Proof.
  unfold CLRU.policy_timer_tick. intros H.
  apply bind_Ret in H as (L & _ & H).
  destruct (_ || _).
  - injection H as <- <-. apply ages_refl.
  - apply bind_Ret in H as ([[L1 h1] v1] & Hloop & H). injection H as <- <-.
    eapply clru_tick_loop_ages; eassumption.
Qed.

Lemma ages_inv (J : Z -> Prop) (v v' : vm_state) :
  (forall e e', J e -> aged e e' -> J e') ->
  pager_inv J v -> ages v v' -> pager_inv J v'.
Proof.
  intros HJ [Hlen Hcount Hcap Hent] [].
  pose proof (Forall2_length _ _ _ ages_table0) as Hl.
  split.
  - congruence.
  - rewrite (count_resident_aged _ _ ages_table0). congruence.
  - congruence.
  - clear -HJ Hent ages_table0.
    induction ages_table0; inversion Hent; subst; constructor; eauto.
Qed.

Lemma accessed_after_read (e : Z) :
  Z.land (Z.lor (with_perm e PAGEPERM_READ) PAGE_ACCESSED) PAGE_ACCESSED <> 0.
Proof. apply land_lor_same. pose proof accessed_pos. lia. Qed.

Lemma accessed_after_write (e : Z) :
  Z.land (Z.lor (with_perm e PAGEPERM_RDWR) PAGE_DIRTY) PAGE_ACCESSED
  = Z.land e PAGE_ACCESSED.
Proof.
  rewrite land_lor_other by (rewrite Z.land_comm; apply accessed_dirty).
  apply with_perm_flag; auto using rdwr_in_mask, accessed_mask.
Qed.

Lemma mapped_entry_clean :
  Z.land (with_perm (Z.lor 0 PAGE_RESIDENT) PAGEPERM_NONE) PAGE_DIRTY = 0 /\
  Z.land (with_perm (Z.lor 0 PAGE_RESIDENT) PAGEPERM_NONE) PAGEPERM_MASK = PAGEPERM_NONE.
Proof.
  rewrite with_perm_flag by auto using none_in_mask, dirty_mask.
  rewrite with_perm_perm by apply none_in_mask.
  rewrite Z.lor_0_l. split; [apply resident_dirty | reflexivity].
Qed.

Lemma J_fifo_cleared : J_fifo 0.
Proof. split; rewrite Z.land_0_l; tauto. Qed.

Lemma J_fifo_mapped : J_fifo (with_perm (Z.lor 0 PAGE_RESIDENT) PAGEPERM_NONE).
Proof.
  destruct mapped_entry_clean as [Hd Hp]. pose proof none_read.
  split; [rewrite Hd; tauto | rewrite Hp; tauto].
Qed.

Lemma J_fifo_read (e : Z) :
  J_fifo e -> Z.land e PAGE_RESIDENT <> 0 -> Z.land e PAGEPERM_MASK = PAGEPERM_NONE ->
  J_fifo (Z.lor (with_perm e PAGEPERM_READ) PAGE_ACCESSED).
Proof. intros _ _ _. split; intros; apply accessed_after_read. Qed.

Lemma J_fifo_write (e : Z) :
  J_fifo e -> Z.land e PAGE_RESIDENT <> 0 -> Z.land e PAGEPERM_MASK = PAGEPERM_READ ->
  J_fifo (Z.lor (with_perm e PAGEPERM_RDWR) PAGE_DIRTY).
Proof.
  intros [_ H] Hres Hperm. split; intros; rewrite accessed_after_write; auto.
Qed.

Lemma J_clru_cleared : J_clru 0.
Proof. split; rewrite Z.land_0_l; tauto. Qed.

Lemma J_clru_mapped : J_clru (with_perm (Z.lor 0 PAGE_RESIDENT) PAGEPERM_NONE).
Proof.
  destruct mapped_entry_clean as [Hd Hp]. pose proof none_read.
  split; [rewrite Hd; tauto | rewrite Hp; tauto].
Qed.

Lemma J_clru_read (e : Z) :
  J_clru e -> Z.land e PAGE_RESIDENT <> 0 -> Z.land e PAGEPERM_MASK = PAGEPERM_NONE ->
  J_clru (Z.lor (with_perm e PAGEPERM_READ) PAGE_ACCESSED).
Proof. intros _ _ _. split; intros; [left |]; apply accessed_after_read. Qed.

Lemma J_clru_write (e : Z) :
  J_clru e -> Z.land e PAGE_RESIDENT <> 0 -> Z.land e PAGEPERM_MASK = PAGEPERM_READ ->
  J_clru (Z.lor (with_perm e PAGEPERM_RDWR) PAGE_DIRTY).
Proof.
  intros [_ H] Hres Hperm. split; intros; [left |]; rewrite accessed_after_write; auto.
Qed.

Lemma J_clru_aged (e e' : Z) : J_clru e -> aged e e' -> J_clru e'.
Proof.
  intros HJ (Hr & Hd & [-> | [Ha Hp]]); [assumption |].
  pose proof none_read. split; intros; [right; assumption | congruence].
Qed.

(** Every state a run reaches under FIFO, and under CLOCK/LRU. *)
Lemma fifo_reachable_inv (h : host) (max : Z) (prior s : @sys fifo_policy)
    (es : list event) :
  0 <= max ->
  (s0 ← @vmem_init cfg fifo_policy h max prior; @run cfg fifo_policy es s0) = Ret s ->
  pager_inv J_fifo (vm s).
Proof.
  intros Hmax H. apply bind_Ret in H as (s0 & Hinit & Hrun).
  eapply (run_inv (P := fifo_policy) J_fifo); try eassumption;
    auto using J_fifo_cleared, J_fifo_mapped, J_fifo_read, J_fifo_write.
  - intros p v p' v' Ht Hinv. injection Ht as <- <-. assumption.
  - eapply (vmem_init_inv (P := fifo_policy)); eauto using J_fifo_cleared.
Qed.

Lemma clru_reachable_inv (h : host) (max : Z) (prior s : @sys clru_policy)
    (es : list event) :
  0 <= max ->
  (s0 ← @vmem_init cfg clru_policy h max prior; @run cfg clru_policy es s0) = Ret s ->
  pager_inv J_clru (vm s).
Proof.
  intros Hmax H. apply bind_Ret in H as (s0 & Hinit & Hrun).
  eapply (run_inv (P := clru_policy) J_clru); try eassumption;
    auto using J_clru_cleared, J_clru_mapped, J_clru_read, J_clru_write.
  - intros p v p' v' Ht Hinv.
    eapply ages_inv; [apply J_clru_aged | eassumption |].
    eapply clru_tick_ages. exact Ht.
  - eapply (vmem_init_inv (P := clru_policy)); eauto using J_clru_cleared.
Qed.

End Aging.

(** ** Every step of [map_page] *)

Section MapReturns.
Context `{cfg : config} {Hok : config_ok cfg} {P : Policy}.

Lemma map_page_reaches_policy (alloc : ptr) (page : page_t) (perm prot : Z) (s : sys)
    (e : Z) :
  (page < NUM_PAGES)%nat -> valid_perm perm = true ->
  pageperm_to_mmap perm = Ret prot ->
  page_table (vm s) !! page = Some e -> Z.land e PAGE_RESIDENT = 0 ->
  wrap32 (num_resident (vm s) + 1) <= max_resident (vm s) ->
  0 <= vmem_start (vm s) ->
  ((page + 1) * PAGE_SIZE <= length (os_file (os (vm s))))%nat ->
  map_page alloc page perm s =
    (p ← policy_page_mapped alloc page (ps s);
     Ret (Sys (mapped page perm prot (vm s)) p)).
Proof.
  intros Hlt Hv Hprot He Hres Hcap Hstart Hfile. unfold map_page.
  pose proof (lookup_lt_Some _ _ _ He) as Hlen.
  apply Nat.ltb_lt in Hlt as Hb. rewrite Hb, Hv. osimpl.
  rewrite (is_page_resident_eq page (vm s) e) by assumption. osimpl.
  rewrite Hres. change (0 =? 0) with true. osimpl.
  cbn [set_num_resident num_resident max_resident].
  destruct (Z.gtb_spec (wrap32 (num_resident (vm s) + 1)) (max_resident (vm s))); [lia |].
  unfold page_to_addr. rewrite Hb. osimpl.
  cbn [set_num_resident vmem_start os].
  set (addr := vmem_start (vm s) + Z.of_nat (page * PAGE_SIZE)).
  unfold os_mmap, os_lseek, os_read.
  cbn [set_os os os_maps os_file os_pos os_trace].
  destruct (Z.eqb_spec addr (-1)); [lia |].
  rewrite Z.eqb_refl. cbn [negb].
  destruct (Z.eqb_spec (Z.of_nat (page * PAGE_SIZE)) (-1)); [lia |].
  rewrite lookup_insert_eq. change (writable _) with true. cbv iota.
  fold (swap_slot page (os_file (os (vm s)))).
  rewrite (swap_slot_length page) by assumption.
  destruct (Z.eqb_spec (Z.of_nat PAGE_SIZE) (-1)); [lia |].
  rewrite Z.eqb_refl. cbn [negb].
  match goal with |- context [set_pte page 0 ?v] => set (v1 := v) end.
  rewrite (set_pte_eq page 0 v1) by assumption. osimpl.
  unfold set_page_resident.
  match goal with |- context [pte page ?v] => set (v2 := v) end.
  assert (Hlen2 : (page < length (page_table v2))%nat)
    by (cbn; rewrite length_insert; assumption).
  rewrite (pte_eq page v2 0) by (try assumption; cbn; apply list_lookup_insert_eq; assumption).
  osimpl. rewrite (set_pte_eq page _ v2) by assumption. osimpl.
  match goal with |- context [set_page_permission page perm ?v] => set (v3 := v) end.
  rewrite (set_page_permission_eq page perm prot v3 (Z.lor 0 PAGE_RESIDENT)
             (Mapping (Z.lor PROT_READ PROT_WRITE)
                (swap_slot page (os_file (os (vm s))) ++
                 drop PAGE_SIZE (zeros PAGE_SIZE))));
    [| assumption | assumption
     | cbn; apply list_lookup_insert_eq; rewrite length_insert; assumption
     | cbn; fold addr; apply lookup_insert_eq
     | assumption].
  osimpl.
  match goal with |- context [is_page_resident page ?v] => set (v4 := v) end.
  rewrite (is_page_resident_eq page v4 (with_perm (Z.lor 0 PAGE_RESIDENT) perm));
    [| assumption
     | cbn; apply list_lookup_insert_eq; rewrite !length_insert; assumption].
  osimpl.
  pose proof (is_resident_mapped perm Hv) as Hr. unfold is_resident in Hr.
  rewrite Hr. osimpl.
  assert (Hstate : set_num_loads (wrap32 (num_loads v4 + 1)) v4
                   = mapped page perm prot (vm s)).
  { unfold mapped, protected, set_num_loads, load_calls. subst v4 v3 v2 v1. cbn. fold addr.
    rewrite !list_insert_insert_eq, !insert_insert_eq.
    unfold zeros. rewrite drop_ge by (rewrite length_replicate; lia).
    rewrite app_nil_r. reflexivity. }
  rewrite Hstate. reflexivity.
Qed.

Lemma map_page_returns (alloc : ptr) (page : page_t) (perm prot : Z) (s : sys)
    (e : Z) (p' : pol) :
  (page < NUM_PAGES)%nat -> valid_perm perm = true ->
  pageperm_to_mmap perm = Ret prot ->
  page_table (vm s) !! page = Some e -> Z.land e PAGE_RESIDENT = 0 ->
  wrap32 (num_resident (vm s) + 1) <= max_resident (vm s) ->
  0 <= vmem_start (vm s) ->
  ((page + 1) * PAGE_SIZE <= length (os_file (os (vm s))))%nat ->
  policy_page_mapped alloc page (ps s) = Ret p' ->
  map_page alloc page perm s = Ret (Sys (mapped page perm prot (vm s)) p').
Proof.
  intros Hlt Hv Hprot He Hres Hcap Hstart Hfile Hpol.
  rewrite (map_page_reaches_policy alloc page perm prot s e) by assumption.
  rewrite Hpol. reflexivity.
Qed.

End MapReturns.

(** ** Residency and the reference bits after every handler *)

Section HandlerInvariants.
Context `{cfg : config} {Hok : config_ok cfg}.

Lemma map_page_over_cap {P : Policy} (alloc : ptr) (page : page_t) (perm : Z) (s : sys) :
  length (page_table (vm s)) = NUM_PAGES ->
  max_resident (vm s) < wrap32 (num_resident (vm s) + 1) ->
  map_page alloc page perm s = Stop Aborted.
Proof.
  intros Hlen Hover. unfold map_page.
  destruct (Nat.ltb_spec page NUM_PAGES) as [Hlt | _]; [| reflexivity]. osimpl.
  destruct (valid_perm perm); [| reflexivity]. osimpl.
  destruct (lookup_lt_is_Some_2 (page_table (vm s)) page) as [e He]; [lia |].
  rewrite (is_page_resident_eq page _ e) by assumption. osimpl.
  destruct (_ =? 0); [| reflexivity]. osimpl.
  cbn [num_resident max_resident set_num_resident].
  destruct (Z.gtb_spec (wrap32 (num_resident (vm s) + 1)) (max_resident (vm s)));
    [reflexivity | lia].
Qed.

(** C5: after every handler that returns, in a run that starts with
    [vmem_init], [num_resident] is the number of entries with the resident
    bit set and is at most [max_resident], under FIFO and under CLOCK/LRU;
    [map_page] adds one to [num_resident] and returns only within the cap,
    aborting when the incremented count exceeds it, and it does return,
    with one more resident page, for a page that is not resident when the
    cap leaves room, the swap file covers the page's slot and the policy
    records the page; [unmap_page] returns for every resident page that is
    mapped, and whenever it returns it has cleared the entry and taken one
    off [num_resident]. *)
Theorem num_resident_counts_resident_pages :
  (forall (h : host) (max : Z) (prior s : @sys fifo_policy) (es : list event),
     0 <= max ->
     (s0 ← @vmem_init cfg fifo_policy h max prior; @run cfg fifo_policy es s0) = Ret s ->
     num_resident (vm s) = Z.of_nat (count_resident (page_table (vm s))) /\
     num_resident (vm s) <= max_resident (vm s)) /\
  (forall (h : host) (max : Z) (prior s : @sys clru_policy) (es : list event),
     0 <= max ->
     (s0 ← @vmem_init cfg clru_policy h max prior; @run cfg clru_policy es s0) = Ret s ->
     num_resident (vm s) = Z.of_nat (count_resident (page_table (vm s))) /\
     num_resident (vm s) <= max_resident (vm s)) /\
  (forall (P : Policy) (alloc : ptr) (page : page_t) (perm : Z) (s s' : @sys P),
     map_page alloc page perm s = Ret s' ->
     num_resident (vm s') = wrap32 (num_resident (vm s) + 1) /\
     num_resident (vm s') <= max_resident (vm s')) /\
  (forall (P : Policy) (alloc : ptr) (page : page_t) (perm : Z) (s : @sys P),
     length (page_table (vm s)) = NUM_PAGES ->
     max_resident (vm s) < wrap32 (num_resident (vm s) + 1) ->
     map_page alloc page perm s = Stop Aborted) /\
  (forall (P : Policy) (alloc : ptr) (page : page_t) (perm : Z) (s : @sys P)
          (e : Z) (p' : pol),
     (page < NUM_PAGES)%nat -> valid_perm perm = true ->
     page_table (vm s) !! page = Some e -> Z.land e PAGE_RESIDENT = 0 ->
     wrap32 (num_resident (vm s) + 1) <= max_resident (vm s) ->
     0 <= vmem_start (vm s) ->
     ((page + 1) * PAGE_SIZE <= length (os_file (os (vm s))))%nat ->
     policy_page_mapped alloc page (ps s) = Ret p' ->
     exists s',
       map_page alloc page perm s = Ret s' /\
       num_resident (vm s') = wrap32 (num_resident (vm s) + 1) /\
       count_resident (page_table (vm s')) = S (count_resident (page_table (vm s)))) /\
  (forall (page : page_t) (v : vm_state) (e : Z) (m : mapping),
     (page < NUM_PAGES)%nat -> 0 < num_resident v ->
     page_table v !! page = Some e -> Z.land e PAGE_RESIDENT <> 0 ->
     os_maps (os v) !! (vmem_start v + Z.of_nat (page * PAGE_SIZE)) = Some m ->
     length (m_data m) = PAGE_SIZE ->
     exists v',
       unmap_page page v = Ret v' /\
       num_resident v' = wrap32 (num_resident v - 1) /\
       page_table v' !! page = Some 0 /\
       S (count_resident (page_table v')) = count_resident (page_table v)) /\
  (forall (page : page_t) (v v' : vm_state),
     unmap_page page v = Ret v' ->
     num_resident v' = wrap32 (num_resident v - 1) /\
     page_table v' !! page = Some 0).
Proof.
  split; [| split; [| split; [| split; [| split; [| split]]]]].
  - intros h max prior s es Hmax H.
    destruct (fifo_reachable_inv h max prior s es Hmax H). auto.
  - intros h max prior s es Hmax H.
    destruct (clru_reachable_inv h max prior s es Hmax H). auto.
  - intros P alloc page perm s s' H.
    apply map_page_Ret in H as (e & prot & _ & _ & _ & _ & Hcap & _ & _ & _ & ->).
    cbn. auto.
  - intros P. apply map_page_over_cap.
  - intros P alloc page perm s e p' Hlt Hv He Hres Hcap Hstart Hfile Hpol.
    destruct (pageperm_to_mmap_valid perm Hv) as [prot Hprot].
    eexists. split; [apply (map_page_returns alloc page perm prot s e p'); assumption |].
    cbn [vm mapped num_resident page_table]. split; [reflexivity |].
    pose proof (count_resident_insert (page_table (vm s)) page e
                  (with_perm (Z.lor 0 PAGE_RESIDENT) perm) He) as Hc.
    rewrite (is_resident_mapped perm Hv) in Hc.
    rewrite (proj2 (is_resident_false e) Hres) in Hc. lia.
  - intros page v e m Hlt Hnum He Hres Hm Hlen.
    eexists. split; [apply (unmap_page_returns page v e m); assumption |].
    unfold unmapped. cbn [num_resident page_table]. split; [reflexivity |].
    split; [apply list_lookup_insert_eq; eapply lookup_lt_Some; eassumption |].
    pose proof (count_resident_insert (page_table v) page e 0 He) as Hc.
    rewrite (proj2 (is_resident_true e) Hres) in Hc.
    rewrite (proj2 (is_resident_false 0) (Z.land_0_l _)) in Hc. lia.
  - intros page v v' H.
    apply unmap_page_Ret in H as (e & o' & _ & He & _ & _ & _ & ->). cbn.
    split; [reflexivity |]. apply list_lookup_insert_eq.
    eapply lookup_lt_Some. eassumption.
Qed.

(** C1, as the code has it: in every state a run reaches, a page whose
    dirty bit is set has its accessed bit set under FIFO; under CLOCK/LRU it
    has its accessed bit set or its permission is NONE, the state in which
    a tick leaves a page it found accessed. *)
Theorem dirty_implies_accessed_or_rearmed :
  (forall (h : host) (max : Z) (prior s : @sys fifo_policy) (es : list event)
          (page : page_t) (e : Z),
     0 <= max ->
     (s0 ← @vmem_init cfg fifo_policy h max prior; @run cfg fifo_policy es s0) = Ret s ->
     page_table (vm s) !! page = Some e ->
     Z.land e PAGE_DIRTY <> 0 -> Z.land e PAGE_ACCESSED <> 0) /\
  (forall (h : host) (max : Z) (prior s : @sys clru_policy) (es : list event)
          (page : page_t) (e : Z),
     0 <= max ->
     (s0 ← @vmem_init cfg clru_policy h max prior; @run cfg clru_policy es s0) = Ret s ->
     page_table (vm s) !! page = Some e ->
     Z.land e PAGE_DIRTY <> 0 ->
     Z.land e PAGE_ACCESSED <> 0 \/ Z.land e PAGEPERM_MASK = PAGEPERM_NONE).
Proof.
  split.
  - intros h max prior s es page e Hmax H He Hd.
    destruct (fifo_reachable_inv h max prior s es Hmax H) as [_ _ _ HJ].
    destruct (Forall_lookup_1 _ _ _ _ HJ He) as [Hda _]. auto.
  - intros h max prior s es page e Hmax H He Hd.
    destruct (clru_reachable_inv h max prior s es Hmax H) as [_ _ _ HJ].
    destruct (Forall_lookup_1 _ _ _ _ HJ He) as [Hda _]. auto.
Qed.

End HandlerInvariants.

Section InvariantExamples.
#[local] Existing Instance example_config.
#[local] Existing Instance example_config_ok.

(** C1 as stated fails under CLOCK/LRU: after the tick, the entry of page
    0 is 20, dirty and resident with permission NONE, and its accessed bit
    is clear. *)
Lemma dirty_page_not_accessed_after_tick :
  observe (s ← clru_init 2; clru_run write_page0_then_tick s)
    = Some (2, 4, 2, [20; 4; 0; 0; 0; 0; 0; 0]) /\
  Z.land 20 PAGE_DIRTY <> 0 /\ Z.land 20 PAGE_ACCESSED = 0.
Proof. split; [vm_compute; reflexivity | split; [discriminate | reflexivity]]. Qed.

Lemma dirty_implies_accessed_or_rearmed_witness :
  exists s : @sys clru_policy,
    (s ← clru_init 2; clru_run write_page0_then_tick s) = Ret s /\
    forall page e,
      page_table (vm s) !! page = Some e -> Z.land e PAGE_DIRTY <> 0 ->
      Z.land e PAGE_ACCESSED <> 0 \/ Z.land e PAGEPERM_MASK = PAGEPERM_NONE.
Proof.
  destruct (returns_Ret (s ← clru_init 2; clru_run write_page0_then_tick s))
    as (s & Hs); [vm_compute; reflexivity |].
  exists s. split; [exact Hs |]. intros page e.
  apply (proj2 dirty_implies_accessed_or_rearmed all_ok 2 boot s write_page0_then_tick);
    [lia | exact Hs].
Defined.

Lemma num_resident_counts_resident_pages_witness :
  (exists s : @sys fifo_policy,
     (s ← fifo_init 1; fifo_run write_page0_then_load_page1 s) = Ret s /\
     page_table (vm s) !! 0%nat = Some 0 /\
     num_resident (vm s) = Z.of_nat (count_resident (page_table (vm s))) /\
     num_resident (vm s) <= max_resident (vm s)) /\
  (exists v',
     unmap_page 0%nat one_dirty_page = Ret v' /\
     num_resident v' = 0 /\ page_table v' !! 0%nat = Some 0).
Proof.
  split.
  - destruct (returns_Ret (s ← fifo_init 1; fifo_run write_page0_then_load_page1 s))
      as (s & Hs); [vm_compute; reflexivity |].
    assert (Hgone : match (s ← fifo_init 1; fifo_run write_page0_then_load_page1 s) with
                    | Ret s => page_table (vm s) !! 0%nat
                    | Stop _ => None
                    end = Some 0) by (vm_compute; reflexivity).
    rewrite Hs in Hgone.
    exists s. split; [exact Hs |]. split; [exact Hgone |].
    apply (proj1 num_resident_counts_resident_pages all_ok 1 boot s
             write_page0_then_load_page1); [lia | exact Hs].
  - destruct num_resident_counts_resident_pages as (_ & _ & _ & _ & _ & Hunmap & _).
    destruct (Hunmap 0%nat one_dirty_page 31
                (Mapping 3 (replicate PAGE_SIZE Byte.xab)))
      as (v' & Hv' & Hnum & Hentry & _);
      [cbn; lia | cbn; lia | reflexivity | discriminate | reflexivity | reflexivity |].
    exists v'. split; [exact Hv' |]. split; [rewrite Hnum; reflexivity | exact Hentry].
Defined.

End InvariantExamples.

(** ** The fault and load counters *)

Section Counters.
Context `{cfg : config} {Hok : config_ok cfg}.

Lemma fifo_tick_only_ages : tick_only_ages fifo_policy.
Proof. intros p v p' v' H. injection H as <- <-. apply ages_refl. Qed.

Lemma clru_tick_only_ages : tick_only_ages clru_policy.
Proof. intros p v p' v' H. eapply clru_tick_ages. exact H. Qed.

Lemma wrap32_add_l (a b : Z) : wrap32 (wrap32 a + b) = wrap32 (a + b).
Proof. unfold wrap32. apply Zplus_mod_idemp_l. Qed.

Lemma faults_in_app (es1 es2 : list event) :
  faults_in (es1 ++ es2) = (faults_in es1 + faults_in es2)%nat.
Proof.
  induction es1 as [| [? ? ?|] es1 IH]; cbn [app faults_in]; lia.
Qed.

Lemma loads_in_app (es1 es2 : list event) :
  loads_in (es1 ++ es2) = (loads_in es1 + loads_in es2)%nat.
Proof.
  induction es1 as [| [? ? ?|] es1 IH]; cbn [app loads_in]; lia.
Qed.

Lemma faults_in_le (es : list event) : (faults_in es <= length es)%nat.
Proof. induction es as [| [? ? ?|] es IH]; cbn [faults_in length]; lia. Qed.

Lemma loads_in_le (es : list event) : (loads_in es <= faults_in es)%nat.
Proof.
  induction es as [| [? ? code|] es IH]; cbn [faults_in loads_in]; try lia.
  destruct (code =? SEGV_MAPERR); lia.
Qed.

Lemma run_app {P : Policy} (es1 es2 : list event) (s : sys) :
  run (es1 ++ es2) s = (s1 ← run es1 s; run es2 s1).
Proof.
  revert s. induction es1 as [| ev es1 IH]; intros s; [reflexivity |].
  cbn [app run]. destruct (handle ev s); [apply IH | reflexivity].
Qed.

Lemma handle_counters {P : Policy} (ev : event) (s s' : sys) (nf nl : nat) :
  tick_only_ages P ->
  handle ev s = Ret s' ->
  counters_ok (vm s) nf nl ->
  counters_ok (vm s') (nf + faults_in [ev]) (nl + loads_in [ev]).
Proof.
  intros Htick H (Hf & Hl & Ht). unfold counters_ok.
  destruct ev as [alloc addr code |]; cbn [handle] in H.
  - apply sigsegv_handler_Ret in H as (page & _ & Heff).
    cbn [faults_in loads_in].
    assert (Hf' : wrap32 (num_faults (vm s) + 1) = wrap32 (Z.of_nat (nf + 1)))
      by (rewrite Hf, wrap32_add_l; f_equal; lia).
    assert (Hl' : wrap32 (num_loads (vm s) + 1) = wrap32 (Z.of_nat (nl + 1)))
      by (rewrite Hl, wrap32_add_l; f_equal; lia).
    destruct Heff as [pt1 n1 e0 o' -> _ _ _ _ Hd ->
                     | e o' -> _ _ _ Hd ->
                     | e o' -> _ _ _ Hd ->
                     | e -> _ _ _ _ ->];
      cbn [vm num_faults num_loads os os_trace set_num_faults];
      rewrite ?Hd, ?Z.eqb_refl;
      try change (SEGV_ACCERR =? SEGV_MAPERR) with false; cbv iota;
      rewrite ?Nat.add_0_r; repeat split; try assumption; lia.
  - unfold sigalrm_handler in H.
    apply bind_Ret in H as ([p v] & Ht' & H). injection H as <-.
    destruct (Htick _ _ _ _ Ht'). cbn [vm faults_in loads_in].
    rewrite !Nat.add_0_r. repeat split; congruence.
Qed.

Lemma run_counters {P : Policy} (es : list event) (s s' : sys) (nf nl : nat) :
  tick_only_ages P ->
  run es s = Ret s' ->
  counters_ok (vm s) nf nl ->
  counters_ok (vm s') (nf + faults_in es) (nl + loads_in es).
Proof.
  intros Htick. revert s nf nl.
  induction es as [| ev es IH]; intros s nf nl H Hc.
  - injection H as <-. cbn [faults_in loads_in]. rewrite !Nat.add_0_r. assumption.
  - cbn [run] in H. apply bind_Ret in H as (s1 & H1 & H).
    pose proof (handle_counters ev s s1 nf nl Htick H1 Hc) as Hc1.
    specialize (IH s1 _ _ H Hc1).
    change (ev :: es) with ([ev] ++ es).
    rewrite faults_in_app, loads_in_app, !Nat.add_assoc. assumption.
Qed.

Lemma vmem_init_counters {P : Policy} (h : host) (max : Z) (s : sys) :
  vmem_init h max boot = Ret s -> counters_ok (vm s) 0 0.
Proof.
  unfold vmem_init. intros H.
  destruct (policy_init _ _ _) as [r p]. destruct (r =? 0); [discriminate |].
  destruct (open_ok h); [| discriminate]. destruct (unlink_ok h); [| discriminate].
  cbv beta iota zeta in H. unfold os_lseek in H. cbv beta iota in H.
  destruct (_ <? 0); [discriminate |].
  destruct (write_ok h); [| discriminate]. destruct (sigsegv_ok h); [| discriminate].
  destruct (sigalrm_ok h); [| discriminate]. destruct (setitimer_ok h); [| discriminate].
  injection H as <-.
  repeat split.
Qed.

(** The counters of a run of fewer than [2 ^ 32] handlers from the first
    initialization. *)
Lemma counters_of_run {P : Policy} (h : host) (max : Z) (es : list event) (s : sys) :
  tick_only_ages P ->
  (s0 ← vmem_init h max boot; run es s0) = Ret s ->
  Z.of_nat (length es) < 2 ^ 32 ->
  num_faults (vm s) = Z.of_nat (faults_in es) /\
  num_loads (vm s) = Z.of_nat (loads_in es) /\
  loads_done (os_trace (os (vm s))) = loads_in es.
Proof.
  intros Htick H Hlen. apply bind_Ret in H as (s0 & Hinit & Hrun).
  apply vmem_init_counters in Hinit.
  destruct (run_counters es s0 s 0 0 Htick Hrun Hinit) as (Hf & Hl & Ht).
  pose proof (faults_in_le es). pose proof (loads_in_le es).
  cbn [Nat.add] in *. unfold wrap32 in *.
  rewrite Z.mod_small in Hf by lia. rewrite Z.mod_small in Hl by lia. auto.
Qed.

(** C9, as the code has it: in a run of fewer than [2 ^ 32] handlers from
    the first initialization (the statics are zero), under either policy,
    [num_loads] is the number of swap reads made, one per completed
    [map_page]; and from any point [s1] of the run to any later point [s2]
    neither counter decreases, and [num_loads] is at most [num_faults]. *)
Theorem counters_monotone_until_wrap :
  forall (P : Policy), P = fifo_policy \/ P = clru_policy ->
  forall (h : host) (max : Z) (es1 es2 : list event) (s1 s2 : @sys P),
    (s0 ← vmem_init h max boot; run es1 s0) = Ret s1 ->
    run es2 s1 = Ret s2 ->
    Z.of_nat (length (es1 ++ es2)) < 2 ^ 32 ->
    num_loads (vm s1) = Z.of_nat (loads_done (os_trace (os (vm s1)))) /\
    num_faults (vm s1) <= num_faults (vm s2) /\
    num_loads (vm s1) <= num_loads (vm s2) /\
    num_loads (vm s1) <= num_faults (vm s1) /\
    num_loads (vm s2) <= num_faults (vm s2).
Proof.
  intros P HP h max es1 es2 s1 s2 H1 H2 Hlen.
  assert (Htick : tick_only_ages P)
    by (destruct HP as [-> | ->];
        [apply fifo_tick_only_ages | apply clru_tick_only_ages]).
  assert (H12 : (s0 ← vmem_init h max boot; run (es1 ++ es2) s0) = Ret s2).
  { apply bind_Ret in H1 as (s0 & Hinit & Hrun). rewrite Hinit. osimpl.
    rewrite run_app, Hrun. exact H2. }
  rewrite length_app in Hlen.
  destruct (counters_of_run h max es1 s1 Htick H1) as (Hf1 & Hl1 & Ht1); [lia |].
  destruct (counters_of_run h max (es1 ++ es2) s2 Htick H12) as (Hf2 & Hl2 & _);
    [rewrite length_app; lia |].
  rewrite faults_in_app in Hf2. rewrite loads_in_app in Hl2.
  pose proof (loads_in_le es1). pose proof (loads_in_le es2).
  rewrite Hf1, Hl1, Hf2, Hl2, Ht1. repeat split; lia.
Qed.

End Counters.

Section CounterExamples.
Context `{cfg : config} {Hok : config_ok cfg} {P : Policy}.

(** Any number of access-forbidden faults on a read-write page are
    handled, and change nothing but [num_faults]. *)
Lemma repeat_accerr_rdwr (n : nat) (alloc : ptr) (addr : Z) (s : sys) (e : Z) :
  let page := Z.to_nat ((addr - vmem_start (vm s)) / Z.of_nat PAGE_SIZE) in
  vmem_start (vm s) <= addr < vmem_end (vm s) ->
  (page < NUM_PAGES)%nat ->
  page_table (vm s) !! page = Some e ->
  Z.land e PAGE_RESIDENT <> 0 ->
  Z.land e PAGEPERM_MASK = PAGEPERM_RDWR ->
  0 <= num_faults (vm s) < 2 ^ 32 ->
  run (replicate n (Fault alloc addr SEGV_ACCERR)) s =
    Ret (Sys (set_num_faults (wrap32 (num_faults (vm s) + Z.of_nat n)) (vm s)) (ps s)).
Proof.
  intros page. subst page. revert s.
  induction n as [| n IH]; intros s Hrange Hlt He Hres Hperm Hnf.
  - cbn [replicate run]. rewrite Z.add_0_r. unfold wrap32.
    rewrite Z.mod_small by assumption. destruct s as [[] ?]; reflexivity.
  - cbn [replicate run handle].
    rewrite (sigsegv_accerr_rdwr alloc addr s e) by assumption. osimpl.
    rewrite IH; cbn [vm ps set_num_faults vmem_start vmem_end page_table num_faults];
      try assumption.
    + unfold set_num_faults. cbn. rewrite wrap32_add_l.
      replace (num_faults (vm s) + 1 + Z.of_nat n)
        with (num_faults (vm s) + Z.of_nat (S n)) by lia.
      reflexivity.
    + unfold wrap32. apply Z.mod_pos_bound. reflexivity.
Qed.

End CounterExamples.

Section CounterWrap.
#[local] Existing Instance example_config.
#[local] Existing Instance example_config_ok.

Lemma accerr_faults_wrap (n : nat) :
  Z.of_nat n = 2 ^ 32 - 3 ->
  exists s : @sys fifo_policy,
    (s0 ← fifo_init 1;
     fifo_run (load_read_write_page0 ++
               replicate n (Fault None (page_addr 0) SEGV_ACCERR)) s0) = Ret s /\
    num_faults (vm s) = 0 /\ num_loads (vm s) = 1.
Proof.
  intros Hn.
  destruct (returns_Ret (s0 ← fifo_init 1; fifo_run load_read_write_page0 s0))
    as (s3 & Hs3); [vm_compute; reflexivity |].
  assert (Hprobe : (s ← (s0 ← fifo_init 1; fifo_run load_read_write_page0 s0);
                    Ret (probe s))
                   = Ret (VIRTUALMEM_ADDR_START, VIRTUALMEM_ADDR_START + 32768, 3, 1,
                          [31; 0; 0; 0; 0; 0; 0; 0]))
    by (vm_compute; reflexivity).
  rewrite Hs3 in Hprobe. injection Hprobe as Hstart Hend Hnf Hnl Hpt.
  apply bind_Ret in Hs3 as (s0 & Hinit & Hrun).
  exists (Sys (set_num_faults (wrap32 (num_faults (vm s3) + Z.of_nat n)) (vm s3)) (ps s3)).
  split.
  - rewrite Hinit. osimpl. unfold fifo_run in *. rewrite run_app, Hrun. osimpl.
    apply (repeat_accerr_rdwr n None (page_addr 0) s3 31).
    + rewrite Hstart, Hend. vm_compute. split; [discriminate | reflexivity].
    + rewrite Hstart. vm_compute. lia.
    + rewrite Hstart, Hpt. vm_compute. reflexivity.
    + discriminate.
    + reflexivity.
    + rewrite Hnf. vm_compute. split; [discriminate | reflexivity].
  - cbn [vm num_faults num_loads set_num_faults]. rewrite Hnf, Hn.
    split; [reflexivity | assumption].
Qed.

(** C9 as stated fails once [num_faults] wraps around: after page 0 has
    been loaded, read and written (three faults, one load), [2 ^ 32 - 3]
    further faults bring [num_faults] back to 0, below the 3 it was and
    below [num_loads = 1]. *)
Lemma num_faults_wraps_below_num_loads :
  exists s : @sys fifo_policy,
    (s0 ← fifo_init 1;
     fifo_run (load_read_write_page0 ++
               replicate (Z.to_nat (2 ^ 32 - 3))
                 (Fault None (page_addr 0) SEGV_ACCERR)) s0) = Ret s /\
    num_faults (vm s) = 0 /\ num_loads (vm s) = 1.
Proof. apply accerr_faults_wrap. apply Z2Nat.id. discriminate. Qed.

Lemma counters_monotone_until_wrap_witness :
  exists s1 s2 : @sys fifo_policy,
    (s0 ← fifo_init 1; fifo_run [Fault (Some 1%nat) (page_addr 0) SEGV_MAPERR] s0) = Ret s1 /\
    fifo_run [Fault None (page_addr 0) SEGV_ACCERR] s1 = Ret s2 /\
    num_faults (vm s1) <= num_faults (vm s2) /\
    num_loads (vm s2) <= num_faults (vm s2).
Proof.
  destruct (returns_Ret
              (s0 ← fifo_init 1;
               fifo_run [Fault (Some 1%nat) (page_addr 0) SEGV_MAPERR] s0))
    as (s1 & Hs1); [vm_compute; reflexivity |].
  destruct (returns_Ret (fifo_run [Fault None (page_addr 0) SEGV_ACCERR] s1))
    as (s2 & Hs2).
  { assert (Hboth : returns
              (s ← (s0 ← fifo_init 1;
                    fifo_run [Fault (Some 1%nat) (page_addr 0) SEGV_MAPERR] s0);
               fifo_run [Fault None (page_addr 0) SEGV_ACCERR] s) = true)
      by (vm_compute; reflexivity).
    rewrite Hs1 in Hboth. exact Hboth. }
  exists s1, s2. split; [exact Hs1 |]. split; [exact Hs2 |].
  destruct (counters_monotone_until_wrap fifo_policy (or_introl eq_refl) all_ok 1
              [Fault (Some 1%nat) (page_addr 0) SEGV_MAPERR]
              [Fault None (page_addr 0) SEGV_ACCERR] s1 s2 Hs1 Hs2)
    as (_ & Hf & _ & _ & Hl); [cbn; lia | auto].
Defined.

End CounterWrap.

(** ** The FIFO queue as a list *)

Section FifoQueue.

Lemma first_ptr_app (q1 q2 : nodes) (dflt : option nat) :
  first_ptr (q1 ++ q2) dflt = first_ptr q1 (first_ptr q2 dflt).
Proof. destruct q1 as [| [a pg] q1]; reflexivity. Qed.

Lemma last_ptr_snoc (q : nodes) (a pg : nat) (dflt : option nat) :
  last_ptr (q ++ [(a, pg)]) dflt = Some a.
Proof. unfold last_ptr. rewrite last_snoc. reflexivity. Qed.

Lemma last_ptr_cons (x : nat * nat) (q : nodes) (dflt : option nat) :
  q <> [] -> last_ptr (x :: q) dflt = last_ptr q dflt.
Proof.
  intros Hq. unfold last_ptr. destruct q as [| y q]; [congruence |].
  rewrite last_cons_cons. reflexivity.
Qed.

Lemma fifo_chain_frame (h : gmap nat FIFO.page_node) (q : nodes) (a : nat)
    (n : FIFO.page_node) :
  a ∉ q.*1 -> fifo_chain h q -> fifo_chain (<[a := n]> h) q.
Proof.
  induction q as [| [b pg] q IH]; intros Hnotin Hc; [exact I |].
  cbn [fifo_chain] in *. rewrite fmap_cons, not_elem_of_cons in Hnotin.
  cbn [fst] in Hnotin. destruct Hnotin as [Hne Hnotin], Hc as [Hb Hc].
  split; [rewrite lookup_insert_ne by congruence; assumption | auto].
Qed.

Lemma fifo_chain_delete (h : gmap nat FIFO.page_node) (q : nodes) (a : nat) :
  a ∉ q.*1 -> fifo_chain h q -> fifo_chain (delete a h) q.
Proof.
  induction q as [| [b pg] q IH]; intros Hnotin Hc; [exact I |].
  cbn [fifo_chain] in *. rewrite fmap_cons, not_elem_of_cons in Hnotin.
  cbn [fst] in Hnotin. destruct Hnotin as [Hne Hnotin], Hc as [Hb Hc].
  split; [rewrite lookup_delete_ne by congruence; assumption | auto].
Qed.

(** Hanging a new node after the last one. *)
Lemma fifo_chain_snoc (h : gmap nat FIFO.page_node) (q : nodes) (b pb a pg : nat) :
  NoDup (q ++ [(b, pb)]).*1 -> a ∉ (q ++ [(b, pb)]).*1 ->
  fifo_chain h (q ++ [(b, pb)]) ->
  fifo_chain (<[b := FIFO.Node pb (Some a)]> (<[a := FIFO.Node pg None]> h))
             ((q ++ [(b, pb)]) ++ [(a, pg)]).
Proof.
  induction q as [| [c pc] q IH]; intros Hnd Ha Hc.
  - cbn. rewrite lookup_insert_eq.
    rewrite lookup_insert_ne, lookup_insert_eq; [auto |].
    intros ->. apply Ha. simpl. apply list_elem_of_here.
  - cbn [app fifo_chain] in *. rewrite !fmap_cons in *. cbn [fst] in *.
    apply NoDup_cons in Hnd as [Hc_notin Hnd].
    rewrite not_elem_of_cons in Ha. destruct Ha as [Hac Ha], Hc as [Hlc Hc].
    split; [| auto].
    rewrite !first_ptr_app in *. cbn [first_ptr] in *.
    rewrite lookup_insert_ne.
    + rewrite lookup_insert_ne by congruence. assumption.
    + intros ->. apply Hc_notin. rewrite fmap_app. cbn.
      apply elem_of_app. right. apply list_elem_of_here.
Qed.

Lemma fifo_chain_lookup (h : gmap nat FIFO.page_node) (q : nodes) (a pg : nat) :
  fifo_chain h q -> (a, pg) ∈ q -> exists nx, h !! a = Some (FIFO.Node pg nx).
Proof.
  induction q as [| [b pb] q IH]; intros Hc Hin.
  - apply elem_of_nil in Hin. destruct Hin.
  - cbn [fifo_chain] in Hc. destruct Hc as [Hb Hc].
    apply elem_of_cons in Hin as [[= -> ->] | Hin]; eauto.
Qed.

End FifoQueue.

Section FifoPolicy.

Lemma snoc_cases {A} (l : list A) : l = [] \/ exists l0 x, l = l0 ++ [x].
Proof. destruct l as [| x l0 _] using rev_ind; eauto. Qed.

Lemma fifo_chain_app_r (h : gmap nat FIFO.page_node) (q1 q2 : nodes) :
  fifo_chain h (q1 ++ q2) -> fifo_chain h q2.
Proof.
  induction q1 as [| [a pg] q1 IH]; [auto |]. cbn [app fifo_chain]. tauto.
Qed.

Lemma fifo_init_repr (max : Z) :
  fifo_repr (FIFO.policy_init true max FIFO.start).2 [].
Proof.
  split; cbn.
  - eexists. split; [reflexivity |]. split; [reflexivity | congruence].
  - constructor.
  - exact I.
  - intros a _. apply lookup_empty.
Qed.

Lemma fifo_mapped_repr (st : FIFO.pol) (q : nodes) (a pg : nat) :
  fifo_repr st q -> a ∉ q.*1 ->
  exists st', FIFO.policy_page_mapped (Some a) pg st = Ret st' /\
              fifo_repr st' (q ++ [(a, pg)]).
Proof.
  intros [(L & Hl & Hhead & Htail) Hnd Hchain Hrest] Ha.
  unfold FIFO.policy_page_mapped, FIFO.the_loaded. rewrite Hl. osimpl.
  assert (Hnd' : NoDup (q ++ [(a, pg)]).*1).
  { rewrite fmap_app. apply NoDup_app. split; [assumption |].
    split; [| apply NoDup_singleton].
    intros x Hx Hx'. cbn in Hx'. apply list_elem_of_singleton in Hx' as ->. auto. }
  assert (Hrest' : forall h' : gmap nat FIFO.page_node,
                     (forall a', a' ∉ (q ++ [(a, pg)]).*1 -> h' !! a' = FIFO.heap st !! a') ->
                     forall a', a' ∉ (q ++ [(a, pg)]).*1 -> h' !! a' = None).
  { intros h' Hh' a' Ha'. rewrite Hh' by assumption. apply Hrest.
    rewrite fmap_app in Ha'. rewrite not_elem_of_app in Ha'. tauto. }
  destruct (snoc_cases q) as [-> | (q0 & x & ->)].
  - rewrite Hhead. cbn [first_ptr]. eexists. split; [reflexivity |].
    split; cbn [FIFO.loaded FIFO.heap app]; try assumption.
    + eexists. split; [reflexivity |]. split; [reflexivity |]. intros _. reflexivity.
    + cbn. rewrite lookup_insert_eq. auto.
    + apply Hrest'. intros a' Ha'. apply lookup_insert_ne.
      intros ->. apply Ha'. cbn. apply list_elem_of_here.
  - destruct x as [b pb].
    assert (Hb : FIFO.heap st !! b = Some (FIFO.Node pb None)).
    { apply fifo_chain_app_r in Hchain. cbn in Hchain. tauto. }
    assert (Hab : a <> b).
    { intros ->. apply Ha. rewrite fmap_app. apply elem_of_app. right.
      cbn. apply list_elem_of_here. }
    rewrite Hhead, first_ptr_app. cbn [first_ptr].
    assert (Hsome : exists c, first_ptr q0 (Some b) = Some c)
      by (destruct q0 as [| [c pc] q0]; cbn; eauto).
    destruct Hsome as [c Hc]. rewrite Hc.
    rewrite Htail by (destruct q0; discriminate). rewrite last_ptr_snoc.
    unfold FIFO.set_next, FIFO.deref.
    rewrite lookup_insert_ne by assumption. rewrite Hb. osimpl.
    eexists. split; [reflexivity |].
    split; cbn [FIFO.loaded FIFO.heap FIFO.page]; try assumption.
    + eexists. split; [reflexivity |]. cbn [FIFO.head FIFO.tail].
      split.
      * rewrite !first_ptr_app. cbn [first_ptr]. symmetry. assumption.
      * intros _. rewrite last_ptr_snoc. reflexivity.
    + apply fifo_chain_snoc; assumption.
    + apply Hrest'. intros a' Ha'.
      rewrite !fmap_app, !not_elem_of_app in Ha'. cbn in Ha'.
      rewrite !list_elem_of_singleton in Ha'.
      rewrite !lookup_insert_ne by intuition congruence. reflexivity.
Qed.

Lemma fifo_evict_repr (st : FIFO.pol) (q : nodes) (a pg : nat) :
  fifo_repr st ((a, pg) :: q) ->
  exists st', FIFO.choose_and_evict_victim_page st = Ret (pg, st') /\
              fifo_repr st' q.
Proof.
  intros [(L & Hl & Hhead & Htail) Hnd Hchain Hrest].
  cbn [fifo_chain] in Hchain. destruct Hchain as [Ha Hchain].
  rewrite fmap_cons in Hnd. cbn [fst] in Hnd. apply NoDup_cons in Hnd as [Hnotin Hnd].
  unfold FIFO.choose_and_evict_victim_page, FIFO.the_loaded. rewrite Hl. osimpl.
  rewrite Hhead. cbn [first_ptr FIFO.deref]. rewrite Ha. osimpl.
  eexists. split; [reflexivity |].
  split; cbn [FIFO.loaded FIFO.heap FIFO.page FIFO.next]; try assumption.
  - eexists. split; [reflexivity |]. cbn [FIFO.head FIFO.tail].
    split; [reflexivity |]. intros Hq.
    rewrite Htail by discriminate. apply last_ptr_cons. assumption.
  - apply fifo_chain_delete; assumption.
  - intros a' Ha'. destruct (decide (a' = a)) as [-> | Hne].
    + apply lookup_delete_eq.
    + rewrite lookup_delete_ne by congruence. apply Hrest.
      rewrite fmap_cons, not_elem_of_cons. auto.
Qed.

(** The linked queue does what the list does. *)
Lemma fifo_calls_refine (cs : list policy_call) (st : FIFO.pol) (q q' : nodes)
    (victims : list page_t) :
  fifo_repr st q ->
  spec_queue cs q = Some (victims, q') ->
  exists st', fifo_calls cs st = Ret (victims, st') /\ fifo_repr st' q'.
Proof.
  revert st q q' victims.
  induction cs as [| [a pg |] cs IH]; intros st q q' victims Hrepr Hspec.
  - injection Hspec as <- <-. eauto.
  - cbn [spec_queue] in Hspec. case_bool_decide as Hin; [discriminate |].
    destruct (fifo_mapped_repr st q a pg Hrepr Hin) as (st1 & Hst1 & Hrepr1).
    cbn [fifo_calls]. rewrite Hst1. osimpl. eauto.
  - cbn [spec_queue] in Hspec. destruct q as [| [a pg] q]; [discriminate |].
    destruct (spec_queue cs q) as [[vs q'']|] eqn:Hrec; [| discriminate].
    injection Hspec as <- <-.
    destruct (fifo_evict_repr st q a pg Hrepr) as (st1 & Hst1 & Hrepr1).
    destruct (IH st1 q q'' vs Hrepr1 Hrec) as (st2 & Hst2 & Hrepr2).
    cbn [fifo_calls]. rewrite Hst1. osimpl. rewrite Hst2. osimpl. eauto.
Qed.

(** What the list does: the victims come out in the order of mapping. *)
Lemma spec_queue_order (cs : list policy_call) (q q' : nodes) (victims : list page_t) :
  spec_queue cs q = Some (victims, q') ->
  q.*2 ++ mapped_pages cs = victims ++ q'.*2.
Proof.
  revert q q' victims.
  induction cs as [| [a pg |] cs IH]; intros q q' victims Hspec.
  - injection Hspec as <- <-. apply app_nil_r.
  - cbn [spec_queue] in Hspec. case_bool_decide; [discriminate |].
    apply IH in Hspec. rewrite fmap_app, <- app_assoc in Hspec. exact Hspec.
  - cbn [spec_queue] in Hspec. destruct q as [| [a pg] q]; [discriminate |].
    destruct (spec_queue cs q) as [[vs q'']|] eqn:Hrec; [| discriminate].
    injection Hspec as <- <-. apply IH in Hrec.
    cbn [mapped_pages]. rewrite fmap_cons. cbn [snd app]. f_equal. exact Hrec.
Qed.

End FifoPolicy.

(** C8: under FIFO, whatever sequence of [policy_page_mapped] and
    [choose_and_evict_victim_page] calls is made on a freshly initialised
    policy ([malloc] never returning a node still in use, no victim asked of
    an empty queue), every call returns, the victims are those of the
    append-on-map, evict-from-head list, and the victims followed by the
    pages still queued are the mapped pages in the order of mapping.  With
    [max_resident = 3], after pages 0, 1, 2 are mapped the first eviction
    returns page 0 and the next page 1. *)
Theorem fifo_evicts_in_mapping_order :
  (forall (max : Z) (cs : list policy_call) (victims : list page_t) (q : nodes),
     spec_queue cs [] = Some (victims, q) ->
     exists st,
       fifo_calls cs (FIFO.policy_init true max FIFO.start).2 = Ret (victims, st) /\
       fifo_repr st q /\
       mapped_pages cs = victims ++ q.*2) /\
  victims_of (fifo_calls [Mapped 1 0; Mapped 2 1; Mapped 3 2; Evict; Evict]
                (FIFO.policy_init true 3 FIFO.start).2) = Some [0%nat; 1%nat].
Proof.
  split; [| reflexivity].
  intros max cs victims q Hspec.
  destruct (fifo_calls_refine cs _ [] q victims (fifo_init_repr max) Hspec)
    as (st & Hcalls & Hrepr).
  exists st. split; [assumption |]. split; [assumption |].
  apply spec_queue_order in Hspec. exact Hspec.
Qed.

Lemma fifo_evicts_in_mapping_order_witness :
  exists st,
    fifo_calls [Mapped 1 0; Evict; Mapped 1 1; Mapped 2 2; Evict]
      (FIFO.policy_init true 2 FIFO.start).2 = Ret ([0%nat; 1%nat], st) /\
    fifo_repr st [(2%nat, 2%nat)].
Proof.
  destruct (proj1 fifo_evicts_in_mapping_order 2
              [Mapped 1 0; Evict; Mapped 1 1; Mapped 2 2; Evict]
              [0%nat; 1%nat] [(2%nat, 2%nat)])
    as (st & Hcalls & Hrepr & _); [reflexivity |].
  exists st. auto.
Defined.

(** ** The CLOCK/LRU queue as a list *)

Section Segments.

Lemma last_ptr_app (q1 q2 : nodes) (dflt : option nat) :
  last_ptr (q1 ++ q2) dflt = last_ptr q2 (last_ptr q1 dflt).
Proof.
  unfold last_ptr. destruct (snoc_cases q2) as [-> | (q & x & ->)].
  - rewrite app_nil_r. reflexivity.
  - rewrite app_assoc, !last_snoc. reflexivity.
Qed.

Lemma dseg_app (h : gmap nat CLRU.page_node) (p n : option nat) (q1 q2 : nodes) :
  dseg h p (q1 ++ q2) n <->
  dseg h p q1 (first_ptr q2 n) /\ dseg h (last_ptr q1 p) q2 n.
Proof.
  revert p. induction q1 as [| [a pg] q1 IH]; intros p.
  - cbn. tauto.
  - cbn [app dseg]. rewrite IH, first_ptr_app.
    change ((a, pg) :: q1) with ([(a, pg)] ++ q1).
    rewrite (last_ptr_app [(a, pg)] q1). cbn [last_ptr last]. tauto.
Qed.

(** A segment only depends on the nodes it is made of. *)
Lemma dseg_ext (h h' : gmap nat CLRU.page_node) (p n : option nat) (q : nodes) :
  (forall a, a ∈ q.*1 -> h' !! a = h !! a) -> dseg h p q n -> dseg h' p q n.
Proof.
  revert p. induction q as [| [a pg] q IH]; intros p Hsame Hseg; [exact I |].
  cbn [dseg] in *. destruct Hseg as [Ha Hseg]. split.
  - rewrite Hsame; [assumption |]. rewrite fmap_cons. apply list_elem_of_here.
  - apply IH; [| assumption]. intros b Hb. apply Hsame.
    rewrite fmap_cons. apply list_elem_of_further. assumption.
Qed.

Lemma dseg_lookup (h : gmap nat CLRU.page_node) (p n : option nat) (q : nodes) (a : nat) :
  dseg h p q n -> a ∈ q.*1 -> is_Some (h !! a).
Proof.
  revert p. induction q as [| [b pb] q IH]; intros p Hseg Hin.
  - apply elem_of_nil in Hin. destruct Hin.
  - cbn [dseg] in Hseg. destruct Hseg as [Hb Hseg].
    rewrite fmap_cons in Hin. apply elem_of_cons in Hin as [-> | Hin]; eauto.
Qed.

(** [first->prev = p'] *)
Lemma set_prev_first (h : gmap nat CLRU.page_node) (p p' n : option nat)
    (a pg : nat) (q : nodes) :
  NoDup ((a, pg) :: q).*1 ->
  dseg h p ((a, pg) :: q) n ->
  exists h', CLRU.set_prev (Some a) p' h = Ret h' /\
             dseg h' p' ((a, pg) :: q) n /\
             forall x, x <> a -> h' !! x = h !! x.
Proof.
  intros Hnd [Ha Hseg]. rewrite fmap_cons in Hnd. apply NoDup_cons in Hnd as [Hnotin _].
  unfold CLRU.set_prev, CLRU.deref. rewrite Ha. osimpl.
  eexists. split; [reflexivity |]. cbn [CLRU.page CLRU.next]. split.
  - split; [apply lookup_insert_eq |].
    eapply dseg_ext; [| eassumption]. intros b Hb.
    apply lookup_insert_ne. intros ->. auto.
  - intros x Hx. apply lookup_insert_ne. congruence.
Qed.

(** [last->next = n'] *)
Lemma set_next_last (h : gmap nat CLRU.page_node) (p n n' : option nat)
    (a pg : nat) (q : nodes) :
  NoDup (q ++ [(a, pg)]).*1 ->
  dseg h p (q ++ [(a, pg)]) n ->
  exists h', CLRU.set_next (Some a) n' h = Ret h' /\
             dseg h' p (q ++ [(a, pg)]) n' /\
             forall x, x <> a -> h' !! x = h !! x.
Proof.
  intros Hnd Hseg. apply dseg_app in Hseg as [Hq [Ha _]].
  rewrite fmap_app in Hnd. apply NoDup_app in Hnd as (_ & Hdisj & _).
  assert (Hnotin : a ∉ q.*1).
  { intros Hin. apply (Hdisj a Hin). cbn. apply list_elem_of_here. }
  cbn [first_ptr] in *.
  unfold CLRU.set_next, CLRU.deref. rewrite Ha. osimpl.
  eexists. split; [reflexivity |]. cbn [CLRU.page CLRU.prev]. split.
  - apply dseg_app. cbn [first_ptr]. split.
    + eapply dseg_ext; [| eassumption]. intros b Hb.
      apply lookup_insert_ne. intros ->. auto.
    + split; [apply lookup_insert_eq | exact I].
  - intros x Hx. apply lookup_insert_ne. congruence.
Qed.

End Segments.

Section MoveToBack.

Lemma set_next_eq (h : gmap nat CLRU.page_node) (a : nat) (nd : CLRU.page_node)
    (v : option nat) :
  h !! a = Some nd ->
  CLRU.set_next (Some a) v h = Ret (<[a := CLRU.Node (CLRU.page nd) (CLRU.prev nd) v]> h).
Proof. intros H. unfold CLRU.set_next, CLRU.deref. rewrite H. reflexivity. Qed.

Lemma set_prev_eq (h : gmap nat CLRU.page_node) (a : nat) (nd : CLRU.page_node)
    (v : option nat) :
  h !! a = Some nd ->
  CLRU.set_prev (Some a) v h = Ret (<[a := CLRU.Node (CLRU.page nd) v (CLRU.next nd)]> h).
Proof. intros H. unfold CLRU.set_prev, CLRU.deref. rewrite H. reflexivity. Qed.

Lemma get_next_eq (h : gmap nat CLRU.page_node) (a : nat) (nd : CLRU.page_node) :
  h !! a = Some nd -> CLRU.get_next (Some a) h = Ret (CLRU.next nd).
Proof. intros H. unfold CLRU.get_next, CLRU.deref. rewrite H. reflexivity. Qed.

Lemma get_prev_eq (h : gmap nat CLRU.page_node) (a : nat) (nd : CLRU.page_node) :
  h !! a = Some nd -> CLRU.get_prev (Some a) h = Ret (CLRU.prev nd).
Proof. intros H. unfold CLRU.get_prev, CLRU.deref. rewrite H. reflexivity. Qed.

Lemma last_ptr_nonempty (q : nodes) (d d' : option nat) :
  q <> [] -> last_ptr q d = last_ptr q d'.
Proof.
  intros Hq. destruct (snoc_cases q) as [-> | (q0 & [t pt] & ->)]; [congruence |].
  rewrite !last_ptr_snoc. reflexivity.
Qed.

Lemma first_ptr_nonempty (q : nodes) (d d' : option nat) :
  q <> [] -> first_ptr q d = first_ptr q d'.
Proof. destruct q as [| [a pg] q]; [congruence | reflexivity]. Qed.

(** The last three assignments of the relinking: [node] goes after the
    tail of the segment [q]. *)
Lemma hang_after_tail (h : gmap nat CLRU.page_node) (p : option nat) (q : nodes)
    (a pg : nat) (nd : CLRU.page_node) :
  q <> [] -> NoDup (q ++ [(a, pg)]).*1 ->
  dseg h p q None -> h !! a = Some nd -> CLRU.page nd = pg ->
  exists h1 h2 h',
    CLRU.set_prev (Some a) (last_ptr q None) h = Ret h1 /\
    CLRU.set_next (Some a) None h1 = Ret h2 /\
    CLRU.set_next (last_ptr q None) (Some a) h2 = Ret h' /\
    dseg h' p (q ++ [(a, pg)]) None /\
    forall x, x ∉ (q ++ [(a, pg)]).*1 -> h' !! x = h !! x.
Proof.
  intros Hq Hnd Hseg Ha Hpg.
  destruct (snoc_cases q) as [-> | (q0 & [t pt] & ->)]; [congruence |]. clear Hq.
  rewrite last_ptr_snoc.
  assert (Hnd_q : NoDup (q0 ++ [(t, pt)]).*1 /\ a ∉ (q0 ++ [(t, pt)]).*1).
  { rewrite fmap_app in Hnd. apply NoDup_app in Hnd as (Hq & Hdisj & _).
    split; [assumption |]. intros Hin. apply (Hdisj a Hin). cbn. apply list_elem_of_here. }
  destruct Hnd_q as [Hnd_q Hnotin].
  assert (Hat : a <> t).
  { intros ->. apply Hnotin. rewrite fmap_app. apply elem_of_app. right.
    cbn. apply list_elem_of_here. }
  eexists. exists (<[a := CLRU.Node pg (Some t) None]> h).
  set (h2 := <[a := CLRU.Node pg (Some t) None]> h).
  assert (Hseg2 : dseg h2 p (q0 ++ [(t, pt)]) None).
  { eapply dseg_ext; [| eassumption]. intros b Hb.
    apply lookup_insert_ne. intros ->. auto. }
  destruct (set_next_last h2 p None (Some a) t pt q0 Hnd_q Hseg2)
    as (h' & Hh' & Hseg' & Hout).
  exists h'. split; [apply (set_prev_eq h a nd); assumption |].
  split.
  { rewrite (set_next_eq _ a _ None (lookup_insert_eq _ _ _)).
    cbn [CLRU.page CLRU.prev CLRU.next]. rewrite insert_insert_eq, Hpg. reflexivity. }
  split; [assumption |]. split.
  - apply dseg_app. cbn [first_ptr]. split; [assumption |].
    rewrite last_ptr_snoc. split; [| exact I].
    rewrite Hout by assumption. apply lookup_insert_eq.
  - intros x Hx. rewrite !fmap_app, !not_elem_of_app in Hx. cbn in Hx.
    rewrite !list_elem_of_singleton in Hx.
    rewrite Hout by tauto. apply lookup_insert_ne. intuition congruence.
Qed.

Lemma move_to_back_spec (hp : option nat) (L : CLRU.loaded_pages_t)
    (h : gmap nat CLRU.page_node) (q1 q2 : nodes) (a pg : nat) :
  clru_queue hp L h (q1 ++ (a, pg) :: q2) -> q2 <> [] ->
  exists L' h' hp',
    CLRU.move_to_back (Some a) L h = Ret (L', h') /\
    clru_queue hp' L' h' (q1 ++ q2 ++ [(a, pg)]) /\
    (hp = None -> hp' = None) /\
    CLRU.max_resident L' = CLRU.max_resident L /\
    CLRU.num_loaded L' = CLRU.num_loaded L.
Proof.
  intros [Hhead Htail Hnd Hseg] Hq2.
  (* the queue can be taken apart *)
  apply dseg_app in Hseg as [Hseg1 [Ha Hseg2]].
  cbn [first_ptr] in Hseg1.
  assert (Hperm : q1 ++ q2 ++ [(a, pg)] ≡ₚ q1 ++ (a, pg) :: q2).
  { apply Permutation_app_head. symmetry. apply Permutation_cons_append. }
  assert (Hnd' : NoDup (q1 ++ q2 ++ [(a, pg)]).*1) by (rewrite Hperm; assumption).
  rewrite fmap_app, fmap_cons in Hnd. cbn [fst] in Hnd.
  apply NoDup_app in Hnd as (Hnd1 & Hdisj & Hnd2).
  apply NoDup_cons in Hnd2 as [Ha2 Hnd2].
  assert (Ha1 : a ∉ q1.*1) by (intros Hin; apply (Hdisj a Hin), list_elem_of_here).
  assert (Hdisj12 : forall x, x ∈ q1.*1 -> x ∉ q2.*1)
    by (intros x Hx Hx2; apply (Hdisj x Hx), list_elem_of_further, Hx2).
  assert (Hnd2a : NoDup (q2 ++ [(a, pg)]).*1).
  { rewrite fmap_app. apply NoDup_app. split; [assumption |].
    split; [| apply NoDup_singleton].
    intros x Hx Hx'. cbn in Hx'. apply list_elem_of_singleton in Hx' as ->. auto. }
  assert (Htl0 : CLRU.tail L = last_ptr q2 None).
  { rewrite Htail by (destruct q1; discriminate).
    rewrite last_ptr_app.
    change ((a, pg) :: q2) with ([(a, pg)] ++ q2). rewrite last_ptr_app.
    apply last_ptr_nonempty. assumption. }
  clear Htail.
  destruct q2 as [| [b pb] q2']; [congruence |].
  cbn [first_ptr] in Ha. set (q2 := (b, pb) :: q2') in *.
  assert (Hab : a <> b).
  { intros ->. apply Ha2. subst q2. rewrite fmap_cons. apply list_elem_of_here. }
  unfold CLRU.move_to_back.
  destruct (snoc_cases q1) as [-> | (q1' & [c pc] & ->)].
  - (* the node is the head *)
    cbn [app first_ptr last_ptr last] in *.
    rewrite Hhead. rewrite bool_decide_eq_true_2 by reflexivity.
    rewrite (get_next_eq h a _ Ha). osimpl. cbn [CLRU.next].
    destruct (set_prev_first h (Some a) None None b pb q2' Hnd2 Hseg2)
      as (h1 & Hh1 & Hseg2' & Hout1).
    rewrite Hh1. osimpl.
    assert (Ha' : h1 !! a = Some (CLRU.Node pg hp (Some b)))
      by (rewrite Hout1 by assumption; assumption).
    rewrite (get_next_eq h1 a _ Ha'). osimpl. cbn [CLRU.next].
    cbn [CLRU.tail CLRU.set_head].
    destruct (hang_after_tail h1 None q2 a pg _ Hq2 Hnd2a Hseg2' Ha' eq_refl)
      as (h3 & h4 & h' & Hh3 & Hh4 & Hh' & Hseg' & _).
    rewrite Htl0, Hh3. osimpl. rewrite Hh4. osimpl. rewrite Hh'. osimpl.
    eexists _, h', None. split; [reflexivity |].
    split; [| auto]. split; cbn [CLRU.head CLRU.tail CLRU.set_head CLRU.set_tail].
    + reflexivity.
    + intros _. rewrite last_ptr_snoc. reflexivity.
    + assumption.
    + assumption.
  - (* the node is in the middle *)
    assert (Hac : a <> c).
    { intros ->. apply Ha1. rewrite fmap_app. apply elem_of_app. right.
      cbn. apply list_elem_of_here. }
    assert (Hc2 : c ∉ q2.*1).
    { apply Hdisj12. rewrite fmap_app. apply elem_of_app. right.
      cbn. apply list_elem_of_here. }
    rewrite last_ptr_snoc in Ha.
    assert (Hfirst : exists f, first_ptr (q1' ++ [(c, pc)]) (Some a) = Some f /\ f <> a).
    { destruct q1' as [| [f pf] q1'']; cbn; eexists; (split; [reflexivity |]).
      - congruence.
      - intros ->. apply Ha1. cbn. apply list_elem_of_here. }
    destruct Hfirst as (f & Hf & Hfa).
    rewrite first_ptr_app in Hhead. cbn [first_ptr] in Hhead.
    rewrite first_ptr_app in Hf. cbn [first_ptr] in Hf.
    rewrite (first_ptr_nonempty _ (Some a) (Some c)) in Hhead
      by (destruct q1'; discriminate).
    assert (Hhead' : CLRU.head L = Some f).
    { rewrite Hhead. destruct q1' as [| [f' pf'] q1'']; cbn in *; congruence. }
    rewrite Hhead'.
    rewrite bool_decide_eq_false_2 by congruence.
    assert (Htl : exists t, last_ptr q2 None = Some t /\ t <> a).
    { destruct (snoc_cases q2) as [E | (q0 & [t pt] & E)]; [discriminate |].
      rewrite E, last_ptr_snoc. eexists. split; [reflexivity |].
      intros ->. apply Ha2. rewrite E, fmap_app. apply elem_of_app. right.
      cbn. apply list_elem_of_here. }
    destruct Htl as (t & Ht & Hta). rewrite Htl0, Ht.
    rewrite bool_decide_eq_true_2 by congruence.
    rewrite (get_prev_eq h a _ Ha). osimpl.
    rewrite (get_next_eq h a _ Ha). osimpl.
    cbn [CLRU.prev CLRU.next].
    rewrite fmap_app in Hnd1.
    destruct (set_next_last h hp (Some a) (Some b) c pc q1')
      as (h1 & Hh1 & Hseg1' & Hout1); [rewrite fmap_app; assumption | assumption |].
    rewrite Hh1. osimpl.
    assert (Ha' : h1 !! a = Some (CLRU.Node pg (Some c) (Some b)))
      by (rewrite Hout1 by assumption; assumption).
    rewrite (get_next_eq h1 a _ Ha'). osimpl.
    rewrite (get_prev_eq h1 a _ Ha'). osimpl.
    cbn [CLRU.prev CLRU.next].
    assert (Hseg2_1 : dseg h1 (Some a) q2 None).
    { eapply dseg_ext; [| eassumption]. intros x Hx. apply Hout1. congruence. }
    destruct (set_prev_first h1 (Some a) (Some c) None b pb q2' Hnd2 Hseg2_1)
      as (h2 & Hh2 & Hseg2' & Hout2).
    rewrite Hh2. osimpl.
    assert (Ha'' : h2 !! a = Some (CLRU.Node pg (Some c) (Some b)))
      by (rewrite Hout2 by assumption; assumption).
    destruct (hang_after_tail h2 (Some c) q2 a pg _ Hq2 Hnd2a Hseg2' Ha'' eq_refl)
      as (h3 & h4 & h' & Hh3 & Hh4 & Hh' & Hseg' & Hout').
    rewrite Ht in Hh3, Hh'. rewrite Htl0, Ht, Hh3. osimpl.
    rewrite Hh4. osimpl. rewrite Hh'. osimpl.
    eexists _, h', hp. split; [reflexivity |].
    split; [| auto]. split; cbn [CLRU.head CLRU.tail CLRU.set_tail].
    + rewrite Hhead', <- app_assoc, first_ptr_app. cbn [app first_ptr].
      destruct q1' as [| [f' pf'] q1'']; cbn in *; congruence.
    + intros _. rewrite !app_assoc, last_ptr_snoc. reflexivity.
    + assumption.
    + apply dseg_app. split.
      * rewrite first_ptr_app. cbn [first_ptr].
        eapply dseg_ext; [| exact Hseg1']. intros x Hx.
        rewrite Hout'.
        -- apply Hout2. intros ->. apply (Hdisj12 b Hx).
           subst q2. rewrite fmap_cons. apply list_elem_of_here.
        -- rewrite fmap_app, not_elem_of_app. split.
           ++ apply Hdisj12. assumption.
           ++ cbn. rewrite list_elem_of_singleton. intros ->.
              apply Ha1. assumption.
      * rewrite last_ptr_snoc. assumption.
Qed.

End MoveToBack.

(** ** The timer tick of CLOCK/LRU *)

Section TickWalk.
Context `{cfg : config} {Hok : config_ok cfg}.

Lemma tick_loop_walk (rest kept moved : nodes) (hp : option nat)
    (L : CLRU.loaded_pages_t) (h : gmap nat CLRU.page_node) (v : vm_state)
    (kept' moved' : nodes) (v' : vm_state) :
  clru_queue hp L h (kept ++ rest ++ moved) ->
  walk kept moved rest v = Ret (kept', moved', v') ->
  exists L' h' hp',
    CLRU.tick_loop (length rest) (first_ptr (rest ++ moved) None) L h v
      = Ret (L', h', v') /\
    clru_queue hp' L' h' (kept' ++ moved') /\
    (hp = None -> hp' = None) /\
    CLRU.max_resident L' = CLRU.max_resident L /\
    CLRU.num_loaded L' = CLRU.num_loaded L.
Proof.
  revert kept moved hp L h v.
  induction rest as [| [a pg] rest IH]; intros kept moved hp L h v Hq Hwalk.
  - injection Hwalk as <- <- <-. exists L, h, hp. cbn [length CLRU.tick_loop app] in *.
    auto.
  - cbn [walk] in Hwalk. cbn [length CLRU.tick_loop app first_ptr].
    pose proof (cq_nodes _ _ _ _ Hq) as Hseg.
    apply dseg_app in Hseg as [_ Hseg]. cbn [app dseg] in Hseg.
    destruct Hseg as [Ha _].
    unfold CLRU.deref. rewrite Ha. osimpl. cbn [CLRU.page CLRU.next].
    apply bind_Ret in Hwalk as (acc & Hacc & Hwalk). rewrite Hacc. osimpl.
    destruct (negb (acc =? 0)).
    + apply bind_Ret in Hwalk as (v1 & Hv1 & Hwalk). rewrite Hv1. osimpl.
      apply bind_Ret in Hwalk as (v2 & Hv2 & Hwalk). rewrite Hv2. osimpl.
      destruct (rest ++ moved) as [| x q2] eqn:Hq2; [discriminate |].
      rewrite <- Hq2 in *.
      assert (Hne : rest ++ moved <> []) by (rewrite Hq2; discriminate).
      destruct (move_to_back_spec hp L h kept (rest ++ moved) a pg Hq Hne)
        as (L1 & h1 & hp1 & Hmove & Hq1 & Hhp1 & Hmax1 & Hnum1).
      rewrite Hmove. osimpl.
      rewrite <- (app_assoc rest moved) in Hq1.
      destruct (IH kept (moved ++ [(a, pg)]) hp1 L1 h1 v2 Hq1 Hwalk)
        as (L' & h' & hp' & Hloop & Hq' & Hhp' & Hmax' & Hnum').
      rewrite (app_assoc rest moved), first_ptr_app in Hloop.
      rewrite (first_ptr_nonempty _ _ None) in Hloop by assumption.
      exists L', h', hp'. split; [assumption |]. split; [assumption |].
      split; [auto |]. split; congruence.
    + assert (Hq1 : clru_queue hp L h ((kept ++ [(a, pg)]) ++ rest ++ moved))
        by (rewrite <- app_assoc; exact Hq).
      destruct (IH (kept ++ [(a, pg)]) moved hp L h v Hq1 Hwalk)
        as (L' & h' & hp' & Hloop & Hq' & Hhp' & Hmax' & Hnum').
      exists L', h', hp'. auto.
Qed.

End TickWalk.

Section TickPages.
Context `{cfg : config} {Hok : config_ok cfg}.

Lemma age_page_run (v : vm_state) (pg : page_t) :
  page_ready v pg ->
  exists v1, clear_page_accessed pg v = Ret v1 /\
             set_page_permission pg PAGEPERM_NONE v1 = Ret (age_page v pg).
Proof.
  intros (Hlt & [e He] & [m Hm]). unfold age_page. rewrite He, Hm.
  eexists. split.
  - apply clear_page_accessed_Ret. eauto.
  - apply set_page_permission_Ret. split; [assumption |].
    split; [apply valid_perm_none |].
    exists (Z.land e (Z.lnot PAGE_ACCESSED)), m, PROT_NONE.
    cbn [set_page_table page_table os vmem_start].
    split; [apply list_lookup_insert_eq; eapply lookup_lt_Some; eassumption |].
    split; [assumption |]. split; [apply pageperm_to_mmap_none | reflexivity].
Qed.

Lemma age_page_table (v : vm_state) (pg : page_t) (e : Z) :
  page_ready v pg -> page_table v !! pg = Some e ->
  page_table (age_page v pg) = <[pg := rearmed e]> (page_table v).
Proof.
  intros (_ & _ & [m Hm]) He. unfold age_page. rewrite He, Hm. cbn.
  apply list_insert_insert_eq.
Qed.

Lemma age_page_trace (v : vm_state) (pg : page_t) :
  page_ready v pg ->
  os_trace (os (age_page v pg))
  = SysMprotect (vmem_start v + Z.of_nat (pg * PAGE_SIZE)) PROT_NONE 0
      :: os_trace (os v).
Proof.
  intros (_ & [e He] & [m Hm]). unfold age_page. rewrite He, Hm. reflexivity.
Qed.

Lemma age_page_start (v : vm_state) (pg : page_t) :
  vmem_start (age_page v pg) = vmem_start v.
Proof. unfold age_page. repeat case_match; reflexivity. Qed.

Lemma age_page_ready (v : vm_state) (pg pg' : page_t) :
  page_ready v pg -> page_ready v pg' -> page_ready (age_page v pg) pg'.
Proof.
  intros Hr (Hlt' & He' & Hm'). pose proof Hr as (_ & [e He] & [m Hm]).
  split; [assumption |]. split.
  - rewrite (age_page_table v pg e) by assumption.
    apply lookup_lt_is_Some. rewrite length_insert. apply lookup_lt_is_Some. assumption.
  - rewrite age_page_start. unfold age_page. rewrite He, Hm. cbn.
    destruct (decide (vmem_start v + Z.of_nat (pg * PAGE_SIZE)
                      = vmem_start v + Z.of_nat (pg' * PAGE_SIZE))) as [E | E].
    + rewrite E, lookup_insert_eq. eauto.
    + rewrite lookup_insert_ne by assumption. assumption.
Qed.

Lemma age_page_accessedb (v : vm_state) (pg pg' : page_t) :
  page_ready v pg -> pg' <> pg -> accessedb (age_page v pg) pg' = accessedb v pg'.
Proof.
  intros Hr Hne. pose proof Hr as (_ & [e He] & _). unfold accessedb.
  rewrite (age_page_table v pg e) by assumption.
  rewrite list_lookup_insert_ne by congruence. reflexivity.
Qed.

Lemma is_page_accessed_ready (v : vm_state) (pg : page_t) :
  page_ready v pg ->
  exists acc, is_page_accessed pg v = Ret acc /\ negb (acc =? 0) = accessedb v pg.
Proof.
  intros (Hlt & [e He] & _). exists (Z.land e PAGE_ACCESSED).
  split; [apply is_page_accessed_eq; assumption |].
  unfold accessedb. rewrite He. reflexivity.
Qed.

(** The walk of the list, for distinct ready pages: the accessed nodes
    move behind the others, in order, and their pages are dealt with one
    by one. *)
Lemma walk_spec (rest kept moved : nodes) (v : vm_state) :
  NoDup rest.*2 ->
  (forall pg, pg ∈ rest.*2 -> page_ready v pg) ->
  moved <> [] \/ tail_rule rest v ->
  walk kept moved rest v =
    Ret (kept ++ List.filter (fun x => negb (accessedb v x.2)) rest,
         moved ++ List.filter (fun x => accessedb v x.2) rest,
         foldl age_page v (List.filter (fun x => accessedb v x.2) rest).*2).
Proof.
  revert kept moved v.
  induction rest as [| [a pg] rest IH]; intros kept moved v Hnd Hready Hrule.
  - cbn. rewrite !app_nil_r. reflexivity.
  - rewrite fmap_cons in Hnd. cbn [snd] in Hnd. apply NoDup_cons in Hnd as [Hpg Hnd].
    assert (Hr : page_ready v pg) by (apply Hready; rewrite fmap_cons; apply list_elem_of_here).
    assert (Hready' : forall pg', pg' ∈ rest.*2 -> page_ready v pg')
      by (intros pg' Hin; apply Hready; rewrite fmap_cons; apply list_elem_of_further, Hin).
    cbn [walk List.filter snd].
    destruct (is_page_accessed_ready v pg Hr) as (acc & Hacc & Hb).
    rewrite Hacc. osimpl. rewrite Hb.
    destruct (accessedb v pg) eqn:Hpgacc; cbn [negb].
    + destruct (age_page_run v pg Hr) as (v1 & Hv1 & Hv2).
      rewrite Hv1. osimpl. rewrite Hv2. osimpl.
      assert (Hne : rest ++ moved <> []).
      { destruct Hrule as [Hm | Hrule].
        - destruct rest; [rewrite app_nil_l; assumption | discriminate].
        - destruct rest as [| y rest']; [| discriminate].
          destruct (Hrule [] (a, pg) eq_refl Hpgacc) as (y & Hy & _).
          apply elem_of_nil in Hy. destruct Hy. }
      destruct (rest ++ moved) as [| x q2] eqn:Hq2; [congruence |].
      rewrite IH.
      * assert (Hsame : forall x : nat * nat, In x rest ->
                          accessedb (age_page v pg) x.2 = accessedb v x.2).
        { intros y Hy. apply age_page_accessedb; [assumption |].
          intros E. apply Hpg. rewrite <- E.
          apply list_elem_of_fmap. exists y. split; [reflexivity |].
          apply list_elem_of_In. assumption. }
        rewrite (List.filter_ext_in _ _ _ Hsame).
        rewrite (List.filter_ext_in (fun x => negb (accessedb (age_page v pg) x.2))
                   (fun x => negb (accessedb v x.2))).
        -- rewrite <- !app_assoc. reflexivity.
        -- intros y Hy. rewrite Hsame by assumption. reflexivity.
      * assumption.
      * intros pg' Hin. apply age_page_ready; auto.
      * left. destruct moved; discriminate.
    + rewrite IH; try assumption.
      * rewrite <- !app_assoc. reflexivity.
      * destruct Hrule as [Hm | Hrule]; [left; assumption | right].
        intros q0 x -> Hx.
        destruct (Hrule ((a, pg) :: q0) x eq_refl Hx) as (y & Hy & Hyacc).
        apply elem_of_cons in Hy as [-> | Hy]; [| eauto].
        cbn in Hyacc. congruence.
Qed.

End TickPages.

Section TickClaim.
Context `{cfg : config} {Hok : config_ok cfg}.

Lemma aged_pages (ps : list page_t) (v : vm_state) :
  NoDup ps -> (forall pg, pg ∈ ps -> page_ready v pg) ->
  (forall pg, pg ∉ ps -> page_table (foldl age_page v ps) !! pg = page_table v !! pg) /\
  (forall pg e, pg ∈ ps -> page_table v !! pg = Some e ->
                page_table (foldl age_page v ps) !! pg = Some (rearmed e)) /\
  os_trace (os (foldl age_page v ps)) = rev (map (rearm_call v) ps) ++ os_trace (os v).
Proof.
  revert v. induction ps as [| p ps IH]; intros v Hnd Hready.
  - cbn. split; [auto |]. split; [| reflexivity].
    intros pg e Hin. apply elem_of_nil in Hin. destruct Hin.
  - apply NoDup_cons in Hnd as [Hp Hnd].
    assert (Hr : page_ready v p) by (apply Hready, list_elem_of_here).
    pose proof Hr as (_ & [ep Hep] & _).
    destruct (IH (age_page v p) Hnd) as (Hout & Hin & Htrace).
    { intros pg Hpg. apply age_page_ready; [assumption |].
      apply Hready, list_elem_of_further, Hpg. }
    cbn [foldl]. split; [| split].
    + intros pg Hpg. apply not_elem_of_cons in Hpg as [Hne Hpg].
      rewrite Hout by assumption. rewrite (age_page_table v p ep) by assumption.
      apply list_lookup_insert_ne. congruence.
    + intros pg e Hpg He. apply elem_of_cons in Hpg as [-> | Hpg].
      * rewrite Hout by assumption. rewrite (age_page_table v p ep) by assumption.
        assert (e = ep) as -> by congruence.
        apply list_lookup_insert_eq. eapply lookup_lt_Some. eassumption.
      * apply Hin; [assumption |].
        rewrite (age_page_table v p ep) by assumption.
        rewrite list_lookup_insert_ne; [assumption |].
        intros ->. auto.
    + rewrite Htrace, (age_page_trace v p Hr). cbn [map rev].
      rewrite <- app_assoc. cbn [app]. f_equal.
      * f_equal. apply map_ext. intros pg. unfold rearm_call.
        rewrite age_page_start. reflexivity.
Qed.

Lemma rearmed_bits (e : Z) :
  Z.land (rearmed e) PAGE_ACCESSED = 0 /\
  Z.land (rearmed e) PAGEPERM_MASK = PAGEPERM_NONE.
Proof.
  unfold rearmed. rewrite with_perm_perm by apply none_in_mask.
  rewrite with_perm_flag by auto using none_in_mask, accessed_mask.
  rewrite land_clear_same. auto.
Qed.

(** X19: the CLOCK/LRU tick on a queue that obeys the tail rule.  Take a
    well-formed queue whose nodes hold distinct pages, all mapped, and in
    which, if the page of the last node is accessed, the page of an earlier
    node is accessed too.  With fewer than two nodes the tick returns at
    once and changes nothing.  With two or more it returns, and has dealt
    with the nodes whose pages were accessed, each once and in queue order:
    their accessed bits are clear and their permission is NONE (one
    mprotect each), the other entries are as before, and the queue is
    again a well-formed list, the nodes that were not accessed in their old
    order followed by the accessed ones in theirs. *)
Theorem clru_tick_moves_accessed_to_tail
    (hp : option nat) (st : CLRU.pol) (q : nodes) (v : vm_state) :
  let moved := List.filter (fun x => accessedb v x.2) q in
  let kept := List.filter (fun x => negb (accessedb v x.2)) q in
  clru_repr hp st q ->
  NoDup q.*2 ->
  (forall pg, pg ∈ q.*2 -> page_ready v pg) ->
  ((2 <= length q)%nat -> tail_rule q v) ->
  exists st' v',
    CLRU.policy_timer_tick st v = Ret (st', v') /\
    ((length q < 2)%nat -> st' = st /\ v' = v) /\
    ((2 <= length q)%nat ->
     (exists hp', clru_repr hp' st' (kept ++ moved) /\ (hp = None -> hp' = None)) /\
     (forall a pg, (a, pg) ∈ moved ->
        is_page_accessed pg v' = Ret 0 /\
        get_page_permission pg v' = Ret PAGEPERM_NONE) /\
     (forall pg, pg ∉ moved.*2 -> page_table v' !! pg = page_table v !! pg) /\
     os_trace (os v') = rev (map (rearm_call v) moved.*2) ++ os_trace (os v)).
Proof.
  intros moved kept [(L & Hl & Hnum & Hq)] Hnd Hready Hrule.
  unfold CLRU.policy_timer_tick, CLRU.the_loaded. rewrite Hl. osimpl. rewrite Hnum.
  destruct (Nat.lt_ge_cases (length q) 2) as [Hshort | Hlong].
  - exists st, v.
    assert (Hguard : (Z.of_nat (length q) =? 0) || (Z.of_nat (length q) =? 1) = true)
      by lia.
    rewrite Hguard. split; [reflexivity |]. split; [auto | lia].
  - assert (Hguard : (Z.of_nat (length q) =? 0) || (Z.of_nat (length q) =? 1) = false)
      by lia.
    rewrite Hguard, Nat2Z.id.
    pose proof (walk_spec q [] [] v Hnd Hready (or_intror (Hrule Hlong))) as Hwalk.
    cbn [app] in Hwalk. fold moved kept in Hwalk.
    assert (Hq0 : clru_queue hp L (CLRU.heap st) ([] ++ q ++ []))
      by (rewrite app_nil_r; exact Hq).
    destruct (tick_loop_walk q [] [] hp L (CLRU.heap st) v _ _ _ Hq0 Hwalk)
      as (L' & h' & hp' & Hloop & Hq' & Hhp' & _ & Hnum').
    rewrite app_nil_r, (cq_head _ _ _ _ Hq) in *. rewrite Hloop. osimpl.
    eexists _, _. split; [reflexivity |]. split; [lia |]. intros _.
    assert (Hmoved_in : forall x, x ∈ moved -> x ∈ q /\ accessedb v x.2 = true).
    { intros x Hx. apply list_elem_of_In, List.filter_In in Hx as [Hx Hacc].
      split; [apply list_elem_of_In; assumption | assumption]. }
    assert (Hnd_moved : NoDup moved.*2).
    { clear -Hnd. subst moved. induction q as [| x q IH]; [constructor |].
      rewrite fmap_cons in Hnd. apply NoDup_cons in Hnd as [Hx Hnd]. cbn [List.filter].
      destruct (accessedb v x.2); [| auto].
      rewrite fmap_cons. apply NoDup_cons. split; [| auto].
      intros Hin. apply Hx. apply list_elem_of_fmap in Hin as (y & -> & Hy).
      apply list_elem_of_fmap. exists y. split; [reflexivity |].
      apply list_elem_of_In, List.filter_In in Hy as [Hy _].
      apply list_elem_of_In. assumption. }
    assert (Hready_moved : forall pg, pg ∈ moved.*2 -> page_ready v pg).
    { intros pg Hpg. apply Hready. apply list_elem_of_fmap in Hpg as (y & -> & Hy).
      apply list_elem_of_fmap. exists y. split; [reflexivity |].
      apply Hmoved_in. assumption. }
    destruct (aged_pages moved.*2 v Hnd_moved Hready_moved) as (Hout & Hin & Htrace).
    split; [| split; [| split]].
    + exists hp'. split; [| assumption]. split. exists L'.
      split; [reflexivity |]. split; [| exact Hq'].
      rewrite Hnum', Hnum. f_equal.
      rewrite length_app. subst kept moved. clear.
      induction q as [| x q IH]; [reflexivity |]. cbn [List.filter length].
      destruct (accessedb v x.2); cbn [negb length]; lia.
    + intros a pg Hx.
      assert (Hpg : pg ∈ moved.*2)
        by (apply list_elem_of_fmap; exists (a, pg); auto).
      destruct (Hready_moved pg Hpg) as (Hlt & [e He] & _).
      specialize (Hin pg e Hpg He). destruct (rearmed_bits e) as [Hacc Hperm].
      split.
      * rewrite (is_page_accessed_eq pg _ (rearmed e)) by assumption.
        rewrite Hacc. reflexivity.
      * rewrite (get_page_permission_eq pg _ (rearmed e)) by assumption.
        rewrite Hperm. reflexivity.
    + exact Hout.
    + exact Htrace.
Qed.

End TickClaim.

Section TickExamples.
#[local] Existing Instance example_config.
#[local] Existing Instance example_config_ok.

(** A queue of one node is not visited: page 0 is the only resident page
    and its accessed bit is set (entry 13); the tick returns at once, and
    the entry is still 13. *)
Lemma tick_skips_single_node :
  observe (s ← clru_init 1;
           clru_run [Fault (Some 1%nat) (page_addr 0) SEGV_MAPERR;
                     Fault None (page_addr 0) SEGV_ACCERR] s)
    = Some (1, 2, 1, [13; 0; 0; 0; 0; 0; 0; 0]) /\
  observe (s ← clru_init 1;
           clru_run [Fault (Some 1%nat) (page_addr 0) SEGV_MAPERR;
                     Fault None (page_addr 0) SEGV_ACCERR;
                     Tick] s)
    = Some (1, 2, 1, [13; 0; 0; 0; 0; 0; 0; 0]) /\
  Z.land 13 PAGE_ACCESSED <> 0.
Proof.
  split; [vm_compute; reflexivity |]. split; [vm_compute; reflexivity | discriminate].
Qed.

(** C2: the tick breaks the queue when the page of the last node is the
    only one accessed.  On the example build with room for two pages, pages
    0 and 1 are loaded, page 1 is read and the timer ticks.  The handlers
    return; the tick has visited the node of page 1, whose entry has lost
    the accessed bit and all permission (13 has become 4), but the node was
    the tail when the walk reached it, so it was not unlinked, and hanging
    it after the tail has made it its own predecessor and successor: the
    policy's state holds no queue any more, well-formed or with a stale
    [prev] at its head. *)
Theorem tick_ties_accessed_tail_to_itself :
  exists s : @sys clru_policy,
    (s ← clru_init 2; clru_run read_last_then_tick s) = Ret s /\
    page_table (vm s) !! 1%nat = Some 4 /\
    CLRU.loaded (clru_state s) = Some (CLRU.Loaded 2 2 (Some 1%nat) (Some 2%nat)) /\
    CLRU.heap (clru_state s) !! 1%nat = Some (CLRU.Node 0 None (Some 2%nat)) /\
    CLRU.heap (clru_state s) !! 2%nat = Some (CLRU.Node 1 (Some 2%nat) (Some 2%nat)) /\
    forall hp q, ~ clru_repr hp (clru_state s) q.
Proof.
  destruct (returns_Ret (s ← clru_init 2; clru_run read_last_then_tick s))
    as (s & Hs); [vm_compute; reflexivity |].
  assert (Hseen : match (s ← clru_init 2; clru_run read_last_then_tick s) with
                  | Ret s => (page_table (vm s) !! 1%nat, CLRU.loaded (clru_state s),
                              CLRU.heap (clru_state s) !! 1%nat,
                              CLRU.heap (clru_state s) !! 2%nat)
                  | Stop _ => (None, None, None, None)
                  end
                  = (Some 4, Some (CLRU.Loaded 2 2 (Some 1%nat) (Some 2%nat)),
                     Some (CLRU.Node 0 None (Some 2%nat)),
                     Some (CLRU.Node 1 (Some 2%nat) (Some 2%nat))))
    by (vm_compute; reflexivity).
  rewrite Hs in Hseen. injection Hseen as Hentry Hloaded Hfirst Hlast.
  exists s. repeat (split; [assumption |]).
  intros hp q [(L & HL & Hnum & [Hhead _ _ Hnodes])].
  rewrite Hloaded in HL. injection HL as <-. cbn [CLRU.num_loaded CLRU.head] in *.
  destruct q as [| [a1 p1] [| [a2 p2] [| x q]]]; cbn [length] in Hnum; try lia.
  cbn [first_ptr dseg] in *. injection Hhead as <-.
  destruct Hnodes as (H1 & H2 & _).
  rewrite Hfirst in H1. injection H1 as _ _ <-.
  rewrite Hlast in H2. discriminate H2.
Qed.

(** From there on the queue is not a list any more: after one more load
    and one more tick, the node of page 2 is out of reach of [head] while
    [num_loaded] still counts it, and the tick after that walks off the end
    of the queue. *)
Lemma tick_after_self_loop_crashes :
  observe (s ← clru_init 3; clru_run read_last_then_tick_twice s)
    = Some (3, 5, 3, [4; 4; 4; 0; 0; 0; 0; 0]) /\
  (s ← clru_init 3; clru_run (read_last_then_tick_twice ++ [Tick]) s)
    = Stop Crashed.
Proof. split; vm_compute; reflexivity. Qed.

Lemma two_node_queue_repr :
  clru_repr None two_node_queue [(1%nat, 0%nat); (2%nat, 1%nat)].
Proof.
  split. eexists. split; [reflexivity |]. split; [reflexivity |].
  split.
  - reflexivity.
  - intros _. reflexivity.
  - cbn. apply NoDup_cons. split; [| apply NoDup_singleton].
    intros H. apply list_elem_of_singleton in H. discriminate.
  - cbn. repeat split; vm_compute; reflexivity.
Qed.

Lemma clru_tick_moves_accessed_to_tail_witness :
  exists st' v',
    CLRU.policy_timer_tick two_node_queue first_page_read = Ret (st', v') /\
    clru_repr None st' [(2%nat, 1%nat); (1%nat, 0%nat)] /\
    is_page_accessed 0 v' = Ret 0.
Proof.
  destruct (clru_tick_moves_accessed_to_tail None two_node_queue
              [(1%nat, 0%nat); (2%nat, 1%nat)] first_page_read)
    as (st' & v' & Htick & _ & Hlong).
  - exact two_node_queue_repr.
  - cbn. apply NoDup_cons. split; [| apply NoDup_singleton].
    intros H. apply list_elem_of_singleton in H. discriminate.
  - intros pg Hpg. cbn in Hpg.
    apply elem_of_cons in Hpg as [-> | Hpg];
      [| apply list_elem_of_singleton in Hpg as ->].
    + split; [cbn; lia |]. split; eexists; vm_compute; reflexivity.
    + split; [cbn; lia |]. split; eexists; vm_compute; reflexivity.
  - intros _ q0 x Hq Hacc.
    change [(1%nat, 0%nat); (2%nat, 1%nat)]
      with ([(1%nat, 0%nat)] ++ [(2%nat, 1%nat)]) in Hq.
    apply app_inj_tail in Hq as [_ <-]. discriminate Hacc.
  - destruct Hlong as ((hp' & Hrepr & Hhp') & Hbits & _); [cbn; lia |].
    exists st', v'. split; [exact Htick |].
    rewrite (Hhp' eq_refl) in Hrepr. split; [exact Hrepr |].
    apply (Hbits 1%nat 0%nat). apply list_elem_of_here.
Defined.

End TickExamples.

(** ** Recording a mapped page *)

Section PageMapped.

Lemma fifo_chain_allocated (h : gmap nat FIFO.page_node) (q : nodes) (a : nat) :
  fifo_chain h q -> a ∈ q.*1 -> is_Some (h !! a).
Proof.
  intros Hc Hin. apply list_elem_of_fmap in Hin as ([a' pg] & -> & Hin).
  destruct (fifo_chain_lookup h q a' pg Hc Hin) as [nx Hnx]. eauto.
Qed.

Lemma clru_mapped_repr (hp : option nat) (st : CLRU.pol) (q : nodes) (a pg : nat) :
  clru_repr hp st q -> CLRU.heap st !! a = None ->
  exists st' hp',
    CLRU.policy_page_mapped (Some a) pg st = Ret st' /\
    clru_repr hp' st' (q ++ [(a, pg)]) /\
    (hp = None -> hp' = None).
Proof.
  intros [(L & Hl & Hnum & [Hhead Htail Hnd Hseg])] Hfresh.
  assert (Hnotin : a ∉ q.*1).
  { intros Hin. destruct (dseg_lookup _ _ _ _ a Hseg Hin) as [x Hx]. congruence. }
  assert (Hnd' : NoDup (q ++ [(a, pg)]).*1).
  { rewrite fmap_app. apply NoDup_app. split; [assumption |].
    split; [| apply NoDup_singleton].
    intros x Hx Hx'. cbn in Hx'. apply list_elem_of_singleton in Hx' as ->. auto. }
  assert (Hlen : CLRU.num_loaded L + 1 = Z.of_nat (length (q ++ [(a, pg)])))
    by (rewrite length_app, Hnum; cbn [length]; lia).
  unfold CLRU.policy_page_mapped, CLRU.the_loaded. rewrite Hl. osimpl.
  set (h0 := <[a := CLRU.Node pg None None]> (CLRU.heap st)).
  assert (Ha0 : h0 !! a = Some (CLRU.Node pg None None)) by apply lookup_insert_eq.
  destruct (snoc_cases q) as [-> | (q0 & [t pt] & ->)].
  - rewrite Hhead. cbn [first_ptr]. osimpl.
    eexists _, None. split; [reflexivity |]. split; [| auto].
    split. eexists. split; [reflexivity |].
    cbn [CLRU.num_loaded CLRU.set_num_loaded CLRU.set_tail CLRU.set_head CLRU.heap].
    split; [exact Hlen |].
    split; cbn [CLRU.head CLRU.tail CLRU.set_num_loaded CLRU.set_tail CLRU.set_head app].
    + reflexivity.
    + intros _. reflexivity.
    + assumption.
    + cbn. auto.
  - assert (Hsome : exists c, first_ptr (q0 ++ [(t, pt)]) None = Some c)
      by (destruct q0 as [| [c pc] q0]; cbn; eauto).
    destruct Hsome as [c Hc]. rewrite Hhead, Hc.
    rewrite Htail by (destruct q0; discriminate). rewrite last_ptr_snoc.
    rewrite (set_prev_eq h0 a _ (Some t) Ha0). osimpl.
    cbn [CLRU.page CLRU.next]. unfold h0. rewrite insert_insert_eq.
    set (h1 := <[a := CLRU.Node pg (Some t) None]> (CLRU.heap st)).
    assert (Hseg1 : dseg h1 hp (q0 ++ [(t, pt)]) None).
    { eapply dseg_ext; [| eassumption]. intros b Hb.
      apply lookup_insert_ne. intros ->. auto. }
    destruct (set_next_last h1 hp None (Some a) t pt q0 Hnd Hseg1)
      as (h2 & Hh2 & Hseg2 & Hout).
    rewrite Hh2. osimpl.
    assert (Hat : a <> t).
    { intros ->. apply Hnotin. rewrite fmap_app. apply elem_of_app. right.
      cbn. apply list_elem_of_here. }
    eexists _, hp. split; [reflexivity |]. split; [| auto].
    split. eexists. split; [reflexivity |].
    cbn [CLRU.num_loaded CLRU.set_num_loaded CLRU.set_tail CLRU.heap].
    split; [exact Hlen |].
    split; cbn [CLRU.head CLRU.tail CLRU.set_num_loaded CLRU.set_tail].
    + rewrite Hhead, (first_ptr_app (q0 ++ [(t, pt)])).
      apply first_ptr_nonempty. destruct q0; discriminate.
    + intros _. rewrite last_ptr_snoc. reflexivity.
    + assumption.
    + apply dseg_app. cbn [first_ptr]. split; [assumption |].
      rewrite last_ptr_snoc. split; [| exact I].
      rewrite Hout by assumption. apply lookup_insert_eq.
Qed.

(** C10: in both policies [policy_page_mapped] ends the process with
    [exit(0)] when [malloc] gives no node; and when it returns, on a state
    that holds a well-formed queue and with [malloc] having given a node
    that was not in use, the queue is the old one with the node of the
    mapped page added at the tail. *)
Theorem policy_page_mapped_exits_or_records :
  (forall (pg : page_t) (st : FIFO.pol),
     FIFO.policy_page_mapped None pg st = Stop (Exited 0)) /\
  (forall (pg : page_t) (st : CLRU.pol),
     CLRU.policy_page_mapped None pg st = Stop (Exited 0)) /\
  (forall (alloc : ptr) (pg : page_t) (st st' : FIFO.pol) (q : nodes),
     fifo_repr st q ->
     (forall a, alloc = Some a -> FIFO.heap st !! a = None) ->
     FIFO.policy_page_mapped alloc pg st = Ret st' ->
     exists a, alloc = Some a /\ fifo_repr st' (q ++ [(a, pg)]) /\
               pg ∈ (q ++ [(a, pg)]).*2) /\
  (forall (alloc : ptr) (pg : page_t) (hp : option nat) (st st' : CLRU.pol) (q : nodes),
     clru_repr hp st q ->
     (forall a, alloc = Some a -> CLRU.heap st !! a = None) ->
     CLRU.policy_page_mapped alloc pg st = Ret st' ->
     exists a hp', alloc = Some a /\ clru_repr hp' st' (q ++ [(a, pg)]) /\
                   pg ∈ (q ++ [(a, pg)]).*2).
Proof.
  assert (Hin : forall (q : nodes) a pg, pg ∈ (q ++ [(a, pg)]).*2).
  { intros q a pg. rewrite fmap_app. apply elem_of_app. right.
    cbn. apply list_elem_of_here. }
  split; [reflexivity |]. split; [reflexivity |]. split.
  - intros [a |] pg st st' q Hrepr Hfresh Hret; [| discriminate].
    assert (Ha : a ∉ q.*1).
    { intros Ha. destruct (fifo_chain_allocated _ _ a (fifo_nodes _ _ Hrepr) Ha) as [x Hx].
      rewrite (Hfresh a eq_refl) in Hx. discriminate. }
    destruct (fifo_mapped_repr st q a pg Hrepr Ha) as (st1 & Hst1 & Hrepr1).
    rewrite Hst1 in Hret. injection Hret as <-. eauto.
  - intros [a |] pg hp st st' q Hrepr Hfresh Hret; [| discriminate].
    destruct (clru_mapped_repr hp st q a pg Hrepr (Hfresh a eq_refl))
      as (st1 & hp' & Hst1 & Hrepr1 & _).
    rewrite Hst1 in Hret. injection Hret as <-. eauto 6.
Qed.

Lemma policy_page_mapped_exits_or_records_witness :
  exists st',
    CLRU.policy_page_mapped (Some 3%nat) 2%nat two_node_queue = Ret st' /\
    exists hp', clru_repr hp' st' [(1%nat, 0%nat); (2%nat, 1%nat); (3%nat, 2%nat)].
Proof.
  destruct (returns_Ret (CLRU.policy_page_mapped (Some 3%nat) 2%nat two_node_queue))
    as (st' & Hst'); [vm_compute; reflexivity |].
  exists st'. split; [exact Hst' |].
  destruct (proj2 (proj2 (proj2 policy_page_mapped_exits_or_records))
              (Some 3%nat) 2%nat None two_node_queue st'
              [(1%nat, 0%nat); (2%nat, 1%nat)])
    as (a & hp' & Ha & Hrepr & _).
  - exact two_node_queue_repr.
  - intros a [= <-]. vm_compute. reflexivity.
  - exact Hst'.
  - injection Ha as <-. eauto.
Defined.

End PageMapped.

(** * The pager as a whole: properties *)

Lemma tiny_config_ok : config_ok tiny_config.
Proof. split; cbn; try reflexivity; try lia; discriminate. Qed.

(** ** The page-table helpers *)

Section EntryFields.
Context `{cfg : config} {Hok : config_ok cfg}.

Lemma entry_fields_Ret (page : page_t) (v : vm_state) (r a d p : Z) :
  entry_fields page v = Ret (r, a, d, p) <->
  (page < NUM_PAGES)%nat /\
  exists e, page_table v !! page = Some e /\
            r = Z.land e PAGE_RESIDENT /\ a = Z.land e PAGE_ACCESSED /\
            d = Z.land e PAGE_DIRTY /\ p = Z.land e PAGEPERM_MASK.
Proof.
  unfold entry_fields. split.
  - intros H.
    apply bind_Ret in H as (r' & Hr & H).
    apply bind_Ret in H as (a' & Ha & H).
    apply bind_Ret in H as (d' & Hd & H).
    apply bind_Ret in H as (p' & Hp & H).
    injection H as <- <- <- <-.
    apply is_page_resident_Ret in Hr as (Hlt & e & He & ->).
    apply is_page_accessed_Ret in Ha as (_ & e1 & He1 & ->).
    apply is_page_dirty_Ret in Hd as (_ & e2 & He2 & ->).
    apply get_page_permission_Ret in Hp as (_ & e3 & He3 & ->).
    assert (e1 = e) as -> by congruence.
    assert (e2 = e) as -> by congruence.
    assert (e3 = e) as -> by congruence.
    eauto 10.
  - intros (Hlt & e & He & -> & -> & -> & ->).
    rewrite (is_page_resident_eq page v e), (is_page_accessed_eq page v e),
      (is_page_dirty_eq page v e), (get_page_permission_eq page v e) by assumption.
    reflexivity.
Qed.

Lemma fields_after_update (f : Z -> Z) (page : page_t) (v : vm_state) (e : Z) :
  (page < NUM_PAGES)%nat -> page_table v !! page = Some e ->
  fields_after (fun page v => e ← pte page v; set_pte page (f e) v) page v
  = Ret (Z.land (f e) PAGE_RESIDENT, Z.land (f e) PAGE_ACCESSED,
         Z.land (f e) PAGE_DIRTY, Z.land (f e) PAGEPERM_MASK).
Proof.
  intros Hlt He. unfold fields_after.
  rewrite (pte_eq page v e) by assumption. osimpl.
  rewrite set_pte_eq by (eauto using lookup_lt_Some). osimpl.
  apply entry_fields_Ret. split; [assumption |]. exists (f e).
  split; [| auto]. cbn. apply list_lookup_insert_eq. eauto using lookup_lt_Some.
Qed.

End EntryFields.

Section FlagHelpers.
Context `{cfg : config} {Hok : config_ok cfg}.

Lemma land_lor_absorb (e m : Z) : Z.land (Z.lor e m) m = m.
Proof.
  apply Z.bits_inj'. intros n _. rewrite Z.land_spec, Z.lor_spec.
  destruct (Z.testbit e n), (Z.testbit m n); reflexivity.
Qed.

(** X1: setting or clearing one flag of an entry leaves the other flags and the
    permission of the entry as they were, and the flag reads back as set
    (its own bit) or clear (zero); [clear_page_entry] zeroes all four.  None
    of the six touches another entry, a counter or the address space. *)
Theorem flag_helpers_change_one_field (page : page_t) (v : vm_state) (r a d p : Z) :
  entry_fields page v = Ret (r, a, d, p) ->
  fields_after set_page_resident page v = Ret (PAGE_RESIDENT, a, d, p) /\
  fields_after set_page_accessed page v = Ret (r, PAGE_ACCESSED, d, p) /\
  fields_after clear_page_accessed page v = Ret (r, 0, d, p) /\
  fields_after set_page_dirty page v = Ret (r, a, PAGE_DIRTY, p) /\
  fields_after clear_page_dirty page v = Ret (r, a, 0, p) /\
  fields_after clear_page_entry page v = Ret (0, 0, 0, 0) /\
  forall f, f ∈ [set_page_resident; set_page_accessed; clear_page_accessed;
                 set_page_dirty; clear_page_dirty; clear_page_entry] ->
    exists v', f page v = Ret v' /\ entry_updated page v v'.
Proof.
  intros H. apply entry_fields_Ret in H as (Hlt & e & He & -> & -> & -> & ->).
  pose proof resident_accessed as Hra. pose proof resident_dirty as Hrd.
  pose proof accessed_dirty as Had. pose proof resident_mask as Hrm.
  pose proof accessed_mask as Ham. pose proof dirty_mask as Hdm.
  assert (Har : Z.land PAGE_ACCESSED PAGE_RESIDENT = 0) by (rewrite Z.land_comm; assumption).
  assert (Hdr : Z.land PAGE_DIRTY PAGE_RESIDENT = 0) by (rewrite Z.land_comm; assumption).
  assert (Hda : Z.land PAGE_DIRTY PAGE_ACCESSED = 0) by (rewrite Z.land_comm; assumption).
  pose proof (lookup_lt_Some _ _ _ He) as Hlen.
  repeat split.
  - unfold set_page_resident.
    rewrite (fields_after_update (fun e => Z.lor e PAGE_RESIDENT) page v e) by assumption.
    rewrite land_lor_absorb, !land_lor_other by assumption. reflexivity.
  - unfold set_page_accessed.
    rewrite (fields_after_update (fun e => Z.lor e PAGE_ACCESSED) page v e) by assumption.
    rewrite land_lor_absorb, !land_lor_other by assumption. reflexivity.
  - unfold clear_page_accessed.
    rewrite (fields_after_update (fun e => Z.land e (Z.lnot PAGE_ACCESSED)) page v e)
      by assumption.
    rewrite land_clear_same, !land_clear_other by assumption. reflexivity.
  - unfold set_page_dirty.
    rewrite (fields_after_update (fun e => Z.lor e PAGE_DIRTY) page v e) by assumption.
    rewrite land_lor_absorb, !land_lor_other by assumption. reflexivity.
  - unfold clear_page_dirty.
    rewrite (fields_after_update (fun e => Z.land e (Z.lnot PAGE_DIRTY)) page v e)
      by assumption.
    rewrite land_clear_same, !land_clear_other by assumption. reflexivity.
  - unfold fields_after, clear_page_entry.
    rewrite set_pte_eq by assumption. osimpl.
    apply entry_fields_Ret. split; [assumption |]. exists 0.
    split; [cbn; apply list_lookup_insert_eq; assumption |].
    rewrite !Z.land_0_l. auto.
  - intros f Hf.
    assert (Hupd : forall g : Z -> Z,
              exists v', (e ← pte page v; set_pte page (g e) v) = Ret v' /\
                         entry_updated page v v').
    { intros g. rewrite (pte_eq page v e) by assumption. osimpl.
      rewrite set_pte_eq by assumption. eexists. split; [reflexivity |].
      exists (g e). reflexivity. }
    repeat (apply elem_of_cons in Hf as [-> | Hf]); try apply Hupd.
    + unfold clear_page_entry. rewrite set_pte_eq by assumption.
      eexists. split; [reflexivity |]. exists 0. reflexivity.
    + apply elem_of_nil in Hf. contradiction.
Qed.

(** X2: every helper that takes a page number stops on its assertion when the
    number is not below [NUM_PAGES]; none reads or writes past the table. *)
Theorem page_helpers_assert_page_range (page : page_t) (perm : Z) (v : vm_state) :
  (NUM_PAGES <= page)%nat ->
  page_to_addr page v = Stop Aborted /\
  clear_page_entry page v = Stop Aborted /\
  set_page_resident page v = Stop Aborted /\
  is_page_resident page v = Stop Aborted /\
  set_page_accessed page v = Stop Aborted /\
  clear_page_accessed page v = Stop Aborted /\
  is_page_accessed page v = Stop Aborted /\
  set_page_dirty page v = Stop Aborted /\
  clear_page_dirty page v = Stop Aborted /\
  is_page_dirty page v = Stop Aborted /\
  get_page_permission page v = Stop Aborted /\
  set_page_permission page perm v = Stop Aborted.
Proof.
  intros H. apply Nat.ltb_ge in H.
  unfold page_to_addr, clear_page_entry, set_page_resident, is_page_resident,
    set_page_accessed, clear_page_accessed, is_page_accessed, set_page_dirty,
    clear_page_dirty, is_page_dirty, get_page_permission, set_page_permission,
    pte, set_pte.
  rewrite H. repeat split; reflexivity.
Qed.

End FlagHelpers.

Section FlagHelperExamples.
#[local] Existing Instance example_config.
#[local] Existing Instance example_config_ok.

Lemma flag_helpers_change_one_field_witness :
  fields_after clear_page_dirty 0%nat one_dirty_page = Ret (4, 8, 0, 3) /\
  fields_after clear_page_accessed 0%nat one_dirty_page = Ret (4, 0, 16, 3).
Proof.
  destruct (flag_helpers_change_one_field 0%nat one_dirty_page 4 8 16 3)
    as (_ & _ & Hca & _ & Hcd & _); [reflexivity |].
  split; assumption.
Defined.

Lemma page_helpers_assert_page_range_witness :
  is_page_dirty 8%nat one_dirty_page = Stop Aborted /\
  set_page_permission 8%nat PAGEPERM_READ one_dirty_page = Stop Aborted.
Proof.
  destruct (page_helpers_assert_page_range 8%nat PAGEPERM_READ one_dirty_page)
    as (_ & _ & _ & _ & _ & _ & _ & _ & _ & Hd & _ & Hp); [cbn; lia |].
  split; assumption.
Defined.

End FlagHelperExamples.


(** ** Permissions and addresses *)

Section Permissions.
Context `{cfg : config} {Hok : config_ok cfg}.

Lemma pageperm_to_mmap_rdwr : pageperm_to_mmap PAGEPERM_RDWR = Ret (Z.lor PROT_READ PROT_WRITE).
Proof.
  unfold pageperm_to_mmap. rewrite valid_perm_rdwr. osimpl.
  pose proof none_rdwr. pose proof read_rdwr.
  destruct (Z.eqb_spec PAGEPERM_RDWR PAGEPERM_NONE); [congruence |].
  destruct (Z.eqb_spec PAGEPERM_RDWR PAGEPERM_READ); [congruence |].
  rewrite Z.eqb_refl. reflexivity.
Qed.

(** X3: [set_page_permission] changes the protection of the page's mapping and
    the permission field of its entry together: the permission reads back
    as the one set, the three flags are untouched, the mapping keeps its
    bytes and is readable unless the permission is NONE and writable only
    for RDWR, and one successful mprotect is the only system call made. *)
Theorem set_page_permission_round_trip
    (page : page_t) (perm : Z) (v : vm_state) (r a d p : Z) (m : mapping) :
  valid_perm perm = true ->
  entry_fields page v = Ret (r, a, d, p) ->
  os_maps (os v) !! page_start v page = Some m ->
  exists v' prot,
    set_page_permission page perm v = Ret v' /\
    entry_fields page v' = Ret (r, a, d, perm) /\
    (forall pg, pg <> page -> page_table v' !! pg = page_table v !! pg) /\
    os_maps (os v') = <[page_start v page := Mapping prot (m_data m)]> (os_maps (os v)) /\
    readable (Mapping prot (m_data m)) = negb (perm =? PAGEPERM_NONE) /\
    writable (Mapping prot (m_data m)) = (perm =? PAGEPERM_RDWR) /\
    os_file (os v') = os_file (os v) /\
    os_trace (os v') = SysMprotect (page_start v page) prot 0 :: os_trace (os v).
Proof.
  intros Hv Hf Hm.
  apply entry_fields_Ret in Hf as (Hlt & e & He & -> & -> & -> & ->).
  pose proof (lookup_lt_Some _ _ _ He) as Hlen.
  assert (Hprot : exists prot, pageperm_to_mmap perm = Ret prot /\
            Z.testbit prot 0 = negb (perm =? PAGEPERM_NONE) /\
            Z.testbit prot 1 = (perm =? PAGEPERM_RDWR)).
  { pose proof none_read. pose proof none_rdwr. pose proof read_rdwr.
    destruct (valid_perm_cases perm Hv) as [-> | [-> | ->]].
    - exists PROT_NONE. split; [apply pageperm_to_mmap_none |].
      rewrite Z.eqb_refl. destruct (Z.eqb_spec PAGEPERM_NONE PAGEPERM_RDWR); [congruence |].
      split; reflexivity.
    - exists PROT_READ. split; [apply pageperm_to_mmap_read |].
      destruct (Z.eqb_spec PAGEPERM_READ PAGEPERM_NONE); [congruence |].
      destruct (Z.eqb_spec PAGEPERM_READ PAGEPERM_RDWR); [congruence |].
      split; reflexivity.
    - exists (Z.lor PROT_READ PROT_WRITE). split; [apply pageperm_to_mmap_rdwr |].
      destruct (Z.eqb_spec PAGEPERM_RDWR PAGEPERM_NONE); [congruence |].
      rewrite Z.eqb_refl. split; reflexivity. }
  destruct Hprot as (prot & Hprot & Hrd & Hwr).
  exists (protected page perm prot e m v), prot.
  split; [apply set_page_permission_eq; assumption |].
  split.
  { apply entry_fields_Ret. split; [assumption |]. exists (with_perm e perm).
    split; [cbn; apply list_lookup_insert_eq; assumption |].
    pose proof (valid_perm_in_mask perm Hv) as Hmask.
    rewrite !with_perm_flag
      by auto using resident_mask, accessed_mask, dirty_mask.
    rewrite with_perm_perm by assumption. auto. }
  split; [intros pg Hne; cbn; apply list_lookup_insert_ne; congruence |].
  split; [reflexivity |].
  split; [exact Hrd |]. split; [exact Hwr |]. split; reflexivity.
Qed.

(** X4: [set_page_permission] stops on [abort()] (an assertion, or mprotect
    failing on a page that is not mapped) exactly when the page number is
    out of range, the permission is none of the three values, or the page
    has no mapping; otherwise it returns. *)
Theorem set_page_permission_aborts_iff (page : page_t) (perm : Z) (v : vm_state) :
  length (page_table v) = NUM_PAGES ->
  (set_page_permission page perm v = Stop Aborted <->
   (NUM_PAGES <= page)%nat \/ valid_perm perm = false \/
   os_maps (os v) !! page_start v page = None) /\
  (set_page_permission page perm v <> Stop Aborted ->
   exists v', set_page_permission page perm v = Ret v').
Proof.
  intros Hlen.
  assert (Hgood : (page < NUM_PAGES)%nat -> valid_perm perm = true ->
            forall m, os_maps (os v) !! page_start v page = Some m ->
            exists v', set_page_permission page perm v = Ret v').
  { intros Hlt Hv m Hm.
    destruct (lookup_lt_is_Some_2 (page_table v) page) as [e He]; [lia |].
    destruct (pageperm_to_mmap_valid perm Hv) as [prot Hprot].
    eexists. apply (set_page_permission_eq page perm prot v e m); assumption. }
  assert (Hbad : (NUM_PAGES <= page)%nat \/ valid_perm perm = false \/
            os_maps (os v) !! page_start v page = None ->
            set_page_permission page perm v = Stop Aborted).
  { intros Hc. unfold set_page_permission.
    destruct (Nat.ltb_spec page NUM_PAGES) as [Hlt | Hge]; [| reflexivity]. osimpl.
    destruct (valid_perm perm) eqn:Hv; [| reflexivity]. osimpl.
    destruct Hc as [Hc | [Hc | Hc]]; [lia | discriminate |].
    unfold page_to_addr. apply Nat.ltb_lt in Hlt as Hb. rewrite Hb. osimpl.
    destruct (pageperm_to_mmap_valid perm Hv) as [prot ->]. osimpl.
    unfold os_mprotect. unfold page_start in Hc. rewrite Hc. reflexivity. }
  assert (Hcases :
            ((page < NUM_PAGES)%nat /\ valid_perm perm = true /\
             exists m, os_maps (os v) !! page_start v page = Some m) \/
            ((NUM_PAGES <= page)%nat \/ valid_perm perm = false \/
             os_maps (os v) !! page_start v page = None)).
  { destruct (Nat.lt_ge_cases page NUM_PAGES); [| auto].
    destruct (valid_perm perm); [| auto].
    destruct (os_maps (os v) !! page_start v page); eauto. }
  destruct Hcases as [(Hlt & Hv & m & Hm) | Hc].
  - destruct (Hgood Hlt Hv m Hm) as [v' Hv']. rewrite Hv'.
    split; [split; [discriminate |] | eauto].
    intros [? | [? | ?]]; [lia | congruence | congruence].
  - rewrite (Hbad Hc). split; [tauto | congruence].
Qed.

End Permissions.

Section Addresses.
Context `{cfg : config} {Hok : config_ok cfg}.

Lemma page_of_offset (page : nat) (off : Z) :
  0 <= off < Z.of_nat PAGE_SIZE ->
  Z.to_nat ((Z.of_nat (page * PAGE_SIZE) + off) / Z.of_nat PAGE_SIZE) = page.
Proof.
  intros Hoff. rewrite Nat2Z.inj_mul.
  rewrite Z.div_add_l by lia. rewrite Z.div_small by lia. lia.
Qed.

(** X5: every address of a page of the pool is mapped back to that page:
    [addr_to_page] undoes [page_to_addr] at the start of the page and at
    every offset inside it. *)
Theorem addr_to_page_of_page_to_addr (page : page_t) (off : Z) (v : vm_state) :
  pool_laid_out v -> (page < NUM_PAGES)%nat -> 0 <= off < Z.of_nat PAGE_SIZE ->
  exists a, page_to_addr page v = Ret a /\ addr_to_page (a + off) v = Ret page.
Proof.
  intros Hend Hlt Hoff. unfold pool_laid_out in Hend.
  exists (page_start v page). unfold page_to_addr, addr_to_page, page_start.
  apply Nat.ltb_lt in Hlt as Hb. rewrite Hb. osimpl. split; [reflexivity |].
  assert (Hin : Z.of_nat (page * PAGE_SIZE) + off < Z.of_nat (NUM_PAGES * PAGE_SIZE)).
  { rewrite !Nat2Z.inj_mul. nia. }
  destruct (Z.geb_spec (vmem_start v + Z.of_nat (page * PAGE_SIZE) + off) (vmem_start v));
    [| lia]. osimpl.
  destruct (Z.ltb_spec (vmem_start v + Z.of_nat (page * PAGE_SIZE) + off) (vmem_end v));
    [| lia]. osimpl.
  f_equal.
  replace (vmem_start v + Z.of_nat (page * PAGE_SIZE) + off - vmem_start v)
    with (Z.of_nat (page * PAGE_SIZE) + off) by lia.
  apply page_of_offset. assumption.
Qed.

(** X6: [addr_to_page] returns exactly for the addresses of the pool, with a
    page number below [NUM_PAGES] whose page holds the address; on any
    other address it stops on one of its two assertions. *)
Theorem addr_to_page_in_pool (addr : Z) (v : vm_state) :
  pool_laid_out v ->
  match addr_to_page addr v with
  | Ret page =>
      vmem_start v <= addr < vmem_end v /\ (page < NUM_PAGES)%nat /\
      page_start v page <= addr < page_start v page + Z.of_nat PAGE_SIZE
  | Stop f => f = Aborted /\ ~ (vmem_start v <= addr < vmem_end v)
  end.
Proof.
  intros Hend. unfold pool_laid_out in Hend. unfold addr_to_page, page_start.
  pose proof page_size_pos as Hps.
  destruct (Z.geb_spec addr (vmem_start v)); osimpl; [| split; [reflexivity | lia]].
  destruct (Z.ltb_spec addr (vmem_end v)); osimpl; [| split; [reflexivity | lia]].
  split; [lia |].
  set (d := addr - vmem_start v).
  assert (Hd : 0 <= d < Z.of_nat NUM_PAGES * Z.of_nat PAGE_SIZE)
    by (subst d; rewrite Nat2Z.inj_mul in Hend; lia).
  pose proof (Z.div_pos d (Z.of_nat PAGE_SIZE)) as Hq.
  pose proof (Z.mul_div_le d (Z.of_nat PAGE_SIZE)) as Hle.
  pose proof (Z.mul_succ_div_gt d (Z.of_nat PAGE_SIZE)) as Hgt.
  assert (Hqlt : d / Z.of_nat PAGE_SIZE < Z.of_nat NUM_PAGES)
    by (apply Z.div_lt_upper_bound; lia).
  split; [lia |].
  rewrite Nat2Z.inj_mul, Z2Nat.id by lia. subst d. lia.
Qed.

End Addresses.

Section AddressExamples.
#[local] Existing Instance example_config.
#[local] Existing Instance example_config_ok.

Lemma set_page_permission_round_trip_witness :
  exists v' prot,
    set_page_permission 0%nat PAGEPERM_READ one_dirty_page = Ret v' /\
    entry_fields 0%nat v' = Ret (4, 8, 16, 1) /\
    os_maps (os v') !! page_addr 0 = Some (Mapping prot (replicate PAGE_SIZE Byte.xab)).
Proof.
  destruct (set_page_permission_round_trip 0%nat PAGEPERM_READ one_dirty_page
              4 8 16 3 (Mapping 3 (replicate PAGE_SIZE Byte.xab)))
    as (v' & prot & Hset & Hf & _ & Hmaps & _);
    [reflexivity | reflexivity | apply lookup_singleton_eq |].
  exists v', prot. split; [assumption |]. split; [assumption |].
  rewrite Hmaps. apply lookup_insert_eq.
Defined.

Lemma set_page_permission_aborts_iff_witness :
  set_page_permission 1%nat PAGEPERM_READ one_dirty_page = Stop Aborted.
Proof.
  apply (set_page_permission_aborts_iff 1%nat PAGEPERM_READ one_dirty_page);
    [reflexivity |].
  right. right. reflexivity.
Defined.

Lemma addr_to_page_of_page_to_addr_witness :
  exists a, page_to_addr 3%nat one_dirty_page = Ret a /\
            addr_to_page (a + 4095) one_dirty_page = Ret 3%nat.
Proof.
  apply (addr_to_page_of_page_to_addr 3%nat 4095 one_dirty_page);
    [reflexivity | cbn; lia | cbn; lia].
Defined.

Lemma addr_to_page_in_pool_witness :
  match addr_to_page (VIRTUALMEM_ADDR_START + 32768) one_dirty_page with
  | Ret page =>
      vmem_start one_dirty_page <= VIRTUALMEM_ADDR_START + 32768 < vmem_end one_dirty_page /\
      (page < NUM_PAGES)%nat /\
      page_start one_dirty_page page <= VIRTUALMEM_ADDR_START + 32768
        < page_start one_dirty_page page + Z.of_nat PAGE_SIZE
  | Stop f => f = Aborted /\
      ~ (vmem_start one_dirty_page <= VIRTUALMEM_ADDR_START + 32768 < vmem_end one_dirty_page)
  end.
Proof. apply (addr_to_page_in_pool _ one_dirty_page). reflexivity. Defined.

End AddressExamples.




(** ** What the fault handler returns *)

Ltac enter_handler Hrange Hlt :=
  unfold sigsegv_handler;
  lazymatch type of Hrange with
  | ?lo <= ?a < ?hi =>
      destruct (Z.ltb_spec a lo); [lia |];
      destruct (Z.geb_spec a hi); [lia |];
      cbn [orb vm ps]; unfold addr_to_page;
      change (vmem_start (set_num_faults ?n ?v)) with (vmem_start v);
      change (vmem_end (set_num_faults ?n ?v)) with (vmem_end v);
      destruct (Z.geb_spec a lo); [| lia];
      destruct (Z.ltb_spec a hi); [| lia];
      osimpl;
      match goal with
      | |- context [Z.to_nat ((a - vmem_start ?v) / Z.of_nat PAGE_SIZE)] =>
          fold (page_of v a)
      end
  end;
  let Hb := fresh "Hb" in
  apply Nat.ltb_lt in Hlt as Hb; rewrite Hb; osimpl.

Section HandlerReturns.
Context `{cfg : config} {Hok : config_ok cfg} {P : Policy}.

Lemma sigsegv_accerr_none (alloc : ptr) (addr : Z) (s : sys) (e : Z) (m : mapping) :
  let page := page_of (vm s) addr in
  vmem_start (vm s) <= addr < vmem_end (vm s) ->
  (page < NUM_PAGES)%nat ->
  page_table (vm s) !! page = Some e ->
  Z.land e PAGE_RESIDENT <> 0 ->
  Z.land e PAGEPERM_MASK = PAGEPERM_NONE ->
  os_maps (os (vm s)) !! page_start (vm s) page = Some m ->
  sigsegv_handler alloc addr SEGV_ACCERR s =
    Ret (Sys (granted page PAGEPERM_READ PROT_READ PAGE_ACCESSED e m (counted (vm s)))
             (ps s)).
Proof.
  intros page Hrange Hlt He Hres Hperm Hm.
  subst page. enter_handler Hrange Hlt. set (page := page_of (vm s) addr) in *.
  change (SEGV_ACCERR =? SEGV_MAPERR) with false.
  change (SEGV_ACCERR =? SEGV_ACCERR) with true.
  cbn [orb]. osimpl. cbn [vm ps]. fold (counted (vm s)).
  set (v := counted (vm s)).
  pose proof (lookup_lt_Some _ _ _ He) as Hlen.
  rewrite (is_page_resident_eq page v e) by assumption. osimpl.
  destruct (Z.eqb_spec (Z.land e PAGE_RESIDENT) 0); [tauto |]. osimpl.
  rewrite (get_page_permission_eq page v e) by assumption. osimpl.
  rewrite Hperm, Z.eqb_refl.
  rewrite (set_page_permission_eq page PAGEPERM_READ PROT_READ v e m)
    by auto using valid_perm_read, pageperm_to_mmap_read.
  osimpl. unfold set_page_accessed.
  rewrite (pte_eq page _ (with_perm e PAGEPERM_READ))
    by (try assumption; cbn; apply list_lookup_insert_eq; assumption).
  osimpl. rewrite set_pte_eq by (try assumption; cbn; rewrite length_insert; assumption).
  osimpl. fold (granted page PAGEPERM_READ PROT_READ PAGE_ACCESSED e m v).
  assert (Hentry : page_table (granted page PAGEPERM_READ PROT_READ PAGE_ACCESSED e m v)
                     !! page
                   = Some (Z.lor (with_perm e PAGEPERM_READ) PAGE_ACCESSED)).
  { cbn. apply list_lookup_insert_eq. rewrite length_insert. assumption. }
  rewrite (is_page_accessed_eq page _ _ Hlt Hentry). osimpl.
  rewrite land_lor_absorb.
  pose proof accessed_pos.
  destruct (Z.eqb_spec PAGE_ACCESSED 0); [lia |]. osimpl.
  rewrite (get_page_permission_eq page _ _ Hlt Hentry). osimpl.
  rewrite land_lor_other by apply accessed_mask.
  rewrite with_perm_perm by apply read_in_mask.
  rewrite Z.eqb_refl. reflexivity.
Qed.

Lemma sigsegv_accerr_read (alloc : ptr) (addr : Z) (s : sys) (e : Z) (m : mapping) :
  let page := page_of (vm s) addr in
  vmem_start (vm s) <= addr < vmem_end (vm s) ->
  (page < NUM_PAGES)%nat ->
  page_table (vm s) !! page = Some e ->
  Z.land e PAGE_RESIDENT <> 0 ->
  Z.land e PAGEPERM_MASK = PAGEPERM_READ ->
  os_maps (os (vm s)) !! page_start (vm s) page = Some m ->
  sigsegv_handler alloc addr SEGV_ACCERR s =
    Ret (Sys (granted page PAGEPERM_RDWR (Z.lor PROT_READ PROT_WRITE) PAGE_DIRTY e m
                (counted (vm s)))
             (ps s)).
Proof.
  intros page Hrange Hlt He Hres Hperm Hm.
  subst page. enter_handler Hrange Hlt. set (page := page_of (vm s) addr) in *.
  change (SEGV_ACCERR =? SEGV_MAPERR) with false.
  change (SEGV_ACCERR =? SEGV_ACCERR) with true.
  cbn [orb]. osimpl. cbn [vm ps]. fold (counted (vm s)).
  set (v := counted (vm s)).
  pose proof (lookup_lt_Some _ _ _ He) as Hlen.
  rewrite (is_page_resident_eq page v e) by assumption. osimpl.
  destruct (Z.eqb_spec (Z.land e PAGE_RESIDENT) 0); [tauto |]. osimpl.
  rewrite (get_page_permission_eq page v e) by assumption. osimpl.
  rewrite Hperm, Z.eqb_refl.
  pose proof none_read.
  destruct (Z.eqb_spec PAGEPERM_READ PAGEPERM_NONE); [congruence |].
  rewrite (set_page_permission_eq page PAGEPERM_RDWR (Z.lor PROT_READ PROT_WRITE) v e m)
    by auto using valid_perm_rdwr, pageperm_to_mmap_rdwr.
  osimpl. unfold set_page_dirty.
  rewrite (pte_eq page _ (with_perm e PAGEPERM_RDWR))
    by (try assumption; cbn; apply list_lookup_insert_eq; assumption).
  osimpl. rewrite set_pte_eq by (try assumption; cbn; rewrite length_insert; assumption).
  osimpl.
  fold (granted page PAGEPERM_RDWR (Z.lor PROT_READ PROT_WRITE) PAGE_DIRTY e m v).
  set (v' := granted _ _ _ _ _ _ _).
  assert (Hentry : page_table v' !! page
                   = Some (Z.lor (with_perm e PAGEPERM_RDWR) PAGE_DIRTY)).
  { cbn. apply list_lookup_insert_eq. rewrite length_insert. assumption. }
  rewrite (is_page_dirty_eq page _ _ Hlt Hentry). osimpl.
  rewrite land_lor_absorb.
  pose proof dirty_pos.
  destruct (Z.eqb_spec PAGE_DIRTY 0); [lia |]. osimpl.
  rewrite (get_page_permission_eq page _ _ Hlt Hentry). osimpl.
  rewrite land_lor_other by apply dirty_mask.
  rewrite with_perm_perm by apply rdwr_in_mask.
  rewrite Z.eqb_refl. reflexivity.
Qed.

End HandlerReturns.

Section LoadFaults.
Context `{cfg : config} {Hok : config_ok cfg} {P : Policy}.

Lemma length_file_write (off : nat) (data f : list Byte.byte) :
  (off + length data <= length f)%nat ->
  length (file_write off data f) = length f.
Proof.
  intros H. unfold file_write, zeros.
  rewrite !length_app, length_take, length_replicate, length_drop. lia.
Qed.

Lemma swap_slot_lookup (page : page_t) (f : list Byte.byte) (i : nat) :
  swap_slot page f !! i
  = if decide (i < PAGE_SIZE)%nat then f !! (page * PAGE_SIZE + i)%nat else None.
Proof. unfold swap_slot. rewrite lookup_take, lookup_drop. reflexivity. Qed.

Lemma file_write_lookup_other (off : nat) (data f : list Byte.byte) (j : nat) :
  (off + length data <= length f)%nat ->
  (j < off \/ off + length data <= j)%nat ->
  file_write off data f !! j = f !! j.
Proof.
  intros Hfit Hj. unfold file_write, zeros.
  replace (off - length f)%nat with 0%nat by lia. cbn [replicate app].
  destruct Hj as [Hj | Hj].
  - rewrite lookup_app_l by (rewrite length_take; lia).
    apply lookup_take_lt. assumption.
  - rewrite lookup_app_r by (rewrite length_take; lia).
    rewrite length_take, Nat.min_l by lia.
    rewrite lookup_app_r by lia.
    rewrite lookup_drop. f_equal. lia.
Qed.

(** Writing one slot of the swap file leaves the other slots alone. *)
Lemma swap_slot_file_write_other (page victim : page_t) (data f : list Byte.byte) :
  page <> victim -> length data = PAGE_SIZE ->
  ((victim + 1) * PAGE_SIZE <= length f)%nat ->
  swap_slot page (file_write (victim * PAGE_SIZE) data f) = swap_slot page f.
Proof.
  intros Hne Hlen Hfit. apply list_eq. intros i. rewrite !swap_slot_lookup.
  destruct (decide (i < PAGE_SIZE)%nat) as [Hi | _]; [| reflexivity].
  apply file_write_lookup_other; [lia |].
  destruct (Nat.lt_ge_cases page victim); [left | right]; nia.
Qed.

Lemma slot_in_file (page : page_t) (f : list Byte.byte) :
  (page < NUM_PAGES)%nat -> (NUM_PAGES * PAGE_SIZE <= length f)%nat ->
  ((page + 1) * PAGE_SIZE <= length f)%nat.
Proof. intros Hlt Hf. nia. Qed.

Lemma unmapped_file_length (page : page_t) (dirty : bool) (m : mapping) (v : vm_state) :
  (page < NUM_PAGES)%nat -> length (m_data m) = PAGE_SIZE ->
  (NUM_PAGES * PAGE_SIZE <= length (os_file (os v)))%nat ->
  length (os_file (os (unmapped page dirty m v))) = length (os_file (os v)).
Proof.
  intros Hlt Hm Hf. unfold unmapped. destruct dirty; cbn [os os_file]; [| reflexivity].
  apply length_file_write. pose proof (slot_in_file page _ Hlt Hf). lia.
Qed.

Lemma sigsegv_maperr_room (alloc : ptr) (addr : Z) (s : sys) (e : Z) (p' : pol) :
  let page := page_of (vm s) addr in
  vmem_start (vm s) <= addr < vmem_end (vm s) ->
  (page < NUM_PAGES)%nat ->
  page_table (vm s) !! page = Some e ->
  Z.land e PAGE_RESIDENT = 0 ->
  0 <= num_resident (vm s) < max_resident (vm s) ->
  max_resident (vm s) < 2 ^ 32 ->
  0 <= vmem_start (vm s) ->
  (NUM_PAGES * PAGE_SIZE <= length (os_file (os (vm s))))%nat ->
  policy_page_mapped alloc page (ps s) = Ret p' ->
  sigsegv_handler alloc addr SEGV_MAPERR s =
    Ret (Sys (mapped page PAGEPERM_NONE PROT_NONE (counted (vm s))) p').
Proof.
  intros page Hrange Hlt He Hres Hnum Hmax Hstart Hfile Hpol.
  subst page. enter_handler Hrange Hlt. set (page := page_of (vm s) addr) in *.
  change (SEGV_MAPERR =? SEGV_MAPERR) with true.
  change (SEGV_MAPERR =? SEGV_ACCERR) with false.
  cbn [orb]. osimpl. cbn [vm ps]. fold (counted (vm s)).
  change (num_resident (counted (vm s))) with (num_resident (vm s)).
  change (max_resident (counted (vm s))) with (max_resident (vm s)).
  destruct (Z.leb_spec (num_resident (vm s)) (max_resident (vm s))); [| lia]. osimpl.
  destruct (Z.eqb_spec (num_resident (vm s)) (max_resident (vm s))); [lia |]. osimpl.
  assert (Hw : wrap32 (num_resident (vm s) + 1) = num_resident (vm s) + 1)
    by (unfold wrap32; apply Z.mod_small; lia).
  rewrite (map_page_returns alloc page PAGEPERM_NONE PROT_NONE
             (Sys (counted (vm s)) (ps s)) e p');
    [| assumption | apply valid_perm_none | apply pageperm_to_mmap_none
     | assumption | assumption | cbn [vm counted set_num_faults num_resident max_resident]; lia
     | assumption | apply slot_in_file; assumption | assumption].
  osimpl. cbn [vm].
  rewrite (is_page_resident_eq page _ (with_perm (Z.lor 0 PAGE_RESIDENT) PAGEPERM_NONE));
    [| assumption
     | cbn; apply list_lookup_insert_eq; eapply lookup_lt_Some; eassumption].
  pose proof (is_resident_mapped PAGEPERM_NONE valid_perm_none) as Hr.
  unfold is_resident in Hr. osimpl. rewrite Hr. reflexivity.
Qed.

Lemma sigsegv_maperr_full (alloc : ptr) (addr : Z) (s : sys) (e : Z)
    (victim : page_t) (ev : Z) (m : mapping) (p1 p' : pol) :
  let page := page_of (vm s) addr in
  vmem_start (vm s) <= addr < vmem_end (vm s) ->
  (page < NUM_PAGES)%nat ->
  page_table (vm s) !! page = Some e ->
  Z.land e PAGE_RESIDENT = 0 ->
  num_resident (vm s) = max_resident (vm s) ->
  0 < max_resident (vm s) < 2 ^ 32 ->
  0 <= vmem_start (vm s) ->
  (NUM_PAGES * PAGE_SIZE <= length (os_file (os (vm s))))%nat ->
  choose_and_evict_victim_page (ps s) = Ret (victim, p1) ->
  (victim < NUM_PAGES)%nat ->
  page_table (vm s) !! victim = Some ev ->
  Z.land ev PAGE_RESIDENT <> 0 ->
  os_maps (os (vm s)) !! page_start (vm s) victim = Some m ->
  length (m_data m) = PAGE_SIZE ->
  policy_page_mapped alloc page p1 = Ret p' ->
  sigsegv_handler alloc addr SEGV_MAPERR s =
    Ret (Sys (mapped page PAGEPERM_NONE PROT_NONE
                (unmapped victim (negb (Z.land ev PAGE_DIRTY =? 0)) m (counted (vm s))))
             p').
Proof.
  intros page Hrange Hlt He Hres Hnum Hmax Hstart Hfile Hev Hvlt Hv Hvres Hm Hmlen Hpol.
  subst page. enter_handler Hrange Hlt. set (page := page_of (vm s) addr) in *.
  change (SEGV_MAPERR =? SEGV_MAPERR) with true.
  change (SEGV_MAPERR =? SEGV_ACCERR) with false.
  cbn [orb]. osimpl. cbn [vm ps]. fold (counted (vm s)).
  change (num_resident (counted (vm s))) with (num_resident (vm s)).
  change (max_resident (counted (vm s))) with (max_resident (vm s)).
  destruct (Z.leb_spec (num_resident (vm s)) (max_resident (vm s))); [| lia]. osimpl.
  destruct (Z.eqb_spec (num_resident (vm s)) (max_resident (vm s))); [| lia].
  rewrite Hev. osimpl.
  rewrite (is_page_resident_eq victim (counted (vm s)) ev) by assumption. osimpl.
  destruct (Z.eqb_spec (Z.land ev PAGE_RESIDENT) 0); [tauto |]. cbn [negb]. osimpl.
  rewrite (unmap_page_returns victim (counted (vm s)) ev m);
    [| assumption | cbn; lia | assumption | assumption | assumption | assumption].
  osimpl.
  set (v1 := unmapped victim _ m (counted (vm s))).
  pose proof (lookup_lt_Some _ _ _ Hv) as Hvlen.
  rewrite (is_page_resident_eq victim v1 0);
    [| assumption | cbn; apply list_lookup_insert_eq; assumption].
  osimpl. rewrite Z.land_0_l. change (0 =? 0) with true. osimpl.
  assert (Hne : victim <> page) by (intros ->; congruence).
  rewrite (map_page_returns alloc page PAGEPERM_NONE PROT_NONE (Sys v1 p1) e p');
    [| assumption | apply valid_perm_none | apply pageperm_to_mmap_none
     | cbn; rewrite list_lookup_insert_ne by assumption; assumption
     | assumption
     | cbn [vm v1 unmapped num_resident max_resident counted set_num_faults];
       unfold wrap32; rewrite (Z.mod_small (num_resident (vm s) - 1)) by lia;
       rewrite Z.mod_small by lia; lia
     | assumption
     | apply slot_in_file; [assumption |]; cbn [vm]; subst v1;
       rewrite unmapped_file_length by assumption; assumption
     | assumption].
  osimpl. cbn [vm].
  rewrite (is_page_resident_eq page _ (with_perm (Z.lor 0 PAGE_RESIDENT) PAGEPERM_NONE));
    [| assumption
     | cbn; apply list_lookup_insert_eq; rewrite length_insert;
       eapply lookup_lt_Some; eassumption].
  pose proof (is_resident_mapped PAGEPERM_NONE valid_perm_none) as Hr.
  unfold is_resident in Hr. osimpl. rewrite Hr. reflexivity.
Qed.

End LoadFaults.


(** ** Consistent states *)

Section PoolInvariant.
Context `{cfg : config} {Hok : config_ok cfg}.

Lemma page_start_inj (v : vm_state) (pg pg' : page_t) :
  page_start v pg = page_start v pg' -> pg = pg'.
Proof. unfold page_start. pose proof page_size_pos as Hps. intros E. nia. Qed.

Lemma resident_in_lt (v : vm_state) (pg : page_t) :
  length (page_table v) = NUM_PAGES -> resident_in v pg -> (pg < NUM_PAGES)%nat.
Proof. intros Hl (e & He & _). rewrite <- Hl. eapply lookup_lt_Some. eassumption. Qed.

Lemma count_resident_pos (pt : list Z) :
  (0 < count_resident pt)%nat -> exists pg e, pt !! pg = Some e /\ Z.land e PAGE_RESIDENT <> 0.
Proof.
  induction pt as [| x pt IH]; cbn [count_resident]; [lia |].
  destruct (is_resident x) eqn:E.
  - intros _. exists 0%nat, x. split; [reflexivity |]. apply is_resident_true. assumption.
  - intros H. destruct IH as (pg & e & He & Hr); [lia |]. exists (S pg), e. auto.
Qed.

Lemma pool_ok_counted (v : vm_state) : pool_ok v -> pool_ok (counted v).
Proof. intros []. split; assumption. Qed.

(** Loading a page that is not resident, below the limit. *)
Lemma pool_ok_mapped (page : page_t) (perm prot : Z) (v : vm_state) (q : nodes) (a : nat) :
  pool_ok v -> queue_ok v q -> valid_perm perm = true ->
  (page < NUM_PAGES)%nat -> ~ resident_in v page ->
  num_resident v < max_resident v ->
  pool_ok (mapped page perm prot v) /\
  queue_ok (mapped page perm prot v) (q ++ [(a, page)]).
Proof.
  intros [Hs He Ht Hc Hcap Hmax Hmap Hswap Hclean] [Hnd Hq] Hv Hlt Hnr Hroom.
  assert (Hlen : (page < length (page_table v))%nat) by lia.
  destruct (lookup_lt_is_Some_2 _ _ Hlen) as [e Hent].
  assert (Hres : Z.land e PAGE_RESIDENT = 0).
  { destruct (Z.eq_dec (Z.land e PAGE_RESIDENT) 0); [assumption |].
    exfalso. apply Hnr. exists e. auto. }
  pose proof (is_resident_mapped perm Hv) as Hnew.
  assert (Hnum : 0 <= num_resident v) by lia.
  assert (Hin : forall pg, resident_in (mapped page perm prot v) pg <->
                           pg = page \/ resident_in v pg).
  { intros pg. unfold resident_in, mapped. cbn [page_table].
    destruct (decide (pg = page)) as [-> | Hne].
    - rewrite list_lookup_insert_eq by assumption. split; [auto |]. intros _.
      eexists. split; [reflexivity |]. apply is_resident_true. assumption.
    - rewrite list_lookup_insert_ne by congruence. tauto. }
  split; [split |].
  - assumption.
  - assumption.
  - cbn. rewrite length_insert. assumption.
  - cbn [mapped num_resident page_table].
    pose proof (count_resident_insert (page_table v) page e
                  (with_perm (Z.lor 0 PAGE_RESIDENT) perm) Hent) as Hci.
    apply is_resident_false in Hres. rewrite Hres, Hnew in Hci.
    unfold wrap32. rewrite Z.mod_small by lia. lia.
  - cbn [mapped num_resident max_resident]. unfold wrap32. rewrite Z.mod_small by lia. lia.
  - assumption.
  - intros pg Hpg. apply Hin in Hpg. unfold mapped. cbn [os os_maps vmem_start].
    fold (page_start v page).
    destruct (decide (pg = page)) as [-> | Hne].
    + rewrite lookup_insert_eq. eexists. split; [reflexivity |]. cbn [m_data].
      apply swap_slot_length, slot_in_file; assumption.
    + destruct Hpg as [-> | Hpg]; [congruence |].
      unfold page_start at 1. cbn [vmem_start]. fold (page_start v pg).
      rewrite lookup_insert_ne by (intros E; apply page_start_inj in E; congruence).
      apply Hmap. assumption.
  - assumption.
  - intros pg e' m' He' Hr' Hd' Hm'.
    change (page_table (mapped page perm prot v))
      with (<[page := with_perm (Z.lor 0 PAGE_RESIDENT) perm]> (page_table v)) in He'.
    change (os_maps (os (mapped page perm prot v)))
      with (<[page_start v page := Mapping prot (swap_slot page (os_file (os v)))]>
              (os_maps (os v))) in Hm'.
    change (page_start (mapped page perm prot v) pg) with (page_start v pg) in Hm'.
    change (os_file (os (mapped page perm prot v))) with (os_file (os v)).
    destruct (decide (pg = page)) as [-> | Hne].
    + rewrite lookup_insert_eq in Hm'. injection Hm' as <-. reflexivity.
    + rewrite list_lookup_insert_ne in He' by congruence.
      rewrite lookup_insert_ne in Hm'
        by (intros E; apply page_start_inj in E; congruence).
      eapply Hclean; eassumption.
  - split.
    + rewrite fmap_app. apply NoDup_app. split; [assumption |].
      split; [| apply NoDup_singleton].
      intros x Hx Hx'. cbn in Hx'. apply list_elem_of_singleton in Hx' as ->.
      apply Hnr, Hq. assumption.
    + intros pg. rewrite Hin, fmap_app, elem_of_app, Hq. cbn.
      rewrite list_elem_of_singleton. tauto.
Qed.

(** Evicting the page at the head of the queue. *)
Lemma pool_ok_unmapped (victim : page_t) (dirty : bool) (m : mapping) (v : vm_state)
    (q : nodes) (b : nat) :
  pool_ok v -> queue_ok v ((b, victim) :: q) ->
  length (m_data m) = PAGE_SIZE ->
  let v' := unmapped victim dirty m v in
  (pool_ok v' /\ queue_ok v' q) /\
  num_resident v' = num_resident v - 1 /\ ~ resident_in v' victim /\
  forall pg, pg <> victim -> page_table v' !! pg = page_table v !! pg.
Proof.
  intros [Hs He Ht Hc Hcap Hmax Hmap Hswap Hclean] [Hnd Hq] Hmlen v'.
  rewrite fmap_cons in Hnd. cbn [snd] in Hnd. apply NoDup_cons in Hnd as [Hnotin Hnd].
  assert (Hvres : resident_in v victim) by (apply Hq; rewrite fmap_cons; left).
  pose proof (resident_in_lt v victim Ht Hvres) as Hvlt.
  destruct Hvres as (ev & Hev & Hevr).
  assert (Hlen : (victim < length (page_table v))%nat) by lia.
  assert (Hevb : is_resident ev = true) by (apply is_resident_true; assumption).
  assert (Hzero : is_resident 0 = false) by (apply is_resident_false, Z.land_0_l).
  pose proof (count_resident_insert (page_table v) victim ev 0 Hev) as Hci.
  rewrite Hevb, Hzero in Hci.
  assert (Hin : forall pg, resident_in v' pg <-> pg <> victim /\ resident_in v pg).
  { intros pg. unfold resident_in, v', unmapped. cbn [page_table].
    destruct (decide (pg = victim)) as [-> | Hne].
    - rewrite list_lookup_insert_eq by assumption. split; [| tauto].
      intros (e & [= <-] & Hr). rewrite Z.land_0_l in Hr. congruence.
    - rewrite list_lookup_insert_ne by congruence. tauto. }
  assert (Hnum : num_resident v' = num_resident v - 1).
  { unfold v', unmapped. cbn [num_resident]. unfold wrap32. apply Z.mod_small. lia. }
  split; [split; [split |] |].
  - assumption.
  - assumption.
  - unfold v', unmapped. cbn. rewrite length_insert. assumption.
  - rewrite Hnum. unfold v', unmapped. cbn [page_table]. lia.
  - rewrite Hnum. change (max_resident v') with (max_resident v). lia.
  - assumption.
  - intros pg Hpg. apply Hin in Hpg as [Hne Hpg].
    destruct (Hmap pg Hpg) as (m' & Hm' & Hl'). exists m'. split; [| assumption].
    assert (Hd : delete (page_start v victim) (os_maps (os v)) !! page_start v pg = Some m').
    { rewrite lookup_delete_ne by (intros E; apply page_start_inj in E; congruence).
      assumption. }
    unfold v', unmapped. destruct dirty; exact Hd.
  - unfold v'. rewrite unmapped_file_length by assumption. assumption.
  - intros pg e' m' He' Hr' Hd' Hm'.
    assert (Hne : pg <> victim).
    { intros ->. unfold v', unmapped in He'. cbn [page_table] in He'.
      rewrite list_lookup_insert_eq in He' by assumption. injection He' as <-.
      rewrite Z.land_0_l in Hr'. congruence. }
    assert (He0 : page_table v !! pg = Some e').
    { unfold v', unmapped in He'. cbn [page_table] in He'.
      rewrite list_lookup_insert_ne in He' by congruence. exact He'. }
    assert (Hm0 : os_maps (os v) !! page_start v pg = Some m').
    { assert (Hdel : delete (page_start v victim) (os_maps (os v)) !! page_start v pg
                     = Some m')
        by (unfold v', unmapped in Hm'; destruct dirty; exact Hm').
      rewrite lookup_delete_ne in Hdel
        by (intros E; apply page_start_inj in E; congruence).
      exact Hdel. }
    rewrite (Hclean pg e' m' He0 Hr' Hd' Hm0).
    unfold v', unmapped. destruct dirty; cbn [os os_file]; [| reflexivity].
    symmetry. apply swap_slot_file_write_other; [assumption | assumption |].
    apply slot_in_file; assumption.
  - split; [assumption |]. intros pg. rewrite Hin.
    specialize (Hq pg). rewrite fmap_cons, elem_of_cons in Hq. cbn [snd] in Hq.
    split.
    + intros Hpg. split; [intros ->; contradiction | apply Hq; auto].
    + intros [Hne Hpg]. apply Hq in Hpg as [-> | Hpg]; [congruence | assumption].
  - split; [assumption |]. split.
    + intros Hr. apply Hin in Hr. tauto.
    + intros pg Hne. unfold v', unmapped. cbn [page_table].
      apply list_lookup_insert_ne. congruence.
Qed.

(** Raising the permission of a resident page and setting one of its
    flags. *)
Lemma pool_ok_granted (page : page_t) (perm prot flag e : Z) (m : mapping) (v : vm_state) :
  pool_ok v -> page_table v !! page = Some e ->
  os_maps (os v) !! page_start v page = Some m ->
  Z.land e PAGE_RESIDENT <> 0 ->
  valid_perm perm = true -> Z.land flag PAGE_RESIDENT = 0 ->
  let v' := granted page perm prot flag e m v in
  pool_ok v' /\ (forall pg, resident_in v' pg <-> resident_in v pg).
Proof.
  intros [Hs He Ht Hc Hcap Hmax Hmap Hswap Hclean] Hent Hm Hres Hv Hflag v'.
  pose proof (lookup_lt_Some _ _ _ Hent) as Hlen.
  assert (Hpt : page_table v' = <[page := Z.lor (with_perm e perm) flag]> (page_table v)).
  { unfold v', granted. cbn. apply list_insert_insert_eq. }
  assert (Hbit : Z.land (Z.lor (with_perm e perm) flag) PAGE_RESIDENT
                 = Z.land e PAGE_RESIDENT).
  { rewrite land_lor_other by assumption.
    apply with_perm_flag; auto using valid_perm_in_mask, resident_mask. }
  assert (Hin : forall pg, resident_in v' pg <-> resident_in v pg).
  { intros pg. unfold resident_in. rewrite Hpt.
    destruct (decide (pg = page)) as [-> | Hne].
    - rewrite list_lookup_insert_eq by assumption. split.
      + intros (? & [= <-] & Hr). rewrite Hbit in Hr. eauto.
      + intros (e' & He' & Hr). assert (e' = e) as -> by congruence.
        eexists. split; [reflexivity |]. rewrite Hbit. assumption.
    - rewrite list_lookup_insert_ne by congruence. tauto. }
  split; [split |]; try assumption.
  - rewrite Hpt, length_insert. assumption.
  - rewrite Hpt. change (num_resident v') with (num_resident v).
    rewrite (count_resident_same _ _ e) by assumption. assumption.
  - intros pg Hpg. apply Hin in Hpg.
    change (os_maps (os v'))
      with (<[page_start v page := Mapping prot (m_data m)]> (os_maps (os v))).
    change (page_start v' pg) with (page_start v pg).
    destruct (decide (pg = page)) as [-> | Hne].
    + rewrite lookup_insert_eq. eexists. split; [reflexivity |]. cbn [m_data].
      destruct (Hmap page Hpg) as (m' & Hm' & Hl'). congruence.
    + rewrite lookup_insert_ne by (intros E; apply page_start_inj in E; congruence).
      apply Hmap. assumption.
  - intros pg e' m' He' Hr' Hd' Hm'. rewrite Hpt in He'.
    change (os_maps (os v'))
      with (<[page_start v page := Mapping prot (m_data m)]> (os_maps (os v))) in Hm'.
    change (page_start v' pg) with (page_start v pg) in Hm'.
    change (os_file (os v')) with (os_file (os v)).
    destruct (decide (pg = page)) as [-> | Hne].
    + rewrite list_lookup_insert_eq in He' by assumption. injection He' as <-.
      rewrite lookup_insert_eq in Hm'. injection Hm' as <-. cbn [m_data].
      apply (Hclean page e m Hent Hres); [| assumption].
      rewrite Z.land_lor_distr_l in Hd'. apply Z.lor_eq_0_iff in Hd' as [Hd' _].
      rewrite with_perm_flag in Hd' by auto using valid_perm_in_mask, dirty_mask.
      exact Hd'.
    + rewrite list_lookup_insert_ne in He' by congruence.
      rewrite lookup_insert_ne in Hm'
        by (intros E; apply page_start_inj in E; congruence).
      eapply Hclean; eassumption.
Qed.

End PoolInvariant.


(** ** Serving a fault on a page that is not resident *)

Section QueuePager.
Context `{cfg : config} {Hok : config_ok cfg} {P : Policy}.

Lemma page_of_in_pool (v : vm_state) (addr : Z) :
  pool_laid_out v -> vmem_start v <= addr < vmem_end v ->
  (page_of v addr < NUM_PAGES)%nat /\
  page_start v (page_of v addr) <= addr
    < page_start v (page_of v addr) + Z.of_nat PAGE_SIZE.
Proof.
  intros Hend Hrange. unfold pool_laid_out in Hend. unfold page_of, page_start.
  pose proof page_size_pos as Hps.
  set (d := addr - vmem_start v).
  assert (Hd : 0 <= d < Z.of_nat NUM_PAGES * Z.of_nat PAGE_SIZE)
    by (subst d; rewrite Nat2Z.inj_mul in Hend; lia).
  pose proof (Z.div_pos d (Z.of_nat PAGE_SIZE)) as Hq.
  pose proof (Z.mul_div_le d (Z.of_nat PAGE_SIZE)) as Hle.
  pose proof (Z.mul_succ_div_gt d (Z.of_nat PAGE_SIZE)) as Hgt.
  assert (Hqlt : d / Z.of_nat PAGE_SIZE < Z.of_nat NUM_PAGES)
    by (apply Z.div_lt_upper_bound; lia).
  split; [lia |].
  rewrite Nat2Z.inj_mul, Z2Nat.id by lia. subst d. lia.
Qed.

(** What the pager needs of a policy: a state that holds a queue takes a
    new node at the tail and gives up the one at the head. *)
Variable holds : pol -> nodes -> Prop.
Hypothesis holds_mapped : forall st q a pg,
  holds st q -> a ∉ q.*1 ->
  exists st', policy_page_mapped (Some a) pg st = Ret st' /\ holds st' (q ++ [(a, pg)]).
Hypothesis holds_evict : forall st q a pg,
  holds st ((a, pg) :: q) ->
  exists st', choose_and_evict_victim_page st = Ret (pg, st') /\ holds st' q.

Lemma load_fault_served (a : nat) (addr : Z) (s : sys) (q : nodes) :
  let page := page_of (vm s) addr in
  let q0 := room_made (vm s) q in
  pool_ok (vm s) -> queue_ok (vm s) q -> holds (ps s) q ->
  vmem_start (vm s) <= addr < vmem_end (vm s) ->
  ~ resident_in (vm s) page ->
  a ∉ q0.*1 ->
  exists s',
    sigsegv_handler (Some a) addr SEGV_MAPERR s = Ret s' /\
    pool_ok (vm s') /\ queue_ok (vm s') (q0 ++ [(a, page)]) /\
    holds (ps s') (q0 ++ [(a, page)]) /\
    entry_fields page (vm s') = Ret (PAGE_RESIDENT, 0, 0, PAGEPERM_NONE) /\
    os_maps (os (vm s')) !! page_start (vm s) page
      = Some (Mapping PROT_NONE (swap_slot page (os_file (os (vm s'))))) /\
    (forall pg, pg ∈ q0.*2 ->
       page_table (vm s') !! pg = page_table (vm s) !! pg /\
       os_maps (os (vm s')) !! page_start (vm s) pg
         = os_maps (os (vm s)) !! page_start (vm s) pg) /\
    num_faults (vm s') = wrap32 (num_faults (vm s) + 1) /\
    num_loads (vm s') = wrap32 (num_loads (vm s) + 1).
Proof.
  intros page q0 Hpool Hq Hholds Hrange Hnr Hfresh.
  pose proof (pool_ok_counted _ Hpool) as Hpool0.
  destruct Hpool as [Hs He Ht Hc Hcap Hmax Hmap Hswap Hclean].
  destruct (page_of_in_pool (vm s) addr He Hrange) as [Hlt _]. fold page in Hlt.
  assert (Hlen : (page < length (page_table (vm s)))%nat) by lia.
  destruct (lookup_lt_is_Some_2 _ _ Hlen) as [e Hent].
  assert (Hres : Z.land e PAGE_RESIDENT = 0).
  { destruct (Z.eq_dec (Z.land e PAGE_RESIDENT) 0); [assumption |].
    exfalso. apply Hnr. exists e. auto. }
  assert (Hfields : forall v pt,
            page_table v = <[page := with_perm (Z.lor 0 PAGE_RESIDENT) PAGEPERM_NONE]> pt ->
            (page < length pt)%nat ->
            entry_fields page v = Ret (PAGE_RESIDENT, 0, 0, PAGEPERM_NONE)).
  { intros v pt Hv Hl. apply entry_fields_Ret. split; [assumption |].
    eexists. split; [rewrite Hv; apply list_lookup_insert_eq; assumption |].
    rewrite !with_perm_flag
      by auto using none_in_mask, resident_mask, accessed_mask, dirty_mask.
    rewrite with_perm_perm by apply none_in_mask.
    rewrite Z.lor_0_l, Z.land_diag.
    rewrite resident_accessed, resident_dirty. auto. }
  unfold q0, room_made in *.
  destruct (Z.ltb_spec (num_resident (vm s)) (max_resident (vm s))) as [Hroom | Hfull].
  - destruct (holds_mapped (ps s) q a page Hholds Hfresh) as (p' & Hp' & Hholds').
    assert (Hnum : 0 <= num_resident (vm s)) by lia.
    destruct (pool_ok_mapped page PAGEPERM_NONE PROT_NONE (counted (vm s)) q a)
      as [Hpool' Hq']; auto using valid_perm_none.
    eexists. split.
    { apply (sigsegv_maperr_room (Some a) addr s e p'); try assumption; lia. }
    cbn [vm ps]. split; [assumption |]. split; [assumption |]. split; [assumption |].
    split; [eapply Hfields; [reflexivity | assumption] |].
    split; [cbn; apply lookup_insert_eq |].
    split; [| split; reflexivity].
    intros pg Hpg.
    assert (Hne : pg <> page) by (intros ->; apply Hnr, Hq; assumption).
    split.
    + cbn. apply list_lookup_insert_ne. intros E. apply Hne. symmetry. exact E.
    + cbn. apply lookup_insert_ne. intros E. apply page_start_inj in E.
      apply Hne. symmetry. exact E.
  - assert (Hnum : num_resident (vm s) = max_resident (vm s)) by lia.
    assert (Hpos : (0 < count_resident (page_table (vm s)))%nat) by lia.
    destruct q as [| [b victim] q1].
    { exfalso. destruct (count_resident_pos _ Hpos) as (pg & e' & He' & Hr').
      assert (Hin : pg ∈ ([] : list (nat * nat)).*2) by (apply Hq; exists e'; auto).
      apply elem_of_nil in Hin. assumption. }
    cbn [tail] in *.
    destruct (holds_evict (ps s) q1 b victim Hholds) as (p1 & Hp1 & Hholds1).
    destruct (holds_mapped p1 q1 a page Hholds1 Hfresh) as (p' & Hp' & Hholds').
    assert (Hvres : resident_in (vm s) victim)
      by (apply Hq; rewrite fmap_cons; left).
    pose proof (resident_in_lt _ _ Ht Hvres) as Hvlt.
    destruct (Hmap victim Hvres) as (m & Hm & Hmlen).
    destruct Hvres as (ev & Hev & Hevr).
    set (dirty := negb (Z.land ev PAGE_DIRTY =? 0)).
    destruct (pool_ok_unmapped victim dirty m (counted (vm s)) q1 b Hpool0 Hq Hmlen)
      as ([Hpool1 Hq1] & Hnum1 & Hvgone & Hother).
    set (v1 := unmapped victim dirty m (counted (vm s))) in *.
    assert (Hnr1 : ~ resident_in v1 page).
    { intros Hr. apply Hq1 in Hr. apply Hnr, Hq. rewrite fmap_cons. right. assumption. }
    destruct (pool_ok_mapped page PAGEPERM_NONE PROT_NONE v1 q1 a)
      as [Hpool' Hq']; auto using valid_perm_none.
    { rewrite Hnum1. change (num_resident (counted (vm s))) with (num_resident (vm s)).
      change (max_resident v1) with (max_resident (vm s)). lia. }
    eexists. split.
    { apply (sigsegv_maperr_full (Some a) addr s e victim ev m p1 p'); assumption. }
    cbn [vm ps]. fold dirty. fold v1.
    split; [assumption |]. split; [assumption |]. split; [assumption |].
    split; [eapply Hfields; [reflexivity | ] |].
    { destruct Hpool1 as [_ _ Ht1 _ _ _ _ _ _]. lia. }
    split; [cbn; apply lookup_insert_eq |].
    split; [| split; reflexivity].
    intros pg Hpg.
    assert (Hne : pg <> page).
    { intros ->. apply Hnr, Hq. rewrite fmap_cons. right. assumption. }
    assert (Hnv : pg <> victim).
    { intros ->. destruct Hq as [Hnd _]. rewrite fmap_cons in Hnd.
      apply NoDup_cons in Hnd as [Hnotin _]. contradiction. }
    split.
    + cbn [mapped page_table].
      rewrite list_lookup_insert_ne by (intros E; apply Hne; symmetry; exact E).
      apply Hother. assumption.
    + cbn [mapped os os_maps vmem_start].
      change (vmem_start v1) with (vmem_start (vm s)). fold (page_start (vm s) page).
      rewrite lookup_insert_ne
        by (intros E; apply page_start_inj in E; apply Hne; symmetry; exact E).
      assert (Hd : delete (page_start (vm s) victim) (os_maps (os (vm s)))
                     !! page_start (vm s) pg
                   = os_maps (os (vm s)) !! page_start (vm s) pg).
      { apply lookup_delete_ne. intros E. apply page_start_inj in E. congruence. }
      unfold v1, unmapped. destruct dirty; exact Hd.
Qed.

End QueuePager.

Section ClruQueue.
Context `{cfg : config} {Hok : config_ok cfg}.

Lemma clru_set_prev_dom (p v : ptr) (h h' : gmap nat CLRU.page_node) (x : nat) :
  CLRU.set_prev p v h = Ret h' -> h !! x = None -> h' !! x = None.
Proof.
  unfold CLRU.set_prev, CLRU.deref. intros H Hx.
  destruct p as [a |]; [| discriminate].
  destruct (h !! a) as [n |] eqn:Ha; [| discriminate].
  cbn in H. injection H as <-. rewrite lookup_insert_ne by congruence. assumption.
Qed.

Lemma clru_set_next_dom (p v : ptr) (h h' : gmap nat CLRU.page_node) (x : nat) :
  CLRU.set_next p v h = Ret h' -> h !! x = None -> h' !! x = None.
Proof.
  unfold CLRU.set_next, CLRU.deref. intros H Hx.
  destruct p as [a |]; [| discriminate].
  destruct (h !! a) as [n |] eqn:Ha; [| discriminate].
  cbn in H. injection H as <-. rewrite lookup_insert_ne by congruence. assumption.
Qed.

Lemma clru_mapped_dom (a pg : nat) (st st' : CLRU.pol) (x : nat) :
  CLRU.policy_page_mapped (Some a) pg st = Ret st' ->
  x <> a -> CLRU.heap st !! x = None -> CLRU.heap st' !! x = None.
Proof.
  unfold CLRU.policy_page_mapped. intros H Hne Hx.
  apply bind_Ret in H as (L & _ & H).
  apply bind_Ret in H as ([L' h'] & HL & H). injection H as <-. cbn [CLRU.heap].
  assert (H0 : <[a := CLRU.Node pg None None]> (CLRU.heap st) !! x = None)
    by (rewrite lookup_insert_ne by congruence; assumption).
  destruct (CLRU.head L).
  - apply bind_Ret in HL as (h1 & Hh1 & HL).
    apply bind_Ret in HL as (h2 & Hh2 & HL). injection HL as <- <-.
    eapply clru_set_next_dom; [eassumption |].
    eapply clru_set_prev_dom; eassumption.
  - injection HL as <- <-. assumption.
Qed.

Lemma clru_evict_repr (hp : option nat) (st : CLRU.pol) (q : nodes) (a pg : nat) :
  clru_repr hp st ((a, pg) :: q) ->
  exists st', CLRU.choose_and_evict_victim_page st = Ret (pg, st') /\
              clru_repr (Some a) st' q /\
              CLRU.heap st' = delete a (CLRU.heap st).
Proof.
  intros [(L & Hl & Hnum & [Hhead Htail Hnd Hseg])].
  cbn [dseg] in Hseg. destruct Hseg as [Ha Hseg].
  rewrite fmap_cons in Hnd. cbn [fst] in Hnd. apply NoDup_cons in Hnd as [Hnotin Hnd].
  unfold CLRU.choose_and_evict_victim_page, CLRU.the_loaded. rewrite Hl. osimpl.
  rewrite Hhead. cbn [first_ptr CLRU.deref]. rewrite Ha. osimpl.
  eexists. split; [reflexivity |]. split; [| reflexivity].
  split. eexists. split; [reflexivity |].
  cbn [CLRU.num_loaded CLRU.set_num_loaded CLRU.set_head CLRU.heap CLRU.page CLRU.next].
  split; [rewrite Hnum; cbn [length]; lia |].
  split; cbn [CLRU.head CLRU.tail CLRU.set_num_loaded CLRU.set_head].
  - reflexivity.
  - intros Hq. rewrite Htail by discriminate. apply last_ptr_cons. assumption.
  - assumption.
  - eapply dseg_ext; [| eassumption]. intros b Hb.
    apply lookup_delete_ne. intros ->. contradiction.
Qed.

Lemma clru_holds_mapped (st : CLRU.pol) (q : nodes) (a pg : nat) :
  clru_holds st q -> a ∉ q.*1 ->
  exists st', CLRU.policy_page_mapped (Some a) pg st = Ret st' /\
              clru_holds st' (q ++ [(a, pg)]).
Proof.
  intros [[hp Hrepr] Hrest] Ha.
  destruct (clru_mapped_repr hp st q a pg Hrepr (Hrest a Ha)) as (st' & hp' & Hst' & Hrepr' & _).
  exists st'. split; [assumption |]. split; [eauto |].
  intros x Hx. rewrite fmap_app, not_elem_of_app in Hx. destruct Hx as [Hx Hxa].
  cbn in Hxa. rewrite list_elem_of_singleton in Hxa.
  eapply clru_mapped_dom; eauto.
Qed.

Lemma clru_holds_evict (st : CLRU.pol) (q : nodes) (a pg : nat) :
  clru_holds st ((a, pg) :: q) ->
  exists st', CLRU.choose_and_evict_victim_page st = Ret (pg, st') /\
              clru_holds st' q.
Proof.
  intros [[hp Hrepr] Hrest].
  destruct (clru_evict_repr hp st q a pg Hrepr) as (st' & Hst' & Hrepr' & Hheap).
  exists st'. split; [assumption |]. split; [eauto |].
  intros x Hx. rewrite Hheap. destruct (decide (x = a)) as [-> | Hne].
  - apply lookup_delete_eq.
  - rewrite lookup_delete_ne by congruence. apply Hrest.
    rewrite fmap_cons, not_elem_of_cons. auto.
Qed.

End ClruQueue.

Section LoadFaultsServed.
Context `{cfg : config} {Hok : config_ok cfg}.

(** X7: under FIFO a fault on a page of the pool that is not resident is always
    served.  In a consistent state whose queue [q] holds the resident
    pages, with [malloc] giving a node that is not in use, the handler
    returns: when the limit is reached it has evicted the page at the head
    of the queue, and in either case it has loaded the faulting page with
    the bytes of its swap slot, permission NONE and clean flags, and put it
    at the tail; the other resident pages keep their entries and their
    memory, and the state is consistent again. *)
Theorem fifo_page_fault_served (a : nat) (addr : Z) (s : @sys fifo_policy) (q : nodes) :
  let page := page_of (vm s) addr in
  let q' := room_made (vm s) q in
  pool_ok (vm s) -> queue_ok (vm s) q -> fifo_repr (ps s) q ->
  vmem_start (vm s) <= addr < vmem_end (vm s) ->
  ~ resident_in (vm s) page ->
  a ∉ q'.*1 ->
  exists s',
    sigsegv_handler (Some a) addr SEGV_MAPERR s = Ret s' /\
    pool_ok (vm s') /\ queue_ok (vm s') (q' ++ [(a, page)]) /\
    fifo_repr (ps s') (q' ++ [(a, page)]) /\
    page_loaded page q'.*2 (vm s) (vm s').
Proof.
  intros page q' Hpool Hq Hrepr Hrange Hnr Hfresh.
  destruct (load_fault_served (P := fifo_policy) fifo_repr
              fifo_mapped_repr fifo_evict_repr a addr s q Hpool Hq Hrepr Hrange Hnr Hfresh)
    as (s' & Hs' & Hpool' & Hq' & Hrepr' & Hf & Hb & Hk & Hnf & Hnl).
  exists s'. split; [assumption |]. split; [assumption |]. split; [assumption |].
  split; [assumption |]. split; assumption.
Qed.

(** X8: under CLOCK/LRU a fault on a page of the pool that is not resident
    is always served, and as under FIFO.  In a consistent state whose queue
    [q] holds the resident pages and no other node, with [malloc] giving a
    node that is not in use, the handler returns: when the limit is reached
    it has evicted the page at the head of the queue, and in either case it
    has loaded the faulting page with the bytes of its swap slot,
    permission NONE and clean flags, and put it at the tail; the other
    resident pages keep their entries and their memory, and the state is
    consistent again. *)
Theorem clru_page_fault_served (a : nat) (addr : Z) (s : @sys clru_policy) (q : nodes) :
  let page := page_of (vm s) addr in
  let q' := room_made (vm s) q in
  pool_ok (vm s) -> queue_ok (vm s) q -> clru_holds (ps s) q ->
  vmem_start (vm s) <= addr < vmem_end (vm s) ->
  ~ resident_in (vm s) page ->
  a ∉ q'.*1 ->
  exists s',
    sigsegv_handler (Some a) addr SEGV_MAPERR s = Ret s' /\
    pool_ok (vm s') /\ queue_ok (vm s') (q' ++ [(a, page)]) /\
    clru_holds (ps s') (q' ++ [(a, page)]) /\
    page_loaded page q'.*2 (vm s) (vm s').
Proof.
  intros page q' Hpool Hq Hrepr Hrange Hnr Hfresh.
  destruct (load_fault_served (P := clru_policy) clru_holds
              clru_holds_mapped clru_holds_evict a addr s q Hpool Hq Hrepr Hrange Hnr Hfresh)
    as (s' & Hs' & Hpool' & Hq' & Hrepr' & Hf & Hb & Hk & Hnf & Hnl).
  exists s'. split; [assumption |]. split; [assumption |]. split; [assumption |].
  split; [assumption |]. split; assumption.
Qed.

End LoadFaultsServed.


(** ** Serving a fault for a forbidden access *)

Section AccessFaultsServed.
Context `{cfg : config} {Hok : config_ok cfg} {P : Policy}.

Lemma sigsegv_accerr_other (alloc : ptr) (addr : Z) (s : sys) (e : Z) :
  let page := page_of (vm s) addr in
  vmem_start (vm s) <= addr < vmem_end (vm s) ->
  (page < NUM_PAGES)%nat ->
  page_table (vm s) !! page = Some e ->
  Z.land e PAGE_RESIDENT <> 0 ->
  Z.land e PAGEPERM_MASK <> PAGEPERM_NONE ->
  Z.land e PAGEPERM_MASK <> PAGEPERM_READ ->
  sigsegv_handler alloc addr SEGV_ACCERR s = Ret (Sys (counted (vm s)) (ps s)).
Proof.
  intros page Hrange Hlt He Hres Hnn Hnr.
  subst page. enter_handler Hrange Hlt. set (page := page_of (vm s) addr) in *.
  change (SEGV_ACCERR =? SEGV_MAPERR) with false.
  change (SEGV_ACCERR =? SEGV_ACCERR) with true.
  cbn [orb]. osimpl. cbn [vm ps]. fold (counted (vm s)).
  rewrite (is_page_resident_eq page (counted (vm s)) e) by assumption. osimpl.
  destruct (Z.eqb_spec (Z.land e PAGE_RESIDENT) 0); [tauto |]. cbn [negb]. osimpl.
  rewrite (get_page_permission_eq page (counted (vm s)) e) by assumption. osimpl.
  destruct (Z.eqb_spec (Z.land e PAGEPERM_MASK) PAGEPERM_NONE); [tauto |].
  destruct (Z.eqb_spec (Z.land e PAGEPERM_MASK) PAGEPERM_READ); [tauto |].
  reflexivity.
Qed.

Lemma granted_fields (page : page_t) (perm prot flag e : Z) (m : mapping) (v : vm_state) :
  (page < NUM_PAGES)%nat -> page_table v !! page = Some e ->
  valid_perm perm = true -> Z.land flag PAGEPERM_MASK = 0 ->
  entry_fields page (granted page perm prot flag e m v)
  = Ret (Z.land (Z.lor e flag) PAGE_RESIDENT, Z.land (Z.lor e flag) PAGE_ACCESSED,
         Z.land (Z.lor e flag) PAGE_DIRTY, perm).
Proof.
  intros Hlt He Hv Hflag. pose proof (lookup_lt_Some _ _ _ He) as Hlen.
  pose proof (valid_perm_in_mask perm Hv) as Hmask.
  apply entry_fields_Ret. split; [assumption |].
  exists (Z.lor (with_perm e perm) flag). split.
  { cbn. apply list_lookup_insert_eq. rewrite length_insert. assumption. }
  rewrite !(Z.land_lor_distr_l _ flag).
  rewrite !with_perm_flag by auto using resident_mask, accessed_mask, dirty_mask.
  rewrite with_perm_perm, Hflag, Z.lor_0_r by assumption. auto.
Qed.

Lemma granted_served (page : page_t) (perm prot flag e : Z) (m : mapping) (v : vm_state) :
  os_maps (os v) !! page_start v page = Some m ->
  access_served page v (granted page perm prot flag e m (counted v)).
Proof.
  intros Hm. split; try reflexivity.
  - intros pg Hne. cbn. rewrite !list_lookup_insert_ne by congruence. reflexivity.
  - intros x. cbn [granted protected os os_maps set_page_table counted set_num_faults
                   vmem_start].
    fold (page_start v page).
    destruct (decide (x = page_start v page)) as [-> | Hne].
    + rewrite lookup_insert_eq, Hm. reflexivity.
    + rewrite lookup_insert_ne by congruence. reflexivity.
Qed.

Lemma accerr_keeps_consistent (alloc : ptr) (addr : Z) (s : sys) :
  pool_ok (vm s) ->
  vmem_start (vm s) <= addr < vmem_end (vm s) ->
  resident_in (vm s) (page_of (vm s) addr) ->
  exists s',
    sigsegv_handler alloc addr SEGV_ACCERR s = Ret s' /\ ps s' = ps s /\
    pool_ok (vm s') /\
    forall pg, resident_in (vm s') pg <-> resident_in (vm s) pg.
Proof.
  intros Hpool Hrange Hres.
  destruct (page_of_in_pool (vm s) addr (pool_end _ Hpool) Hrange) as [Hlt _].
  pose proof (pool_ok_counted _ Hpool) as Hpool0.
  destruct (pool_mapped _ Hpool _ Hres) as (m & Hm & _).
  destruct Hres as (e & He & Hr).
  destruct (Z.eq_dec (Z.land e PAGEPERM_MASK) PAGEPERM_NONE) as [Hnone | Hnn];
    [| destruct (Z.eq_dec (Z.land e PAGEPERM_MASK) PAGEPERM_READ) as [Hread | Hnread]].
  - eexists. split; [apply (sigsegv_accerr_none alloc addr s e m); assumption |].
    split; [reflexivity |].
    apply (pool_ok_granted _ PAGEPERM_READ PROT_READ PAGE_ACCESSED e m
             (counted (vm s)) Hpool0 He Hm Hr valid_perm_read).
    rewrite Z.land_comm. apply resident_accessed.
  - eexists. split; [apply (sigsegv_accerr_read alloc addr s e m); assumption |].
    split; [reflexivity |].
    apply (pool_ok_granted _ PAGEPERM_RDWR (Z.lor PROT_READ PROT_WRITE) PAGE_DIRTY e m
             (counted (vm s)) Hpool0 He Hm Hr valid_perm_rdwr).
    rewrite Z.land_comm. apply resident_dirty.
  - eexists. split; [apply (sigsegv_accerr_other alloc addr s e); assumption |].
    split; [reflexivity |]. split; [assumption | reflexivity].
Qed.

(** X9: a fault for a forbidden access to a resident page of the pool is always
    served, and without the policy: the handler returns with the policy's
    state as it was; permission NONE has become READ with the page marked
    accessed, READ has become RDWR with the page marked dirty, one step per
    fault, and any other permission is left alone.  The other entries, the
    bytes of all pages, the swap file and the counts of resident pages and
    loads are untouched, and a consistent state stays consistent. *)
Theorem access_fault_raises_permission
    (alloc : ptr) (addr : Z) (s : sys) (r a d p : Z) :
  let page := page_of (vm s) addr in
  pool_ok (vm s) ->
  vmem_start (vm s) <= addr < vmem_end (vm s) ->
  entry_fields page (vm s) = Ret (r, a, d, p) -> r <> 0 ->
  exists s',
    sigsegv_handler alloc addr SEGV_ACCERR s = Ret s' /\ ps s' = ps s /\
    entry_fields page (vm s') = Ret (raised (r, a, d, p)) /\
    access_served page (vm s) (vm s') /\
    pool_ok (vm s') /\
    forall pg, resident_in (vm s') pg <-> resident_in (vm s) pg.
Proof.
  intros page Hpool Hrange Hf Hr.
  apply entry_fields_Ret in Hf as (Hlt & e & He & -> & -> & -> & ->).
  pose proof (pool_ok_counted _ Hpool) as Hpool0.
  destruct (pool_mapped _ Hpool page) as (m & Hm & Hmlen); [exists e; auto |].
  unfold raised.
  destruct (Z.eqb_spec (Z.land e PAGEPERM_MASK) PAGEPERM_NONE) as [Hnone | Hnn].
  - eexists. split; [apply (sigsegv_accerr_none alloc addr s e m); assumption |].
    cbn [vm ps]. split; [reflexivity |].
    destruct (pool_ok_granted page PAGEPERM_READ PROT_READ PAGE_ACCESSED e m
                (counted (vm s)) Hpool0 He Hm Hr valid_perm_read)
      as [Hpool' Hres']; [rewrite Z.land_comm; apply resident_accessed |].
    split; [| split; [apply granted_served; assumption | split; assumption]].
    rewrite granted_fields by auto using valid_perm_read, accessed_mask.
    rewrite land_lor_absorb, !land_lor_other;
      [reflexivity | apply accessed_dirty
       | rewrite Z.land_comm; apply resident_accessed].
  - destruct (Z.eqb_spec (Z.land e PAGEPERM_MASK) PAGEPERM_READ) as [Hread | Hnread].
    + eexists. split; [apply (sigsegv_accerr_read alloc addr s e m); assumption |].
      cbn [vm ps]. split; [reflexivity |].
      destruct (pool_ok_granted page PAGEPERM_RDWR (Z.lor PROT_READ PROT_WRITE)
                  PAGE_DIRTY e m (counted (vm s)) Hpool0 He Hm Hr valid_perm_rdwr)
        as [Hpool' Hres']; [rewrite Z.land_comm; apply resident_dirty |].
      split; [| split; [apply granted_served; assumption | split; assumption]].
      rewrite granted_fields by auto using valid_perm_rdwr, dirty_mask.
      rewrite land_lor_absorb, !land_lor_other;
        [reflexivity | rewrite Z.land_comm; apply accessed_dirty
         | rewrite Z.land_comm; apply resident_dirty].
    + eexists. split; [apply (sigsegv_accerr_other alloc addr s e); assumption |].
      cbn [vm ps]. split; [reflexivity |].
      split; [apply entry_fields_Ret; split; [assumption |]; exists e; auto |].
      split; [split; reflexivity |]. split; [assumption |]. reflexivity.
Qed.


End AccessFaultsServed.


(** ** Initialisation, and the faults the handler cannot serve *)

Section Initialisation.
Context `{cfg : config} {Hok : config_ok cfg}.

Lemma swap_slot_fresh (page : page_t) (tl : list Byte.byte) :
  (page < NUM_PAGES)%nat ->
  swap_slot page (zeros (NUM_PAGES * PAGE_SIZE) ++ tl) = zeros PAGE_SIZE.
Proof.
  intros Hlt. unfold swap_slot, zeros.
  assert (Hle : (page * PAGE_SIZE + PAGE_SIZE <= NUM_PAGES * PAGE_SIZE)%nat) by nia.
  rewrite drop_app_le by (rewrite length_replicate; lia).
  rewrite drop_replicate.
  rewrite take_app_le by (rewrite length_replicate; lia).
  rewrite take_replicate. f_equal. lia.
Qed.

Lemma vmem_init_returns {P : Policy} (max : Z) (s : sys) (p : pol) (r : Z) :
  policy_init true (int32 max) (ps s) = (r, p) -> r <> 0 ->
  vmem_init all_ok max s =
    Ret (Sys (VM VIRTUALMEM_ADDR_START
                 (VIRTUALMEM_ADDR_START + Z.of_nat (NUM_PAGES * PAGE_SIZE))
                 0 max 0 (num_loads (vm s)) (replicate NUM_PAGES 0)
                 (OS (os_maps (os (vm s)))
                     (zeros (NUM_PAGES * PAGE_SIZE) ++ [Byte.x78])
                     (NUM_PAGES * PAGE_SIZE + 1)
                     (SysLseek (NUM_PAGES * PAGE_SIZE) :: os_trace (os (vm s)))))
             p).
Proof.
  intros Hp Hr. unfold vmem_init.
  cbn [max_resident set_page_table all_ok malloc_ok open_ok unlink_ok write_ok
       sigsegv_ok sigalrm_ok setitimer_ok negb].
  rewrite Hp.
  destruct (Z.eqb_spec r 0); [contradiction |].
  unfold os_lseek. cbn [os set_page_table os_maps os_file os_pos os_trace].
  destruct (Z.ltb_spec (Z.of_nat (NUM_PAGES * PAGE_SIZE)) 0); [lia |].
  unfold set_os, file_write. cbn [vmem_start vmem_end num_resident max_resident
    num_faults num_loads page_table length].
  rewrite take_nil, drop_nil, app_nil_r, Nat.sub_0_r. reflexivity.
Qed.

(** The state [vmem_init] returns is consistent, with no page resident. *)
Lemma fresh_pool_ok (max nl : Z) (maps : gmap Z mapping) (tl : list Byte.byte)
    (pos : nat) (t : list syscall) :
  0 < max < 2 ^ 32 ->
  let v := VM VIRTUALMEM_ADDR_START
              (VIRTUALMEM_ADDR_START + Z.of_nat (NUM_PAGES * PAGE_SIZE))
              0 max 0 nl (replicate NUM_PAGES 0)
              (OS maps (zeros (NUM_PAGES * PAGE_SIZE) ++ tl) pos t) in
  pool_ok v /\ queue_ok v [].
Proof.
  intros Hmax v.
  assert (Hnone : forall pg, ~ resident_in v pg).
  { intros pg (e & He & Hres). cbn [v page_table] in He.
    apply lookup_replicate in He as [-> _]. rewrite Z.land_0_l in Hres. congruence. }
  split; [split |].
  - cbn. unfold VIRTUALMEM_ADDR_START. lia.
  - reflexivity.
  - cbn. apply length_replicate.
  - cbn [v num_resident page_table]. rewrite count_resident_replicate. reflexivity.
  - cbn. lia.
  - assumption.
  - intros pg Hpg. destruct (Hnone pg Hpg).
  - cbn [v os os_file]. rewrite length_app. unfold zeros. rewrite length_replicate. lia.
  - intros pg e m He Hr. destruct (Hnone pg). exists e. auto.
  - split; [constructor |]. intros pg.
    split; [intros Hin; apply elem_of_nil in Hin; contradiction |].
    intros Hpg. destruct (Hnone pg Hpg).
Qed.

(** [policy_init] fails exactly when [malloc] gives no memory. *)
Lemma policy_init_cases (P : Policy) (max : Z) (st : pol) :
  P = fifo_policy \/ P = clru_policy ->
  (policy_init false max st).1 = 0 /\
  exists p, policy_init true max st = (1, p).
Proof.
  intros [-> | ->]; (split; [reflexivity |]); eexists; reflexivity.
Qed.

(** The exits of [vmem_init], in the order of the calls. *)
Lemma vmem_init_exits (P : Policy) (h : host) (max : Z) (s : sys) :
  P = fifo_policy \/ P = clru_policy ->
  (malloc_ok h && open_ok h && unlink_ok h && write_ok h = false ->
   vmem_init h max s = Stop Aborted) /\
  (malloc_ok h && open_ok h && unlink_ok h && write_ok h = true ->
   sigsegv_ok h && sigalrm_ok h && setitimer_ok h = false ->
   vmem_init h max s = Stop (Exited 1)) /\
  (malloc_ok h && open_ok h && unlink_ok h && write_ok h = true ->
   sigsegv_ok h && sigalrm_ok h && setitimer_ok h = true ->
   vmem_init h max s = vmem_init all_ok max s).
Proof.
  intros HP.
  destruct (policy_init_cases P (int32 max) (ps s) HP) as (Hfail & p & Hgood).
  assert (Hseek : (Z.of_nat (NUM_PAGES * PAGE_SIZE) <? 0) = false) by (apply Z.ltb_ge; lia).
  destruct h as [m o u w g a t].
  cbn [malloc_ok open_ok unlink_ok write_ok sigsegv_ok sigalrm_ok setitimer_ok].
  unfold vmem_init.
  cbn [malloc_ok open_ok unlink_ok write_ok sigsegv_ok sigalrm_ok setitimer_ok
       max_resident set_page_table all_ok].
  destruct m.
  - rewrite Hgood. change (1 =? 0) with false. cbv iota.
    unfold os_lseek. cbn [fst snd]. cbv beta iota zeta. rewrite Hseek.
    destruct o, u, w, g, a, t; cbn [negb andb]; cbv iota;
      (split; [| split]); intros; try discriminate; reflexivity.
  - destruct (policy_init false (int32 max) (ps s)) as [r p0]. cbn [fst] in Hfail.
    subst r. change (0 =? 0) with true. cbv iota.
    split; [reflexivity | split; intros; discriminate].
Qed.

(** X10: [vmem_init] gives up with [abort()] when the policy cannot be
    initialised or when [open], [unlink] or [write] on the swap file fails,
    and with [exit(1)] when, those having succeeded, a handler cannot be
    installed or the timer cannot be started; otherwise, whatever the prior
    state, it returns with a consistent pager in which no page is resident,
    the table is all zero, the counters of resident pages and faults are
    zero, and every page's swap slot holds zeros, so that a page reads as
    zeros when it is first loaded.  It removes no mapping of the address
    space. *)
Theorem vmem_init_starts_consistent (P : Policy) (h : host) (max : Z) (s : sys) :
  P = fifo_policy \/ P = clru_policy ->
  0 < max < 2 ^ 32 ->
  (malloc_ok h && open_ok h && unlink_ok h && write_ok h = false ->
   vmem_init h max s = Stop Aborted) /\
  (malloc_ok h && open_ok h && unlink_ok h && write_ok h = true ->
   sigsegv_ok h && sigalrm_ok h && setitimer_ok h = false ->
   vmem_init h max s = Stop (Exited 1)) /\
  (malloc_ok h && open_ok h && unlink_ok h && write_ok h = true ->
   sigsegv_ok h && sigalrm_ok h && setitimer_ok h = true ->
   exists s',
     vmem_init h max s = Ret s' /\
     pool_ok (vm s') /\ queue_ok (vm s') [] /\
     get_vmem_start (vm s') = VIRTUALMEM_ADDR_START /\
     get_vmem_end (vm s') = VIRTUALMEM_ADDR_START + Z.of_nat (NUM_PAGES * PAGE_SIZE) /\
     max_resident (vm s') = max /\ num_resident (vm s') = 0 /\
     get_num_faults (vm s') = 0 /\
     page_table (vm s') = replicate NUM_PAGES 0 /\
     (forall page, (page < NUM_PAGES)%nat ->
        swap_slot page (os_file (os (vm s'))) = zeros PAGE_SIZE) /\
     os_maps (os (vm s')) = os_maps (os (vm s))).
Proof.
  intros HP Hmax.
  destruct (vmem_init_exits P h max s HP) as (Habort & Hexit & Hgranted).
  split; [exact Habort |]. split; [exact Hexit |].
  intros Hfile Hsignals. rewrite (Hgranted Hfile Hsignals).
  destruct (policy_init_cases P (int32 max) (ps s) HP) as (_ & p & Hp).
  eexists. split; [apply (vmem_init_returns max s p 1); [exact Hp | discriminate] |].
  cbn [vm].
  destruct (fresh_pool_ok max (num_loads (vm s)) (os_maps (os (vm s))) [Byte.x78]
              (NUM_PAGES * PAGE_SIZE + 1)
              (SysLseek (NUM_PAGES * PAGE_SIZE) :: os_trace (os (vm s))) Hmax)
    as [Hpool Hq].
  split; [exact Hpool |]. split; [exact Hq |].
  repeat (split; [reflexivity |]). split; [| reflexivity].
  intros page Hlt. cbn [os os_file]. apply swap_slot_fresh. assumption.
Qed.

Lemma vmem_init_policy {P : Policy} (max : Z) (s s' : sys) :
  vmem_init all_ok max s = Ret s' -> ps s' = (policy_init true (int32 max) (ps s)).2.
Proof.
  unfold vmem_init.
  cbn [max_resident set_page_table all_ok malloc_ok open_ok unlink_ok write_ok
       sigsegv_ok sigalrm_ok setitimer_ok negb].
  destruct (policy_init true (int32 max) (ps s)) as [r p].
  destruct (r =? 0); [discriminate |].
  unfold os_lseek. cbn [fst snd].
  destruct (_ <? 0); [discriminate |]. intros [= <-]. reflexivity.
Qed.

Lemma clru_init_holds (max : Z) :
  clru_holds (CLRU.policy_init true max CLRU.start).2 [].
Proof.
  split.
  - exists None. split. eexists. split; [reflexivity |]. split; [reflexivity |].
    split; cbn; [reflexivity | congruence | constructor | exact I].
  - intros a _. apply lookup_empty.
Qed.

End Initialisation.

Section Refusals.
Context `{cfg : config} {Hok : config_ok cfg} {P : Policy}.

(** X11: the handler gives up with [abort()] on a fault it cannot serve: an
    address outside the pool, a code that is neither of the two it knows,
    a forbidden access to a page that is not resident, and, while there is
    room, a missing mapping for a page the table already has resident. *)
Theorem sigsegv_handler_refuses (alloc : ptr) (addr code : Z) (s : sys) :
  let page := page_of (vm s) addr in
  pool_laid_out (vm s) -> length (page_table (vm s)) = NUM_PAGES ->
  ~ (vmem_start (vm s) <= addr < vmem_end (vm s)) \/
  (code <> SEGV_MAPERR /\ code <> SEGV_ACCERR) \/
  (code = SEGV_ACCERR /\ ~ resident_in (vm s) page) \/
  (code = SEGV_MAPERR /\ resident_in (vm s) page /\
   num_resident (vm s) < max_resident (vm s)) ->
  sigsegv_handler alloc addr code s = Stop Aborted.
Proof.
  intros page Hend Hlen Hcase.
  destruct (Z.le_gt_cases (vmem_start (vm s)) addr) as [Hlo | Hlo];
    [destruct (Z.lt_ge_cases addr (vmem_end (vm s))) as [Hhi | Hhi] |].
  2:{ unfold sigsegv_handler. destruct (Z.geb_spec addr (vmem_end (vm s))); [| lia].
      rewrite orb_true_r. reflexivity. }
  2:{ unfold sigsegv_handler. destruct (Z.ltb_spec addr (vmem_start (vm s))); [| lia].
      reflexivity. }
  assert (Hrange : vmem_start (vm s) <= addr < vmem_end (vm s)) by lia.
  destruct (page_of_in_pool (vm s) addr Hend Hrange) as [Hlt _].
  destruct Hcase as [Hout | Hcase]; [contradiction |].
  subst page. enter_handler Hrange Hlt. set (page := page_of (vm s) addr) in *.
  assert (Hpl : (page < length (page_table (vm s)))%nat) by lia.
  destruct (lookup_lt_is_Some_2 _ _ Hpl) as [e He].
  destruct Hcase as [[Hm Ha] | [[-> Hnr] | (-> & Hr & Hroom)]].
  - destruct (Z.eqb_spec code SEGV_MAPERR); [contradiction |].
    destruct (Z.eqb_spec code SEGV_ACCERR); [contradiction |]. reflexivity.
  - change (SEGV_ACCERR =? SEGV_MAPERR) with false.
    change (SEGV_ACCERR =? SEGV_ACCERR) with true.
    cbn [orb]. osimpl. cbn [vm ps]. fold (counted (vm s)).
    rewrite (is_page_resident_eq page (counted (vm s)) e) by assumption. osimpl.
    destruct (Z.eqb_spec (Z.land e PAGE_RESIDENT) 0) as [_ | Hres]; [reflexivity |].
    exfalso. apply Hnr. exists e. auto.
  - change (SEGV_MAPERR =? SEGV_MAPERR) with true.
    cbn [orb]. osimpl. cbn [vm ps]. fold (counted (vm s)).
    change (num_resident (counted (vm s))) with (num_resident (vm s)).
    change (max_resident (counted (vm s))) with (max_resident (vm s)).
    destruct (Z.leb_spec (num_resident (vm s)) (max_resident (vm s))); [| lia]. osimpl.
    destruct (Z.eqb_spec (num_resident (vm s)) (max_resident (vm s))); [lia |]. osimpl.
    unfold map_page. rewrite Hb, valid_perm_none. osimpl. cbn [vm].
    rewrite (is_page_resident_eq page (counted (vm s)) e) by assumption. osimpl.
    destruct Hr as (e' & He' & Hres). assert (e' = e) as -> by congruence.
    destruct (Z.eqb_spec (Z.land e PAGE_RESIDENT) 0); [contradiction |]. reflexivity.
Qed.

End Refusals.

Section ZeroLimit.
Context `{cfg : config} {Hok : config_ok cfg}.

(** X12: with a limit of zero resident pages the pager cannot serve any fault:
    after [vmem_init(0)] the first fault on a page of the pool finds
    [num_resident == max_resident], asks the policy for a victim, and the
    policy dereferences the NULL head of its empty queue. *)
Theorem zero_limit_first_fault_crashes
    (P : Policy) (alloc : ptr) (addr : Z) (s0 s : sys) :
  P = fifo_policy \/ P = clru_policy ->
  vmem_init all_ok 0 s0 = Ret s ->
  VIRTUALMEM_ADDR_START <= addr
    < VIRTUALMEM_ADDR_START + Z.of_nat (NUM_PAGES * PAGE_SIZE) ->
  sigsegv_handler alloc addr SEGV_MAPERR s = Stop Crashed.
Proof.
  intros HP Hinit Hrange.
  assert (Hs : exists p, s = Sys (VM VIRTUALMEM_ADDR_START
                 (VIRTUALMEM_ADDR_START + Z.of_nat (NUM_PAGES * PAGE_SIZE))
                 0 0 0 (num_loads (vm s0)) (replicate NUM_PAGES 0)
                 (OS (os_maps (os (vm s0)))
                     (zeros (NUM_PAGES * PAGE_SIZE) ++ [Byte.x78])
                     (NUM_PAGES * PAGE_SIZE + 1)
                     (SysLseek (NUM_PAGES * PAGE_SIZE) :: os_trace (os (vm s0))))) p /\
               choose_and_evict_victim_page p = Stop Crashed).
  { destruct HP as [-> | ->].
    - rewrite (vmem_init_returns 0 s0 (FIFO.Pol (Some (FIFO.Loaded 0 None None))
                                                (FIFO.heap (ps s0))) 1) in Hinit
        by (reflexivity || discriminate).
      injection Hinit as <-. eexists. split; reflexivity.
    - rewrite (vmem_init_returns 0 s0 (CLRU.Pol (Some (CLRU.Loaded 0 0 None None))
                                                (CLRU.heap (ps s0))) 1) in Hinit
        by (reflexivity || discriminate).
      injection Hinit as <-. eexists. split; reflexivity. }
  destruct Hs as (p & -> & Hevict).
  assert (Hr : vmem_start (vm (Sys (VM VIRTUALMEM_ADDR_START
                 (VIRTUALMEM_ADDR_START + Z.of_nat (NUM_PAGES * PAGE_SIZE))
                 0 0 0 (num_loads (vm s0)) (replicate NUM_PAGES 0)
                 (OS (os_maps (os (vm s0)))
                     (zeros (NUM_PAGES * PAGE_SIZE) ++ [Byte.x78])
                     (NUM_PAGES * PAGE_SIZE + 1)
                     (SysLseek (NUM_PAGES * PAGE_SIZE) :: os_trace (os (vm s0))))) p))
               <= addr <
               vmem_end (vm (Sys (VM VIRTUALMEM_ADDR_START
                 (VIRTUALMEM_ADDR_START + Z.of_nat (NUM_PAGES * PAGE_SIZE))
                 0 0 0 (num_loads (vm s0)) (replicate NUM_PAGES 0)
                 (OS (os_maps (os (vm s0)))
                     (zeros (NUM_PAGES * PAGE_SIZE) ++ [Byte.x78])
                     (NUM_PAGES * PAGE_SIZE + 1)
                     (SysLseek (NUM_PAGES * PAGE_SIZE) :: os_trace (os (vm s0))))) p)))
    by exact Hrange.
  set (s := Sys _ p) in *.
  destruct (page_of_in_pool (vm s) addr eq_refl Hr) as [Hlt _].
  enter_handler Hr Hlt.
  change (SEGV_MAPERR =? SEGV_MAPERR) with true.
  cbn [orb]. osimpl. cbn [vm ps s num_resident max_resident set_num_faults].
  change (0 <=? 0) with true. change (0 =? 0) with true. osimpl.
  rewrite Hevict. reflexivity.
Qed.

End ZeroLimit.


(** ** Whole runs *)

Section FaithfulRuns.
Context `{cfg : config} {Hok : config_ok cfg} {P : Policy}.

Lemma residentb_true (v : vm_state) (pg : page_t) :
  residentb v pg = true <-> resident_in v pg.
Proof.
  unfold residentb, resident_in. destruct (page_table v !! pg) as [e |].
  - rewrite negb_true_iff, Z.eqb_neq. split; [eauto |].
    intros (e' & [= <-] & H). assumption.
  - split; [discriminate |]. intros (e & He & _). discriminate.
Qed.

Lemma in_pool_true (v : vm_state) (addr : Z) :
  in_pool v addr = true -> vmem_start v <= addr < vmem_end v.
Proof. unfold in_pool. lia. Qed.

Lemma faithful_runb_sound (ticked : vm_state -> nodes -> option nodes)
    (es : list event) (s : sys) (q q' : nodes) :
  faithful_runb ticked es s q q' = true -> faithful_run ticked es s q q'.
Proof.
  revert s q. induction es as [| e es IH]; intros s q H; cbn in *.
  - apply bool_decide_eq_true in H. assumption.
  - destruct (faithful ticked e (vm s) q) as [q1 |]; [| discriminate].
    exists q1. split; [reflexivity |]. intros s1 Hs1. rewrite Hs1 in H. auto.
Qed.

Variable holds : pol -> nodes -> Prop.
Variable ticked : vm_state -> nodes -> option nodes.
Hypothesis holds_mapped : forall st q a pg,
  holds st q -> a ∉ q.*1 ->
  exists st', policy_page_mapped (Some a) pg st = Ret st' /\ holds st' (q ++ [(a, pg)]).
Hypothesis holds_evict : forall st q a pg,
  holds st ((a, pg) :: q) ->
  exists st', choose_and_evict_victim_page st = Ret (pg, st') /\ holds st' q.
Hypothesis holds_tick : forall s q q1,
  pool_ok (vm s) -> queue_ok (vm s) q -> holds (ps s) q -> ticked (vm s) q = Some q1 ->
  exists s', sigalrm_handler s = Ret s' /\
             pool_ok (vm s') /\ queue_ok (vm s') q1 /\ holds (ps s') q1.

Lemma faithful_event_served (e : event) (s : sys) (q q1 : nodes) :
  pool_ok (vm s) -> queue_ok (vm s) q -> holds (ps s) q ->
  faithful ticked e (vm s) q = Some q1 ->
  exists s', handle e s = Ret s' /\
             pool_ok (vm s') /\ queue_ok (vm s') q1 /\ holds (ps s') q1.
Proof.
  intros Hpool Hq Hholds Hf. destruct e as [alloc addr code |]; cbn [faithful handle] in *.
  2:{ eapply holds_tick; eassumption. }
  unfold in_pool in Hf.
  destruct (Z.leb_spec (vmem_start (vm s)) addr); [| discriminate].
  destruct (Z.ltb_spec addr (vmem_end (vm s))); [| discriminate].
  cbn [andb negb] in Hf.
  assert (Hrange : vmem_start (vm s) <= addr < vmem_end (vm s)) by lia.
  destruct (page_of_in_pool (vm s) addr (pool_end _ Hpool) Hrange) as [Hlt _].
  destruct (Z.eqb_spec code SEGV_MAPERR) as [-> | Hnm].
  - destruct alloc as [a |]; [| discriminate].
    destruct (residentb (vm s) (page_of (vm s) addr)) eqn:Hres; [discriminate |].
    cbn [negb andb] in Hf. case_bool_decide as Hfresh; [| discriminate].
    injection Hf as <-.
    assert (Hnr : ~ resident_in (vm s) (page_of (vm s) addr)).
    { intros Hr. apply residentb_true in Hr. congruence. }
    destruct (load_fault_served holds holds_mapped holds_evict a addr s q
                Hpool Hq Hholds Hrange Hnr Hfresh)
      as (s' & Hs' & Hpool' & Hq' & Hholds' & _).
    eauto.
  - destruct (Z.eqb_spec code SEGV_ACCERR) as [-> | Hna]; [| discriminate].
    destruct (residentb (vm s) (page_of (vm s) addr)) eqn:Hres; [| discriminate].
    injection Hf as <-.
    apply residentb_true in Hres.
    destruct (accerr_keeps_consistent alloc addr s Hpool Hrange Hres)
      as (s' & Hs' & Hps & Hpool' & Hres').
    exists s'. split; [assumption |]. split; [assumption |].
    split; [| rewrite Hps; assumption].
    destruct Hq as [Hnd Hq]. split; [assumption |].
    intros pg. rewrite Hq, Hres'. reflexivity.
Qed.

Lemma faithful_run_served (es : list event) (s : sys) (q q' : nodes) :
  pool_ok (vm s) -> queue_ok (vm s) q -> holds (ps s) q ->
  faithful_run ticked es s q q' ->
  exists s', run es s = Ret s' /\
             pool_ok (vm s') /\ queue_ok (vm s') q' /\ holds (ps s') q'.
Proof.
  revert s q. induction es as [| e es IH]; intros s q Hpool Hq Hholds Hrun.
  - cbn in Hrun. subst q'. exists s. auto.
  - cbn [faithful_run] in Hrun. destruct Hrun as (q1 & Hf & Hrest).
    destruct (faithful_event_served e s q q1 Hpool Hq Hholds Hf)
      as (s1 & Hs1 & Hpool1 & Hq1 & Hholds1).
    destruct (IH s1 q1 Hpool1 Hq1 Hholds1 (Hrest s1 Hs1)) as (s' & Hs' & Hfinal).
    exists s'. split; [| assumption]. cbn [run]. rewrite Hs1. exact Hs'.
Qed.

End FaithfulRuns.

Section ClruTick.
Context `{cfg : config} {Hok : config_ok cfg}.

Lemma tail_ruleb_rule (q : nodes) (v : vm_state) : tail_ruleb q v = true -> tail_rule q v.
Proof.
  unfold tail_ruleb, tail_rule. intros H q0 x -> Hx.
  rewrite reverse_snoc in H. rewrite Hx in H. cbn [negb orb] in H.
  apply existsb_exists in H as (y & Hy & Hacc).
  exists y. split; [| assumption].
  apply list_elem_of_In in Hy. rewrite elem_of_reverse in Hy. assumption.
Qed.

Lemma filter_split_perm (f : nat * nat -> bool) (q : nodes) :
  List.filter (fun x => negb (f x)) q ++ List.filter f q ≡ₚ q.
Proof.
  induction q as [| x q IH]; [reflexivity |]. cbn [List.filter].
  destruct (f x); cbn [negb].
  - rewrite <- Permutation_middle. constructor. assumption.
  - cbn [app]. constructor. assumption.
Qed.

Lemma move_to_back_dom (node : ptr) (L L' : CLRU.loaded_pages_t)
    (h h' : gmap nat CLRU.page_node) (x : nat) :
  CLRU.move_to_back node L h = Ret (L', h') -> h !! x = None -> h' !! x = None.
Proof.
  unfold CLRU.move_to_back. intros H Hx.
  apply bind_Ret in H as ([L1 h1] & H1 & H).
  assert (Hx1 : h1 !! x = None).
  { destruct (bool_decide (node = CLRU.head L)).
    - apply bind_Ret in H1 as (nx & _ & H1).
      apply bind_Ret in H1 as (h2 & Hh2 & H1).
      apply bind_Ret in H1 as (nx' & _ & H1). injection H1 as <- <-.
      eapply clru_set_prev_dom; eassumption.
    - destruct (bool_decide (node ≠ CLRU.tail L)).
      + apply bind_Ret in H1 as (pv & _ & H1).
        apply bind_Ret in H1 as (nx & _ & H1).
        apply bind_Ret in H1 as (h2 & Hh2 & H1).
        apply bind_Ret in H1 as (nx' & _ & H1).
        apply bind_Ret in H1 as (pv' & _ & H1).
        apply bind_Ret in H1 as (h3 & Hh3 & H1). injection H1 as <- <-.
        eapply clru_set_prev_dom; [eassumption |].
        eapply clru_set_next_dom; eassumption.
      + injection H1 as <- <-. assumption. }
  apply bind_Ret in H as (h2 & Hh2 & H).
  apply bind_Ret in H as (h3 & Hh3 & H).
  apply bind_Ret in H as (h4 & Hh4 & H). injection H as <- <-.
  eapply clru_set_next_dom; [eassumption |].
  eapply clru_set_next_dom; [eassumption |].
  eapply clru_set_prev_dom; eassumption.
Qed.

Lemma tick_loop_dom (n : nat) (node : ptr) (L L' : CLRU.loaded_pages_t)
    (h h' : gmap nat CLRU.page_node) (v v' : vm_state) (x : nat) :
  CLRU.tick_loop n node L h v = Ret (L', h', v') -> h !! x = None -> h' !! x = None.
Proof.
  revert node L h v. induction n as [| n IH]; intros node L h v H Hx.
  - injection H as <- <- <-. assumption.
  - cbn [CLRU.tick_loop] in H.
    apply bind_Ret in H as (nd & _ & H).
    apply bind_Ret in H as (acc & _ & H).
    destruct (negb (acc =? 0)).
    + apply bind_Ret in H as (v1 & _ & H).
      apply bind_Ret in H as (v2 & _ & H).
      apply bind_Ret in H as ([L1 h1] & Hmove & H).
      eapply IH; [eassumption |]. eapply move_to_back_dom; eassumption.
    + eapply IH; eassumption.
Qed.

Lemma pool_ok_age_page (v : vm_state) (pg : page_t) :
  pool_ok v -> page_ready v pg ->
  pool_ok (age_page v pg) /\
  forall pg', resident_in (age_page v pg) pg' <-> resident_in v pg'.
Proof.
  intros [Hs He Ht Hc Hcap Hmax Hmap Hswap Hclean] Hr.
  pose proof Hr as (Hlt & [e Hent] & [m Hm]).
  pose proof (lookup_lt_Some _ _ _ Hent) as Hlen.
  pose proof (age_page_table v pg e Hr Hent) as Hpt.
  assert (Hbit : Z.land (rearmed e) PAGE_RESIDENT = Z.land e PAGE_RESIDENT).
  { unfold rearmed.
    rewrite with_perm_flag by auto using none_in_mask, resident_mask.
    apply land_clear_other. rewrite Z.land_comm. apply resident_accessed. }
  assert (Hin : forall pg', resident_in (age_page v pg) pg' <-> resident_in v pg').
  { intros pg'. unfold resident_in. rewrite Hpt.
    destruct (decide (pg' = pg)) as [-> | Hne].
    - rewrite list_lookup_insert_eq by assumption. split.
      + intros (? & [= <-] & Hres). rewrite Hbit in Hres. eauto.
      + intros (e' & He' & Hres). assert (e' = e) as -> by congruence.
        eexists. split; [reflexivity |]. rewrite Hbit. assumption.
    - rewrite list_lookup_insert_ne by congruence. tauto. }
  assert (Hmaps : os_maps (os (age_page v pg))
                  = <[page_start v pg := Mapping PROT_NONE (m_data m)]> (os_maps (os v))).
  { unfold age_page. rewrite Hent, Hm. reflexivity. }
  assert (Hsame : vmem_start (age_page v pg) = vmem_start v /\
                  vmem_end (age_page v pg) = vmem_end v /\
                  num_resident (age_page v pg) = num_resident v /\
                  max_resident (age_page v pg) = max_resident v /\
                  os_file (os (age_page v pg)) = os_file (os v)).
  { unfold age_page. rewrite Hent, Hm. repeat split; reflexivity. }
  destruct Hsame as (Hst & Hen & Hnr & Hmx & Hfl).
  split; [split |]; try assumption.
  - rewrite Hst. assumption.
  - unfold pool_laid_out. rewrite Hst, Hen. assumption.
  - rewrite Hpt, length_insert. assumption.
  - rewrite Hnr, Hpt. rewrite (count_resident_same _ _ e) by assumption. assumption.
  - rewrite Hnr, Hmx. assumption.
  - rewrite Hmx. assumption.
  - intros pg' Hpg'. apply Hin in Hpg'. rewrite Hmaps.
    unfold page_start at 1. rewrite Hst. fold (page_start v pg').
    destruct (decide (pg' = pg)) as [-> | Hne].
    + rewrite lookup_insert_eq. eexists. split; [reflexivity |]. cbn [m_data].
      destruct (Hmap pg Hpg') as (m' & Hm' & Hl'). unfold page_start in Hm'. congruence.
    + rewrite lookup_insert_ne by (intros E; apply page_start_inj in E; congruence).
      apply Hmap. assumption.
  - rewrite Hfl. assumption.
  - intros pg' e' m' He' Hr' Hd' Hm'. rewrite Hpt in He'. rewrite Hmaps in Hm'.
    rewrite Hfl. unfold page_start in Hm' at 1. rewrite Hst in Hm'.
    fold (page_start v pg') in Hm'.
    destruct (decide (pg' = pg)) as [-> | Hne].
    + rewrite list_lookup_insert_eq in He' by assumption. injection He' as <-.
      rewrite lookup_insert_eq in Hm'. injection Hm' as <-. cbn [m_data].
      apply (Hclean pg e m Hent); [rewrite <- Hbit; assumption | | assumption].
      unfold rearmed in Hd'.
      rewrite with_perm_flag in Hd' by auto using none_in_mask, dirty_mask.
      rewrite land_clear_other in Hd' by apply accessed_dirty. exact Hd'.
    + rewrite list_lookup_insert_ne in He' by congruence.
      rewrite lookup_insert_ne in Hm'
        by (intros E; apply page_start_inj in E; congruence).
      eapply Hclean; eassumption.
Qed.

Lemma pool_ok_aged (ps : list page_t) (v : vm_state) :
  pool_ok v -> (forall pg, pg ∈ ps -> page_ready v pg) ->
  pool_ok (foldl age_page v ps) /\
  forall pg, resident_in (foldl age_page v ps) pg <-> resident_in v pg.
Proof.
  revert v. induction ps as [| p ps IH]; intros v Hpool Hready; [cbn; tauto |].
  assert (Hr : page_ready v p) by (apply Hready, list_elem_of_here).
  destruct (pool_ok_age_page v p Hpool Hr) as [Hpool1 Hres1].
  destruct (IH (age_page v p) Hpool1) as [Hpool' Hres'].
  { intros pg Hpg. apply age_page_ready; [assumption |].
    apply Hready, list_elem_of_further, Hpg. }
  cbn [foldl]. split; [assumption |]. intros pg. rewrite Hres', Hres1. reflexivity.
Qed.

Lemma clru_holds_tick (s : @sys clru_policy) (q q1 : nodes) :
  pool_ok (vm s) -> queue_ok (vm s) q -> clru_holds (ps s) q ->
  clru_ticked (vm s) q = Some q1 ->
  exists s', sigalrm_handler s = Ret s' /\
             pool_ok (vm s') /\ queue_ok (vm s') q1 /\ clru_holds (ps s') q1.
Proof.
  intros Hpool [Hnd Hq] [[hp [(L & Hl & Hnum & Hqueue)]] Hrest] Ht.
  unfold sigalrm_handler. cbn [policy_timer_tick clru_policy].
  unfold CLRU.policy_timer_tick, CLRU.the_loaded. rewrite Hl. osimpl. rewrite Hnum.
  unfold clru_ticked in Ht.
  destruct (Nat.ltb_spec (length q) 2) as [Hshort | Hlong].
  - injection Ht as <-.
    assert (Hguard : (Z.of_nat (length q) =? 0) || (Z.of_nat (length q) =? 1) = true)
      by lia.
    rewrite Hguard. osimpl. exists s. destruct s as [v p]. cbn [vm ps] in *.
    split; [reflexivity |]. split; [assumption |]. split; [split; assumption |].
    split; [| assumption]. exists hp. split. exists L. auto.
  - destruct (tail_ruleb q (vm s)) eqn:Hrule; [| discriminate]. injection Ht as <-.
    apply tail_ruleb_rule in Hrule.
    assert (Hguard : (Z.of_nat (length q) =? 0) || (Z.of_nat (length q) =? 1) = false)
      by lia.
    rewrite Hguard, Nat2Z.id.
    assert (Hready : forall pg, pg ∈ q.*2 -> page_ready (vm s) pg).
    { intros pg Hpg. apply Hq in Hpg.
      pose proof (resident_in_lt _ _ (pool_table _ Hpool) Hpg) as Hlt.
      destruct (pool_mapped _ Hpool pg Hpg) as (m & Hm & _).
      destruct Hpg as (e & He & _). split; [assumption |]. split; eauto. }
    set (moved := List.filter (fun x => accessedb (vm s) x.2) q).
    set (kept := List.filter (fun x => negb (accessedb (vm s) x.2)) q).
    pose proof (walk_spec q [] [] (vm s) Hnd Hready (or_intror Hrule)) as Hwalk.
    cbn [app] in Hwalk. fold moved kept in Hwalk.
    assert (Hq0 : clru_queue hp L (CLRU.heap (ps s)) ([] ++ q ++ []))
      by (rewrite app_nil_r; exact Hqueue).
    destruct (tick_loop_walk q [] [] hp L (CLRU.heap (ps s)) (vm s) _ _ _ Hq0 Hwalk)
      as (L' & h' & hp' & Hloop & Hq' & _ & _ & Hnum').
    rewrite app_nil_r, (cq_head _ _ _ _ Hqueue) in *. rewrite Hloop. osimpl.
    eexists. split; [reflexivity |]. cbn [vm ps].
    assert (Hperm : kept ++ moved ≡ₚ q) by apply filter_split_perm.
    assert (Hmoved : forall pg, pg ∈ moved.*2 -> page_ready (vm s) pg).
    { intros pg Hpg. apply Hready.
      apply list_elem_of_fmap in Hpg as (y & -> & Hy).
      apply list_elem_of_fmap. exists y. split; [reflexivity |].
      apply list_elem_of_In, List.filter_In in Hy as [Hy _].
      apply list_elem_of_In. assumption. }
    destruct (pool_ok_aged moved.*2 (vm s) Hpool Hmoved) as [Hpool' Hres'].
    split; [assumption |]. split; [| split].
    + split; [rewrite Hperm; assumption |].
      intros pg. rewrite Hperm, Hres'. apply Hq.
    + exists hp'. split. exists L'. split; [reflexivity |].
      split; [| exact Hq'].
      rewrite Hnum', Hnum. f_equal. rewrite Hperm. reflexivity.
    + intros x Hx. cbn [CLRU.heap]. eapply tick_loop_dom; [eassumption |].
      apply Hrest. rewrite <- Hperm. assumption.
Qed.

End ClruTick.

Section WholeRuns.
Context `{cfg : config} {Hok : config_ok cfg}.

Lemma vmem_init_consistent (P : Policy) (max : Z) (s : sys) :
  P = fifo_policy \/ P = clru_policy ->
  0 < max < 2 ^ 32 ->
  exists s', vmem_init all_ok max s = Ret s' /\ pool_ok (vm s') /\ queue_ok (vm s') [].
Proof.
  intros HP Hmax.
  destruct (policy_init_cases P (int32 max) (ps s) HP) as (_ & p & Hp).
  destruct (fresh_pool_ok max (num_loads (vm s)) (os_maps (os (vm s))) [Byte.x78]
              (NUM_PAGES * PAGE_SIZE + 1)
              (SysLseek (NUM_PAGES * PAGE_SIZE) :: os_trace (os (vm s))) Hmax)
    as [Hpool Hq].
  eexists. split; [apply (vmem_init_returns max s p 1); [exact Hp | discriminate] |].
  split; [exact Hpool | exact Hq].
Qed.

Lemma fifo_holds_tick (s : @sys fifo_policy) (q q1 : nodes) :
  pool_ok (vm s) -> queue_ok (vm s) q -> fifo_repr (ps s) q ->
  fifo_ticked (vm s) q = Some q1 ->
  exists s', sigalrm_handler s = Ret s' /\
             pool_ok (vm s') /\ queue_ok (vm s') q1 /\ fifo_repr (ps s') q1.
Proof.
  intros Hpool Hq Hrepr [= <-]. exists s. destruct s as [v p]. auto.
Qed.

(** X13: under FIFO the pager serves every run of events the host can cause: from
    [vmem_init] with a positive limit, as long as each fault comes with the
    code that fits the table (MAPERR for a page that is not resident,
    ACCERR for one that is) and [malloc] gives nodes that are not in use,
    every handler returns, none aborts on an assertion or dereferences a bad
    pointer, and after the run the pager is consistent and the policy's
    queue holds exactly the resident pages in the order they were loaded. *)
Theorem fifo_serves_every_faithful_run (max : Z) :
  0 < max < 2 ^ 32 ->
  exists s0 : @sys fifo_policy,
    vmem_init all_ok max boot = Ret s0 /\
    forall (es : list event) (q' : nodes),
      faithful_run fifo_ticked es s0 [] q' ->
      exists s', run es s0 = Ret s' /\
                 pool_ok (vm s') /\ queue_ok (vm s') q' /\ fifo_repr (ps s') q'.
Proof.
  intros Hmax.
  destruct (vmem_init_consistent fifo_policy max boot (or_introl eq_refl) Hmax)
    as (s0 & Hs0 & Hpool & Hq).
  exists s0. split; [assumption |]. intros es q' Hrun.
  apply (faithful_run_served (P := fifo_policy) fifo_repr fifo_ticked
           fifo_mapped_repr fifo_evict_repr fifo_holds_tick es s0 [] q');
    try assumption.
  rewrite (vmem_init_policy max boot s0 Hs0). apply fifo_init_repr.
Qed.


End WholeRuns.



(** ** Giving up, and quiet ticks *)

Section GivingUp.
Context `{cfg : config} {Hok : config_ok cfg} {P : Policy}.

(** X15: [map_page] gives up with [abort()] when the page number or the
    permission is out of range, when the page is already resident, when
    one more resident page would exceed the limit, and when the swap file
    ends before the end of the page's slot (a short read).  When none of
    these holds, [map_page] ends as the policy's [policy_page_mapped] ends:
    it stops as the policy stops, and when the policy returns it returns
    the state in which the page is mapped, read and counted. *)
Theorem map_page_gives_up (alloc : ptr) (page : page_t) (perm : Z) (s : sys) :
  length (page_table (vm s)) = NUM_PAGES ->
  ((NUM_PAGES <= page)%nat \/ valid_perm perm = false \/ resident_in (vm s) page \/
   max_resident (vm s) < wrap32 (num_resident (vm s) + 1) \/
   (length (os_file (os (vm s))) < (page + 1) * PAGE_SIZE)%nat ->
   map_page alloc page perm s = Stop Aborted) /\
  ((page < NUM_PAGES)%nat -> valid_perm perm = true -> ~ resident_in (vm s) page ->
   wrap32 (num_resident (vm s) + 1) <= max_resident (vm s) ->
   0 <= vmem_start (vm s) ->
   ((page + 1) * PAGE_SIZE <= length (os_file (os (vm s))))%nat ->
   exists prot,
     pageperm_to_mmap perm = Ret prot /\
     map_page alloc page perm s =
       (p ← policy_page_mapped alloc page (ps s);
        Ret (Sys (mapped page perm prot (vm s)) p))).
Proof.
  intros Hlen. split.
  - intros Hcase. unfold map_page.
    destruct (Nat.ltb_spec page NUM_PAGES) as [Hlt | Hge]; [| reflexivity]. osimpl.
    destruct (valid_perm perm) eqn:Hv; [| reflexivity]. osimpl.
    destruct (lookup_lt_is_Some_2 (page_table (vm s)) page) as [e He]; [lia |].
    rewrite (is_page_resident_eq page _ e) by assumption. osimpl.
    destruct (Z.eqb_spec (Z.land e PAGE_RESIDENT) 0) as [Hres | Hres]; [| reflexivity].
    osimpl. cbn [num_resident max_resident set_num_resident].
    destruct (Z.gtb_spec (wrap32 (num_resident (vm s) + 1)) (max_resident (vm s)));
      [reflexivity |].
    destruct Hcase as [? | [? | [Hr | [? | Hshort]]]]; try lia; try discriminate.
    { destruct Hr as (e' & He' & Hr). congruence. }
    unfold page_to_addr. apply Nat.ltb_lt in Hlt as Hb. rewrite Hb. osimpl.
    unfold os_mmap, os_lseek, os_read.
    cbn [set_os os os_maps os_file os_pos os_trace set_num_resident vmem_start].
    destruct (_ =? -1); [reflexivity |].
    rewrite Z.eqb_refl. cbn [negb].
    destruct (_ =? -1); [reflexivity |].
    rewrite lookup_insert_eq. change (writable _) with true. cbv iota.
    destruct (_ =? -1); [reflexivity |].
    destruct (Z.eqb_spec
                (Z.of_nat (length (take PAGE_SIZE (drop (page * PAGE_SIZE)
                                                     (os_file (os (vm s)))))))
                (Z.of_nat PAGE_SIZE)) as [E | _]; [| reflexivity].
    rewrite length_take, length_drop in E. lia.
  - intros Hlt Hv Hnr Hcap Hstart Hfile.
    destruct (lookup_lt_is_Some_2 (page_table (vm s)) page) as [e He]; [lia |].
    assert (Hres : Z.land e PAGE_RESIDENT = 0).
    { destruct (Z.eq_dec (Z.land e PAGE_RESIDENT) 0); [assumption |].
      exfalso. apply Hnr. exists e. auto. }
    destruct (pageperm_to_mmap_valid perm Hv) as [prot Hprot].
    exists prot. split; [exact Hprot |].
    apply (map_page_reaches_policy alloc page perm prot s e); assumption.
Qed.

(** X16: [unmap_page] gives up with [abort()] when the page number is out of
    range, when no page is resident, when the page is not resident, and
    when a dirty page has no mapping to write back from. *)
Theorem unmap_page_gives_up (page : page_t) (v : vm_state) :
  length (page_table v) = NUM_PAGES ->
  (NUM_PAGES <= page)%nat \/ num_resident v <= 0 \/ ~ resident_in v page \/
  (exists e, page_table v !! page = Some e /\ Z.land e PAGE_DIRTY <> 0 /\
             os_maps (os v) !! page_start v page = None) ->
  unmap_page page v = Stop Aborted.
Proof.
  intros Hlen Hcase. unfold unmap_page.
  destruct (Nat.ltb_spec page NUM_PAGES) as [Hlt | Hge]; [| reflexivity]. osimpl.
  destruct (Z.gtb_spec (num_resident v) 0); [| reflexivity]. osimpl.
  destruct (lookup_lt_is_Some_2 (page_table v) page) as [e He]; [lia |].
  rewrite (is_page_resident_eq page _ e) by assumption. osimpl.
  destruct (Z.eqb_spec (Z.land e PAGE_RESIDENT) 0) as [Hres | Hres]; [reflexivity |].
  cbn [negb]. osimpl.
  destruct Hcase as [? | [? | [Hnr | (e' & He' & Hd & Hm)]]]; try lia.
  { exfalso. apply Hnr. exists e. auto. }
  assert (e' = e) as -> by congruence.
  unfold page_to_addr. apply Nat.ltb_lt in Hlt as Hb. rewrite Hb. osimpl.
  rewrite (is_page_dirty_eq page _ e) by assumption. osimpl.
  destruct (Z.eqb_spec (Z.land e PAGE_DIRTY) 0); [contradiction |]. cbn [negb].
  unfold set_page_permission. rewrite Hb, valid_perm_read. osimpl.
  unfold page_to_addr. rewrite Hb. osimpl. rewrite pageperm_to_mmap_read. osimpl.
  unfold os_mprotect. unfold page_start in Hm. rewrite Hm. reflexivity.
Qed.

End GivingUp.

Section QuietTicks.
Context `{cfg : config} {Hok : config_ok cfg}.

Lemma quiet_refl (v : vm_state) : quiet v v.
Proof. split; reflexivity. Qed.

Lemma quiet_trans (v1 v2 v3 : vm_state) : quiet v1 v2 -> quiet v2 v3 -> quiet v1 v3.
Proof. intros [] []. split; [congruence | congruence |]. intros x. congruence. Qed.

Lemma clear_and_protect_quiet (pg : page_t) (v v1 v2 : vm_state) :
  clear_page_accessed pg v = Ret v1 ->
  set_page_permission pg PAGEPERM_NONE v1 = Ret v2 ->
  quiet v v2.
Proof.
  intros H1 H2.
  apply clear_page_accessed_Ret in H1 as (_ & e & He & ->).
  apply set_page_permission_Ret in H2 as (_ & _ & e1 & m & prot & He1 & Hm & _ & ->).
  split; try reflexivity.
  intros x. cbn [protected os os_maps set_page_table vmem_start] in *.
  destruct (decide (x = vmem_start v + Z.of_nat (pg * PAGE_SIZE))) as [-> | Hne].
  - rewrite lookup_insert_eq, Hm. reflexivity.
  - rewrite lookup_insert_ne by congruence. reflexivity.
Qed.

Lemma clru_tick_loop_quiet (n : nat) (node : ptr) (L L' : CLRU.loaded_pages_t)
    (h h' : gmap nat CLRU.page_node) (v v' : vm_state) :
  CLRU.tick_loop n node L h v = Ret (L', h', v') -> quiet v v'.
Proof.
  revert node L h v. induction n as [| n IH]; intros node L h v H.
  - injection H as <- <- <-. apply quiet_refl.
  - cbn [CLRU.tick_loop] in H.
    apply bind_Ret in H as (nd & _ & H).
    apply bind_Ret in H as (acc & _ & H).
    destruct (negb (acc =? 0)).
    + apply bind_Ret in H as (v1 & Hv1 & H).
      apply bind_Ret in H as (v2 & Hv2 & H).
      apply bind_Ret in H as ([L1 h1] & _ & H).
      eapply quiet_trans; [eapply clear_and_protect_quiet; eassumption |].
      eapply IH; eassumption.
    + eapply IH; eassumption.
Qed.

Lemma clru_tick_quiet (p p' : CLRU.pol) (v v' : vm_state) :
  CLRU.policy_timer_tick p v = Ret (p', v') -> quiet v v'.
Proof.
  intros Ht. unfold CLRU.policy_timer_tick in Ht.
  apply bind_Ret in Ht as (L & _ & Ht).
  destruct (_ || _).
  - injection Ht as <- <-. apply quiet_refl.
  - apply bind_Ret in Ht as ([[L1 h1] v1] & Hloop & Ht). injection Ht as <- <-.
    eapply clru_tick_loop_quiet; eassumption.
Qed.

(** X17: a timer tick moves no page, under either policy: when the handler
    returns, the counters, the limit and the bounds of the pool are as
    before, every entry has kept its resident and dirty bits and has either
    not changed or lost its accessed bit and all permission, and the swap
    file, its offset and the bytes of every mapping are untouched.  Under
    FIFO nothing changes at all. *)
Theorem timer_tick_moves_no_page :
  (forall s : @sys fifo_policy, sigalrm_handler s = Ret s) /\
  (forall (P : Policy) (s s' : sys),
     P = fifo_policy \/ P = clru_policy ->
     sigalrm_handler s = Ret s' ->
     ages (vm s) (vm s') /\ quiet (vm s) (vm s')).
Proof.
  split; [intros [v p]; reflexivity |].
  intros P s s' [-> | ->] H; unfold sigalrm_handler in H;
    apply bind_Ret in H as ([p v] & Ht & H); injection H as <-; cbn [vm ps].
  - injection Ht as <- <-. split; [apply ages_refl | apply quiet_refl].
  - split; [eapply clru_tick_ages | eapply clru_tick_quiet]; exact Ht.
Qed.

End QuietTicks.


(** ** The bytes of the pages *)

Section PageContents.
Context `{cfg : config} {Hok : config_ok cfg}.

Lemma contents_resident (v : vm_state) (pg : page_t) (e : Z) (m : mapping) :
  page_table v !! pg = Some e -> Z.land e PAGE_RESIDENT <> 0 ->
  os_maps (os v) !! page_start v pg = Some m ->
  contents v pg = m_data m.
Proof.
  intros He Hr Hm. unfold contents. rewrite He.
  destruct (Z.eqb_spec (Z.land e PAGE_RESIDENT) 0); [contradiction |].
  rewrite Hm. reflexivity.
Qed.

Lemma contents_swapped (v : vm_state) (pg : page_t) (e : Z) :
  page_table v !! pg = Some e -> Z.land e PAGE_RESIDENT = 0 ->
  contents v pg = swap_slot pg (os_file (os v)).
Proof. intros He Hr. unfold contents. rewrite He, Hr. reflexivity. Qed.

(** The contents of a page depend on its entry, its mapping and its slot. *)
Lemma contents_ext (v v' : vm_state) (pg : page_t) :
  page_table v' !! pg = page_table v !! pg ->
  os_maps (os v') !! page_start v' pg = os_maps (os v) !! page_start v pg ->
  swap_slot pg (os_file (os v')) = swap_slot pg (os_file (os v)) ->
  contents v' pg = contents v pg.
Proof. intros He Hm Hf. unfold contents. rewrite He, Hm, Hf. reflexivity. Qed.

Lemma contents_counted (v : vm_state) (pg : page_t) : contents (counted v) pg = contents v pg.
Proof. reflexivity. Qed.

(** Loading a page gives it the bytes its slot had. *)
Lemma contents_mapped (page : page_t) (perm prot : Z) (v : vm_state) (e : Z) (pg : page_t) :
  valid_perm perm = true ->
  page_table v !! page = Some e -> Z.land e PAGE_RESIDENT = 0 ->
  contents (mapped page perm prot v) pg = contents v pg.
Proof.
  intros Hv He Hr. pose proof (lookup_lt_Some _ _ _ He) as Hlen.
  destruct (decide (pg = page)) as [-> | Hne].
  - rewrite (contents_swapped v page e) by assumption.
    apply (contents_resident _ _ (with_perm (Z.lor 0 PAGE_RESIDENT) perm)
             (Mapping prot (swap_slot page (os_file (os v))))).
    + cbn. apply list_lookup_insert_eq. assumption.
    + apply is_resident_true, is_resident_mapped. assumption.
    + cbn. apply lookup_insert_eq.
  - apply contents_ext.
    + cbn. apply list_lookup_insert_ne. congruence.
    + cbn [mapped os os_maps]. change (page_start (mapped page perm prot v) pg)
        with (page_start v pg). fold (page_start v page).
      apply lookup_insert_ne. intros E. apply page_start_inj in E. congruence.
    + reflexivity.
Qed.

(** Evicting a page leaves its bytes in its slot: written there now when
    the page is dirty, there already when it is not. *)
Lemma contents_unmapped (victim : page_t) (ev : Z) (m : mapping) (v : vm_state)
    (pg : page_t) :
  pool_ok v ->
  page_table v !! victim = Some ev -> Z.land ev PAGE_RESIDENT <> 0 ->
  os_maps (os v) !! page_start v victim = Some m ->
  contents (unmapped victim (negb (Z.land ev PAGE_DIRTY =? 0)) m v) pg = contents v pg.
Proof.
  intros Hpool Hev Hr Hm.
  pose proof (lookup_lt_Some _ _ _ Hev) as Hlen.
  assert (Hvlt : (victim < NUM_PAGES)%nat) by (rewrite <- (pool_table _ Hpool); assumption).
  destruct (pool_mapped _ Hpool victim) as (m' & Hm' & Hmlen); [exists ev; auto |].
  assert (m' = m) as -> by congruence.
  pose proof (slot_in_file victim _ Hvlt (pool_swap _ Hpool)) as Hfit.
  set (dirty := negb (Z.land ev PAGE_DIRTY =? 0)).
  destruct (decide (pg = victim)) as [-> | Hne].
  - rewrite (contents_resident v victim ev m) by assumption.
    rewrite (contents_swapped _ victim 0);
      [| unfold unmapped; cbn [page_table]; apply list_lookup_insert_eq; assumption
       | apply Z.land_0_l].
    unfold unmapped, dirty.
    destruct (Z.eqb_spec (Z.land ev PAGE_DIRTY) 0) as [Hclean | Hdirty]; cbn [negb os os_file].
    + symmetry. apply (pool_clean _ Hpool victim ev m); assumption.
    + apply swap_slot_file_write. assumption.
  - apply contents_ext.
    + unfold unmapped. cbn [page_table]. apply list_lookup_insert_ne. congruence.
    + change (page_start (unmapped victim dirty m v) pg) with (page_start v pg).
      assert (Hd : delete (page_start v victim) (os_maps (os v)) !! page_start v pg
                   = os_maps (os v) !! page_start v pg).
      { apply lookup_delete_ne. intros E. apply page_start_inj in E. congruence. }
      unfold unmapped. destruct dirty; exact Hd.
    + unfold unmapped. destruct dirty; cbn [os os_file]; [| reflexivity].
      apply swap_slot_file_write_other; assumption.
Qed.

(** Raising a permission changes no byte. *)
Lemma contents_granted (page : page_t) (perm prot flag e : Z) (m : mapping)
    (v : vm_state) (pg : page_t) :
  page_table v !! page = Some e -> Z.land e PAGE_RESIDENT <> 0 ->
  os_maps (os v) !! page_start v page = Some m ->
  valid_perm perm = true -> Z.land flag PAGE_RESIDENT = 0 ->
  contents (granted page perm prot flag e m v) pg = contents v pg.
Proof.
  intros He Hr Hm Hv Hflag. pose proof (lookup_lt_Some _ _ _ He) as Hlen.
  destruct (decide (pg = page)) as [-> | Hne].
  - rewrite (contents_resident v page e m) by assumption.
    apply (contents_resident _ _ (Z.lor (with_perm e perm) flag) (Mapping prot (m_data m))).
    + cbn. apply list_lookup_insert_eq. rewrite length_insert. assumption.
    + rewrite land_lor_other by assumption.
      rewrite with_perm_flag by auto using valid_perm_in_mask, resident_mask.
      assumption.
    + cbn. apply lookup_insert_eq.
  - apply contents_ext.
    + cbn. rewrite !list_lookup_insert_ne by congruence. reflexivity.
    + cbn [granted protected os os_maps set_page_table].
      change (page_start (set_page_table _ _) pg) with (page_start v pg).
      fold (page_start v page).
      apply lookup_insert_ne. intros E. apply page_start_inj in E. congruence.
    + reflexivity.
Qed.

(** A tick changes no byte. *)
Lemma contents_aged (v v' : vm_state) (pg : page_t) :
  ages v v' -> quiet v v' -> contents v' pg = contents v pg.
Proof.
  intros Ha Hq. unfold contents, page_start.
  rewrite (ages_start _ _ Ha), (quiet_file _ _ Hq).
  pose proof (quiet_bytes _ _ Hq (vmem_start v + Z.of_nat (pg * PAGE_SIZE))) as Hb.
  pose proof (ages_table _ _ Ha) as Ht.
  destruct (page_table v !! pg) as [e |] eqn:He.
  - destruct (Forall2_lookup_l _ _ _ _ _ Ht He) as (e' & He' & (Hres & _)).
    rewrite He', Hres.
    destruct (_ =? 0); [reflexivity |].
    destruct (os_maps (os v') !! _), (os_maps (os v) !! _); cbn in Hb; congruence.
  - assert (He' : page_table v' !! pg = None).
    { apply lookup_ge_None. rewrite <- (Forall2_length _ _ _ Ht).
      apply lookup_ge_None. assumption. }
    rewrite He'. reflexivity.
Qed.

Lemma tick_contents (P : Policy) (s s' : sys) (pg : page_t) :
  P = fifo_policy \/ P = clru_policy ->
  sigalrm_handler s = Ret s' -> contents (vm s') pg = contents (vm s) pg.
Proof.
  intros [-> | ->] H; unfold sigalrm_handler in H;
    apply bind_Ret in H as ([p v] & Ht & H); injection H as <-; cbn [vm ps].
  - injection Ht as <- <-. reflexivity.
  - apply contents_aged; [eapply clru_tick_ages | eapply clru_tick_quiet]; exact Ht.
Qed.

End PageContents.

Section Transparency.
Context `{cfg : config} {Hok : config_ok cfg} {P : Policy}.

Lemma accerr_contents (alloc : ptr) (addr : Z) (s : sys) :
  pool_ok (vm s) ->
  vmem_start (vm s) <= addr < vmem_end (vm s) ->
  resident_in (vm s) (page_of (vm s) addr) ->
  exists s',
    sigsegv_handler alloc addr SEGV_ACCERR s = Ret s' /\
    forall pg, contents (vm s') pg = contents (vm s) pg.
Proof.
  intros Hpool Hrange Hres.
  destruct (page_of_in_pool (vm s) addr (pool_end _ Hpool) Hrange) as [Hlt _].
  destruct (pool_mapped _ Hpool _ Hres) as (m & Hm & _).
  destruct Hres as (e & He & Hr).
  destruct (Z.eq_dec (Z.land e PAGEPERM_MASK) PAGEPERM_NONE) as [Hnone | Hnn];
    [| destruct (Z.eq_dec (Z.land e PAGEPERM_MASK) PAGEPERM_READ) as [Hread | Hnread]].
  - eexists. split; [apply (sigsegv_accerr_none alloc addr s e m); assumption |].
    intros pg. cbn [vm].
    apply (contents_granted _ PAGEPERM_READ PROT_READ PAGE_ACCESSED e m
             (counted (vm s)) pg He Hr Hm valid_perm_read).
    rewrite Z.land_comm. apply resident_accessed.
  - eexists. split; [apply (sigsegv_accerr_read alloc addr s e m); assumption |].
    intros pg. cbn [vm].
    apply (contents_granted _ PAGEPERM_RDWR (Z.lor PROT_READ PROT_WRITE) PAGE_DIRTY e m
             (counted (vm s)) pg He Hr Hm valid_perm_rdwr).
    rewrite Z.land_comm. apply resident_dirty.
  - eexists. split; [apply (sigsegv_accerr_other alloc addr s e); assumption |].
    reflexivity.
Qed.

Variable holds : pol -> nodes -> Prop.
Hypothesis holds_mapped : forall st q a pg,
  holds st q -> a ∉ q.*1 ->
  exists st', policy_page_mapped (Some a) pg st = Ret st' /\ holds st' (q ++ [(a, pg)]).
Hypothesis holds_evict : forall st q a pg,
  holds st ((a, pg) :: q) ->
  exists st', choose_and_evict_victim_page st = Ret (pg, st') /\ holds st' q.

Lemma load_fault_contents (a : nat) (addr : Z) (s : sys) (q : nodes) :
  let page := page_of (vm s) addr in
  pool_ok (vm s) -> queue_ok (vm s) q -> holds (ps s) q ->
  vmem_start (vm s) <= addr < vmem_end (vm s) ->
  ~ resident_in (vm s) page ->
  a ∉ (room_made (vm s) q).*1 ->
  exists s',
    sigsegv_handler (Some a) addr SEGV_MAPERR s = Ret s' /\
    forall pg, contents (vm s') pg = contents (vm s) pg.
Proof.
  intros page Hpool Hq Hholds Hrange Hnr Hfresh.
  pose proof (pool_ok_counted _ Hpool) as Hpool0.
  destruct (page_of_in_pool (vm s) addr (pool_end _ Hpool) Hrange) as [Hlt _].
  fold page in Hlt.
  destruct Hpool as [Hs He Ht Hc Hcap Hmax Hmap Hswap Hclean].
  assert (Hlen : (page < length (page_table (vm s)))%nat) by lia.
  destruct (lookup_lt_is_Some_2 _ _ Hlen) as [e Hent].
  assert (Hres : Z.land e PAGE_RESIDENT = 0).
  { destruct (Z.eq_dec (Z.land e PAGE_RESIDENT) 0); [assumption |].
    exfalso. apply Hnr. exists e. auto. }
  unfold room_made in Hfresh.
  destruct (Z.ltb_spec (num_resident (vm s)) (max_resident (vm s))) as [Hroom | Hfull].
  - destruct (holds_mapped (ps s) q a page Hholds Hfresh) as (p' & Hp' & _).
    eexists. split.
    { apply (sigsegv_maperr_room (Some a) addr s e p'); try assumption; lia. }
    intros pg. cbn [vm].
    apply (contents_mapped page PAGEPERM_NONE PROT_NONE (counted (vm s)) e pg
             valid_perm_none Hent Hres).
  - assert (Hnum : num_resident (vm s) = max_resident (vm s)) by lia.
    assert (Hpos : (0 < count_resident (page_table (vm s)))%nat) by lia.
    destruct q as [| [b victim] q1].
    { exfalso. destruct (count_resident_pos _ Hpos) as (pg & e' & He' & Hr').
      assert (Hin : pg ∈ ([] : list (nat * nat)).*2) by (apply Hq; exists e'; auto).
      apply elem_of_nil in Hin. assumption. }
    cbn [tail] in *.
    destruct (holds_evict (ps s) q1 b victim Hholds) as (p1 & Hp1 & Hholds1).
    destruct (holds_mapped p1 q1 a page Hholds1 Hfresh) as (p' & Hp' & _).
    assert (Hvres : resident_in (vm s) victim)
      by (apply Hq; rewrite fmap_cons; left).
    pose proof (resident_in_lt _ _ Ht Hvres) as Hvlt.
    destruct (Hmap victim Hvres) as (m & Hm & Hmlen).
    assert (Hne : page <> victim) by (intros E; apply Hnr; rewrite E; exact Hvres).
    destruct Hvres as (ev & Hev & Hevr).
    eexists. split.
    { apply (sigsegv_maperr_full (Some a) addr s e victim ev m p1 p'); assumption. }
    intros pg. cbn [vm].
    rewrite (contents_mapped page PAGEPERM_NONE PROT_NONE _ e pg valid_perm_none).
    + apply (contents_unmapped victim ev m (counted (vm s)) pg Hpool0 Hev Hevr Hm).
    + unfold unmapped. cbn [page_table].
      rewrite list_lookup_insert_ne by (intros E; apply Hne; symmetry; exact E).
      exact Hent.
    + exact Hres.
Qed.

Variable ticked : vm_state -> nodes -> option nodes.
Hypothesis holds_tick : forall s q q1,
  pool_ok (vm s) -> queue_ok (vm s) q -> holds (ps s) q -> ticked (vm s) q = Some q1 ->
  exists s', sigalrm_handler s = Ret s' /\
             pool_ok (vm s') /\ queue_ok (vm s') q1 /\ holds (ps s') q1.
Hypothesis known_policy : P = fifo_policy \/ P = clru_policy.

Lemma faithful_event_contents (e : event) (s : sys) (q q1 : nodes) :
  pool_ok (vm s) -> queue_ok (vm s) q -> holds (ps s) q ->
  faithful ticked e (vm s) q = Some q1 ->
  exists s', handle e s = Ret s' /\
             forall pg, contents (vm s') pg = contents (vm s) pg.
Proof.
  intros Hpool Hq Hholds Hf. destruct e as [alloc addr code |]; cbn [faithful handle] in *.
  2:{ destruct (holds_tick s q q1 Hpool Hq Hholds Hf) as (s' & Hs' & _).
      exists s'. split; [assumption |]. intros pg.
      apply (tick_contents P s s' pg known_policy Hs'). }
  unfold in_pool in Hf.
  destruct (Z.leb_spec (vmem_start (vm s)) addr); [| discriminate].
  destruct (Z.ltb_spec addr (vmem_end (vm s))); [| discriminate].
  cbn [andb negb] in Hf.
  assert (Hrange : vmem_start (vm s) <= addr < vmem_end (vm s)) by lia.
  destruct (Z.eqb_spec code SEGV_MAPERR) as [-> | Hnm].
  - destruct alloc as [a |]; [| discriminate].
    destruct (residentb (vm s) (page_of (vm s) addr)) eqn:Hres; [discriminate |].
    cbn [negb andb] in Hf. case_bool_decide as Hfresh; [| discriminate].
    apply (load_fault_contents a addr s q Hpool Hq Hholds Hrange); [| assumption].
    intros Hr. apply residentb_true in Hr. congruence.
  - destruct (Z.eqb_spec code SEGV_ACCERR) as [-> | Hna]; [| discriminate].
    destruct (residentb (vm s) (page_of (vm s) addr)) eqn:Hres; [| discriminate].
    apply residentb_true in Hres.
    apply (accerr_contents alloc addr s Hpool Hrange Hres).
Qed.

End Transparency.

Section Transparent.
Context `{cfg : config} {Hok : config_ok cfg}.

(** X18: paging is transparent: no handler changes the bytes of any page.
    Take the bytes of a page to be those of its mapping while it is
    resident and those of its swap slot while it is not.  A fault the host
    can cause in a consistent state, under FIFO or CLOCK/LRU, is served and
    leaves every page with the bytes it had: a page that is loaded gets the
    bytes of its slot, an evicted page that is dirty is written to its slot
    first, and one that is not dirty already has its bytes there.  A tick
    is served in a consistent state under FIFO, and under CLOCK/LRU unless
    it finds the page of the last node accessed and no other; and whenever
    a tick returns, in any state and under either policy, every page has
    the bytes it had. *)
Theorem handlers_keep_page_contents :
  (forall (e : event) (s : @sys fifo_policy) (q q1 : nodes),
     pool_ok (vm s) -> queue_ok (vm s) q -> fifo_repr (ps s) q ->
     faithful fifo_ticked e (vm s) q = Some q1 ->
     exists s', handle e s = Ret s' /\
                forall pg, contents (vm s') pg = contents (vm s) pg) /\
  (forall (e : event) (s : @sys clru_policy) (q q1 : nodes),
     pool_ok (vm s) -> queue_ok (vm s) q -> clru_holds (ps s) q ->
     faithful clru_ticked e (vm s) q = Some q1 ->
     exists s', handle e s = Ret s' /\
                forall pg, contents (vm s') pg = contents (vm s) pg) /\
  (forall (P : Policy) (s s' : sys),
     P = fifo_policy \/ P = clru_policy ->
     sigalrm_handler s = Ret s' ->
     forall pg, contents (vm s') pg = contents (vm s) pg).
Proof.
  split; [| split].
  - intros e s q q1 Hpool Hq Hholds Hf.
    apply (faithful_event_contents (P := fifo_policy) fifo_repr fifo_mapped_repr
             fifo_evict_repr fifo_ticked fifo_holds_tick (or_introl eq_refl)
             e s q q1 Hpool Hq Hholds Hf).
  - intros e s q q1 Hpool Hq Hholds Hf.
    apply (faithful_event_contents (P := clru_policy) clru_holds clru_holds_mapped
             clru_holds_evict clru_ticked clru_holds_tick (or_intror eq_refl)
             e s q q1 Hpool Hq Hholds Hf).
  - intros P s s' HP Ht pg. apply (tick_contents P s s' pg HP Ht).
Qed.

End Transparent.

(** ** Examples on the small build *)

Section TinyExamples.
#[local] Existing Instance tiny_config.
#[local] Existing Instance tiny_config_ok.

(** A faithful run of the small build reaches a consistent state. *)
Lemma tiny_fifo_reached (max : Z) (es : list event) (q' : nodes) :
  0 < max < 2 ^ 32 ->
  match vmem_init (P := fifo_policy) all_ok max boot with
  | Ret s0 => faithful_runb fifo_ticked es s0 [] q'
  | Stop _ => false
  end = true ->
  exists s', tiny_fifo max es = Ret s' /\
             pool_ok (vm s') /\ queue_ok (vm s') q' /\ fifo_repr (ps s') q'.
Proof.
  intros Hmax Hb.
  destruct (vmem_init_consistent fifo_policy max boot (or_introl eq_refl) Hmax)
    as (s0 & Hs0 & Hpool & Hq).
  rewrite Hs0 in Hb. apply faithful_runb_sound in Hb.
  destruct (faithful_run_served (P := fifo_policy) fifo_repr fifo_ticked
              fifo_mapped_repr fifo_evict_repr fifo_holds_tick es s0 [] q' Hpool Hq)
    as (s' & Hs' & H);
    [rewrite (vmem_init_policy max boot s0 Hs0); apply fifo_init_repr | exact Hb |].
  exists s'. split; [| assumption]. unfold tiny_fifo. rewrite Hs0. exact Hs'.
Qed.

Lemma tiny_clru_reached (max : Z) (es : list event) (q' : nodes) :
  0 < max < 2 ^ 32 ->
  match vmem_init (P := clru_policy) all_ok max boot with
  | Ret s0 => faithful_runb clru_ticked es s0 [] q'
  | Stop _ => false
  end = true ->
  exists s', tiny_clru max es = Ret s' /\
             pool_ok (vm s') /\ queue_ok (vm s') q' /\ clru_holds (ps s') q'.
Proof.
  intros Hmax Hb.
  destruct (vmem_init_consistent clru_policy max boot (or_intror eq_refl) Hmax)
    as (s0 & Hs0 & Hpool & Hq).
  rewrite Hs0 in Hb. apply faithful_runb_sound in Hb.
  destruct (faithful_run_served (P := clru_policy) clru_holds clru_ticked
              clru_holds_mapped clru_holds_evict clru_holds_tick es s0 [] q' Hpool Hq)
    as (s' & Hs' & H);
    [rewrite (vmem_init_policy max boot s0 Hs0); apply clru_init_holds | exact Hb |].
  exists s'. split; [| assumption]. unfold tiny_clru. rewrite Hs0. exact Hs'.
Qed.

Lemma zero_limit_first_fault_crashes_witness :
  exists s : @sys fifo_policy,
    vmem_init all_ok 0 boot = Ret s /\
    sigsegv_handler (Some 1%nat) (tiny_addr 2 + 1) SEGV_MAPERR s = Stop Crashed.
Proof.
  destruct (vmem_init (P := fifo_policy) all_ok 0 boot) as [s | f] eqn:Hinit;
    [| vm_compute in Hinit; discriminate].
  exists s. split; [reflexivity |].
  apply (zero_limit_first_fault_crashes fifo_policy (Some 1%nat) (tiny_addr 2 + 1) boot s);
    [left; reflexivity | assumption | vm_compute; split; [discriminate | reflexivity]].
Defined.

Lemma access_fault_raises_permission_witness :
  exists s1 s2 : @sys fifo_policy,
    tiny_fifo 1 load_page0 = Ret s1 /\
    sigsegv_handler None (tiny_addr 0 + 1) SEGV_ACCERR s1 = Ret s2 /\
    entry_fields 0%nat (vm s2) = Ret (4, 8, 0, 1).
Proof.
  destruct (tiny_fifo_reached 1 load_page0 [(1%nat, 0%nat)])
    as (s1 & Hs1 & Hpool & _); [lia | vm_compute; reflexivity |].
  assert (Hin : match tiny_fifo 1 load_page0 with
                | Ret s => in_pool (vm s) (tiny_addr 0 + 1)
                | Stop _ => false
                end = true) by (vm_compute; reflexivity).
  assert (Hf : match tiny_fifo 1 load_page0 with
               | Ret s => entry_fields (page_of (vm s) (tiny_addr 0 + 1)) (vm s)
               | Stop f => Stop f
               end = Ret (4, 0, 0, 0)) by (vm_compute; reflexivity).
  assert (Hpg : match tiny_fifo 1 load_page0 with
                | Ret s => page_of (vm s) (tiny_addr 0 + 1)
                | Stop _ => 0%nat
                end = 0%nat) by (vm_compute; reflexivity).
  rewrite Hs1 in Hin, Hf, Hpg. cbv beta iota in Hin, Hf, Hpg.
  apply in_pool_true in Hin.
  destruct (access_fault_raises_permission None (tiny_addr 0 + 1) s1 4 0 0 0 Hpool Hin Hf)
    as (s2 & Hs2 & _ & Hfields & _); [discriminate |].
  exists s1, s2. split; [assumption |]. split; [assumption |].
  rewrite Hpg in Hfields. exact Hfields.
Defined.

Lemma fifo_page_fault_served_witness :
  exists s1 s2 : @sys fifo_policy,
    tiny_fifo 1 load_page0 = Ret s1 /\
    sigsegv_handler (Some 2%nat) (tiny_addr 1) SEGV_MAPERR s1 = Ret s2 /\
    queue_ok (vm s2) [(2%nat, 1%nat)] /\ fifo_repr (ps s2) [(2%nat, 1%nat)].
Proof.
  destruct (tiny_fifo_reached 1 load_page0 [(1%nat, 0%nat)])
    as (s1 & Hs1 & Hpool & Hq & Hrepr); [lia | vm_compute; reflexivity |].
  assert (Hin : match tiny_fifo 1 load_page0 with
                | Ret s => in_pool (vm s) (tiny_addr 1)
                | Stop _ => false
                end = true) by (vm_compute; reflexivity).
  assert (Hres : match tiny_fifo 1 load_page0 with
                 | Ret s => residentb (vm s) (page_of (vm s) (tiny_addr 1))
                 | Stop _ => true
                 end = false) by (vm_compute; reflexivity).
  assert (Hroom : match tiny_fifo 1 load_page0 with
                  | Ret s => room_made (vm s) [(1%nat, 0%nat)] ++
                             [(2%nat, page_of (vm s) (tiny_addr 1))]
                  | Stop _ => []
                  end = [(2%nat, 1%nat)]) by (vm_compute; reflexivity).
  assert (Hfresh : match tiny_fifo 1 load_page0 with
                   | Ret s => bool_decide (2%nat ∉ (room_made (vm s) [(1%nat, 0%nat)]).*1)
                   | Stop _ => false
                   end = true) by (vm_compute; reflexivity).
  rewrite Hs1 in Hin, Hres, Hroom, Hfresh. cbv beta iota in Hin, Hres, Hroom, Hfresh.
  apply in_pool_true in Hin. apply bool_decide_eq_true in Hfresh.
  destruct (fifo_page_fault_served 2%nat (tiny_addr 1) s1 [(1%nat, 0%nat)]
              Hpool Hq Hrepr Hin)
    as (s2 & Hs2 & _ & Hq2 & Hrepr2 & _).
  - intros Hr. apply residentb_true in Hr. congruence.
  - exact Hfresh.
  - rewrite Hroom in Hq2, Hrepr2. exists s1, s2. auto.
Defined.

Lemma clru_page_fault_served_witness :
  exists s1 s2 : @sys clru_policy,
    tiny_clru 1 load_page0 = Ret s1 /\
    sigsegv_handler (Some 2%nat) (tiny_addr 1) SEGV_MAPERR s1 = Ret s2 /\
    queue_ok (vm s2) [(2%nat, 1%nat)] /\ clru_holds (ps s2) [(2%nat, 1%nat)].
Proof.
  destruct (tiny_clru_reached 1 load_page0 [(1%nat, 0%nat)])
    as (s1 & Hs1 & Hpool & Hq & Hrepr); [lia | vm_compute; reflexivity |].
  assert (Hin : match tiny_clru 1 load_page0 with
                | Ret s => in_pool (vm s) (tiny_addr 1)
                | Stop _ => false
                end = true) by (vm_compute; reflexivity).
  assert (Hres : match tiny_clru 1 load_page0 with
                 | Ret s => residentb (vm s) (page_of (vm s) (tiny_addr 1))
                 | Stop _ => true
                 end = false) by (vm_compute; reflexivity).
  assert (Hroom : match tiny_clru 1 load_page0 with
                  | Ret s => room_made (vm s) [(1%nat, 0%nat)] ++
                             [(2%nat, page_of (vm s) (tiny_addr 1))]
                  | Stop _ => []
                  end = [(2%nat, 1%nat)]) by (vm_compute; reflexivity).
  assert (Hfresh : match tiny_clru 1 load_page0 with
                   | Ret s => bool_decide (2%nat ∉ (room_made (vm s) [(1%nat, 0%nat)]).*1)
                   | Stop _ => false
                   end = true) by (vm_compute; reflexivity).
  rewrite Hs1 in Hin, Hres, Hroom, Hfresh. cbv beta iota in Hin, Hres, Hroom, Hfresh.
  apply in_pool_true in Hin. apply bool_decide_eq_true in Hfresh.
  destruct (clru_page_fault_served 2%nat (tiny_addr 1) s1 [(1%nat, 0%nat)]
              Hpool Hq Hrepr Hin)
    as (s2 & Hs2 & _ & Hq2 & Hrepr2 & _).
  - intros Hr. apply residentb_true in Hr. congruence.
  - exact Hfresh.
  - rewrite Hroom in Hq2, Hrepr2. exists s1, s2. auto.
Defined.

Lemma timer_tick_moves_no_page_witness :
  exists s s' : @sys clru_policy,
    tiny_clru 2 read_first_of_two = Ret s /\ sigalrm_handler s = Ret s' /\
    ages (vm s) (vm s') /\ quiet (vm s) (vm s').
Proof.
  assert (Hret : match tiny_clru 2 read_first_of_two with
                 | Ret s => returns (sigalrm_handler s)
                 | Stop _ => false
                 end = true) by (vm_compute; reflexivity).
  destruct (tiny_clru 2 read_first_of_two) as [s | f]; [| discriminate].
  destruct (sigalrm_handler s) as [s' | f] eqn:Ht; [| discriminate].
  exists s, s'. split; [reflexivity |]. split; [exact Ht |].
  apply (proj2 timer_tick_moves_no_page clru_policy s s'); [right; reflexivity | exact Ht].
Defined.

Lemma fifo_serves_every_faithful_run_witness :
  exists s0 s' : @sys fifo_policy,
    vmem_init all_ok 1 boot = Ret s0 /\
    run evict_written_page s0 = Ret s' /\
    pool_ok (vm s') /\ queue_ok (vm s') [(1%nat, 1%nat)] /\
    fifo_repr (ps s') [(1%nat, 1%nat)].
Proof.
  destruct (fifo_serves_every_faithful_run 1) as (s0 & Hs0 & Hserve); [lia |].
  destruct (Hserve evict_written_page [(1%nat, 1%nat)]) as (s' & Hs' & Hfinal).
  - assert (Hb : match vmem_init (P := fifo_policy) all_ok 1 boot with
                 | Ret s => faithful_runb fifo_ticked evict_written_page s []
                              [(1%nat, 1%nat)]
                 | Stop _ => false
                 end = true) by (vm_compute; reflexivity).
    rewrite Hs0 in Hb. apply faithful_runb_sound. exact Hb.
  - exists s0, s'. auto.
Defined.


End TinyExamples.

(** ** Examples on the example build *)

Section GivingUpExamples.
#[local] Existing Instance example_config.
#[local] Existing Instance example_config_ok.

Lemma vmem_init_starts_consistent_witness :
  (exists s' : @sys fifo_policy,
     vmem_init all_ok 2 boot = Ret s' /\ pool_ok (vm s') /\
     get_vmem_end (vm s') = VIRTUALMEM_ADDR_START + 32768) /\
  vmem_init (P := fifo_policy) (Host true false true true true true true) 2 boot
    = Stop Aborted /\
  vmem_init (P := fifo_policy) (Host true true true true true true false) 2 boot
    = Stop (Exited 1).
Proof.
  split; [| split].
  - destruct (vmem_init_starts_consistent fifo_policy all_ok 2 boot)
      as (_ & _ & s' & Hs' & Hpool & _ & _ & Hend & _);
      [left; reflexivity | lia | reflexivity | reflexivity |].
    exists s'. split; [assumption |]. split; [assumption | exact Hend].
  - apply (vmem_init_starts_consistent fifo_policy
             (Host true false true true true true true) 2 boot);
      [left; reflexivity | lia | reflexivity].
  - apply (vmem_init_starts_consistent fifo_policy
             (Host true true true true true true false) 2 boot);
      [left; reflexivity | lia | reflexivity | reflexivity].
Defined.

Lemma map_page_gives_up_witness :
  map_page (Some 1%nat) 0%nat PAGEPERM_NONE (@Sys fifo_policy one_dirty_page fifo_idle)
  = Stop Aborted.
Proof.
  assert (Hlen : length (page_table one_dirty_page) = NUM_PAGES) by reflexivity.
  apply (proj1 (map_page_gives_up (P := fifo_policy) (Some 1%nat) 0%nat PAGEPERM_NONE
                  (@Sys fifo_policy one_dirty_page fifo_idle) Hlen)).
  right. right. left. exists 31. split; [reflexivity | discriminate].
Defined.

Lemma unmap_page_gives_up_witness : unmap_page 1%nat one_dirty_page = Stop Aborted.
Proof.
  apply (unmap_page_gives_up 1%nat one_dirty_page); [reflexivity |].
  right. right. left. intros (e & He & Hr). injection He as <-. apply Hr. reflexivity.
Defined.

Lemma sigsegv_handler_refuses_witness :
  sigsegv_handler None (page_addr 1) SEGV_ACCERR (@Sys fifo_policy one_dirty_page fifo_idle)
  = Stop Aborted.
Proof.
  apply (sigsegv_handler_refuses (P := fifo_policy) None (page_addr 1) SEGV_ACCERR
           (@Sys fifo_policy one_dirty_page fifo_idle)); [reflexivity | reflexivity |].
  right. right. left. split; [reflexivity |].
  intros (e & He & Hr). vm_compute in He. injection He as <-. apply Hr. reflexivity.
Defined.

Lemma clru_one_dirty_page_ok :
  pool_ok (vm clru_one_dirty_page) /\ queue_ok (vm clru_one_dirty_page) [(1%nat, 0%nat)] /\
  clru_holds (ps clru_one_dirty_page) [(1%nat, 0%nat)].
Proof.
  assert (Hres : forall pg, resident_in (vm clru_one_dirty_page) pg <-> pg = 0%nat).
  { intros pg. split.
    - intros (e & He & Hr). destruct pg as [| pg]; [reflexivity |].
      cbn in He. exfalso.
      do 7 (destruct pg as [| pg]; [injection He as <-; apply Hr; reflexivity |]).
      discriminate He.
    - intros ->. exists 31. split; [reflexivity | discriminate]. }
  split; [split | split].
  - discriminate.
  - reflexivity.
  - reflexivity.
  - reflexivity.
  - cbn. lia.
  - cbn. lia.
  - intros pg Hpg. apply Hres in Hpg as ->. eexists. split; reflexivity.
  - cbn [vm clru_one_dirty_page one_dirty_page os os_file]. unfold zeros.
    rewrite length_replicate. lia.
  - intros pg e m He Hr Hd Hm.
    assert (pg = 0%nat) as -> by (apply Hres; exists e; auto).
    injection He as <-. discriminate Hd.
  - split; [cbn; apply NoDup_singleton |].
    intros pg. rewrite Hres. cbn. apply list_elem_of_singleton.
  - split.
    + exists None. split. eexists. split; [reflexivity |]. split; [reflexivity |].
      split; cbn; [reflexivity | reflexivity | apply NoDup_singleton |].
      split; [reflexivity | exact I].
    + intros a Ha. cbn in *. apply lookup_singleton_ne.
      intros <-. apply Ha. apply list_elem_of_singleton. reflexivity.
Qed.

Lemma handlers_keep_page_contents_witness :
  exists s' : @sys clru_policy,
    handle (Fault (Some 2%nat) (page_addr 1) SEGV_MAPERR) clru_one_dirty_page = Ret s' /\
    residentb (vm s') 0%nat = false /\
    contents (vm s') 0%nat = replicate PAGE_SIZE Byte.xab.
Proof.
  destruct clru_one_dirty_page_ok as (Hpool & Hq & Hholds).
  destruct (proj1 (proj2 handlers_keep_page_contents)
              (Fault (Some 2%nat) (page_addr 1) SEGV_MAPERR) clru_one_dirty_page
              [(1%nat, 0%nat)] [(2%nat, 1%nat)] Hpool Hq Hholds)
    as (s' & Hs' & Hc); [vm_compute; reflexivity |].
  assert (Hnr : match handle (Fault (Some 2%nat) (page_addr 1) SEGV_MAPERR)
                        clru_one_dirty_page with
                | Ret s => residentb (vm s) 0%nat
                | Stop _ => true
                end = false) by (vm_compute; reflexivity).
  rewrite Hs' in Hnr.
  assert (Hbytes : contents (vm clru_one_dirty_page) 0%nat = replicate PAGE_SIZE Byte.xab)
    by (vm_compute; reflexivity).
  exists s'. split; [assumption |]. split; [exact Hnr |].
  rewrite Hc. exact Hbytes.
Defined.

End GivingUpExamples.
